(** * scumaps: hierarchy builder, query service, validator, alert scoring
      and route planner, embedded from the TypeScript sources.

    Conventions of the embedding.
    - A JS object used as a string-keyed record set ([Record<string, any>],
      [StantonSystem]) and a JS [Map] are association lists in iteration
      order ([Object.entries] order, insertion order); the list given for
      an input object is its [Object.entries], whatever order the engine
      gives its keys.  Records are objects, so a present record is truthy.
    - Strings are [string]; identifiers are taken over ASCII, so
      [toLowerCase] only moves ['A'..'Z'].
    - Numbers of the hierarchy ([StarSystemTypes]) are [number]: an exact
      rational for a finite double (rounding is not modelled) plus [NaN]
      and the two infinities, which the validator and the [||] defaults
      inspect.  Numbers of the route planner are real numbers, because the
      planner takes square roots; they are finite by construction.  What
      is stated of them is which formula is evaluated and relations that
      rounding keeps (order comparisons, exact symmetries), not identities
      that hold in real arithmetic only.
    - A plain object that the code fills by computed keys ([typeStats]) is
      a [PlainObject]: own keys in enumeration order, and no own key for
      ["__proto__"].
    - Code that throws returns [Err msg]; recursion that the source does not
      bound takes a fuel argument and answers [OutOfFuel] when it runs out. *)

From Stdlib Require Import String Ascii List Bool Arith Lia ZArith.
From Stdlib Require Import QArith Qminmax Lqa.
From Stdlib Require Import Reals Lra.
From Stdlib Require Import Permutation Sorted.
From Stdlib Require Import DecimalString.
Import ListNotations.

Local Open Scope string_scope.
Local Open Scope list_scope.
Local Close Scope Q_scope.
Local Open Scope nat_scope.

(** ** JavaScript string primitives *)
Module JS.

(** One character of [String.prototype.toLowerCase] on ASCII text. *)
Definition lower_ascii (c : ascii) : ascii :=
  let n := nat_of_ascii c in
  if (65 <=? n) && (n <=? 90) then ascii_of_nat (n + 32) else c.

Fixpoint toLowerCase (s : string) : string :=
  match s with
  | EmptyString => EmptyString
  | String c s' => String (lower_ascii c) (toLowerCase s')
  end.

(** [s.includes(sub)]: [sub] occurs in [s] at some offset. *)
Fixpoint includes (s sub : string) : bool :=
  if String.prefix sub s then true
  else match s with
       | EmptyString => false
       | String _ s' => includes s' sub
       end.

(** [s] without the leading [p], when [s] starts with [p]. *)
Fixpoint strip_prefix (p s : string) : option string :=
  match p, s with
  | EmptyString, _ => Some s
  | String a p', String b s' =>
      if Ascii.eqb a b then strip_prefix p' s' else None
  | String _ _, EmptyString => None
  end.

(** The regular expression class [\d]. *)
Definition is_digit (c : ascii) : bool :=
  let n := nat_of_ascii c in (48 <=? n) && (n <=? 57).

(** The longest run of digits at the head of [s], and what follows it
    (a greedy [\d*]). *)
Fixpoint span_digits (s : string) : string * string :=
  match s with
  | EmptyString => (EmptyString, EmptyString)
  | String c s' =>
      if is_digit c
      then let (d, r) := span_digits s' in (String c d, r)
      else (EmptyString, s)
  end.

Definition is_empty (s : string) : bool :=
  match s with EmptyString => true | _ => false end.

(** [/stanton(\d+)_l(\d+)/] anchored at the head of [s].  After the digit
    run the pattern needs ['_'], which is no digit, so only the longest
    run can match and no backtracking is lost. *)
Definition lagrange_at (s : string) : option (string * string) :=
  match strip_prefix "stanton" s with
  | None => None
  | Some r0 =>
      let (planetNumber, r1) := span_digits r0 in
      if is_empty planetNumber then None
      else match strip_prefix "_l" r1 with
           | None => None
           | Some r2 =>
               let (lagrangeNumber, _) := span_digits r2 in
               if is_empty lagrangeNumber then None
               else Some (planetNumber, lagrangeNumber)
           end
  end.

(** [s.match(/stanton(\d+)_l(\d+)/)]: the two groups of the leftmost
    match, [None] for JS [null]. *)
Fixpoint match_lagrange (s : string) : option (string * string) :=
  match lagrange_at s with
  | Some m => Some m
  | None => match s with
            | EmptyString => None
            | String _ s' => match_lagrange s'
            end
  end.

(** [s.match(/stanton(\d+)_l\d+/)]: same language, one group. *)
Definition match_planet (s : string) : option string :=
  option_map fst (match_lagrange s).

(** [/stanton\d+_l\d+/.test(s)]. *)
Definition test_lagrange (s : string) : bool :=
  match match_lagrange s with Some _ => true | None => false end.

(** Truthiness of a possibly absent string: [undefined] and [""] are falsy. *)
Definition truthy_str (o : option string) : bool :=
  match o with
  | Some s => negb (is_empty s)
  | None => false
  end.

(** [o || d] on strings. *)
Definition or_str (o : option string) (d : string) : string :=
  match o with
  | Some s => if is_empty s then d else s
  | None => d
  end.

End JS.

(** ** JavaScript numbers of the hierarchy *)
Module Num.

Inductive number : Type :=
| Finite (q : Q)
| NaN
| PosInf
| NegInf.

(** [a + b]. *)
Definition add (a b : number) : number :=
  match a, b with
  | NaN, _ | _, NaN => NaN
  | PosInf, NegInf | NegInf, PosInf => NaN
  | PosInf, _ | _, PosInf => PosInf
  | NegInf, _ | _, NegInf => NegInf
  | Finite x, Finite y => Finite (x + y)
  end.

(** The global [isNaN] on a number. *)
Definition isNaN (a : number) : bool :=
  match a with NaN => true | _ => false end.

Definition isFinite (a : number) : bool :=
  match a with Finite _ => true | _ => false end.

(** Falsy numbers are zero and [NaN]. *)
Definition falsy (a : number) : bool :=
  match a with
  | Finite q => Qeq_bool q 0
  | NaN => true
  | _ => false
  end.

(** [o || d] on numbers. *)
Definition or_num (o : option number) (d : number) : number :=
  match o with
  | Some a => if falsy a then d else a
  | None => d
  end.

Definition zero : number := Finite 0.
Definition of_Z (z : Z) : number := Finite (inject_Z z).

End Num.

(** ** Results of code that may throw *)
Inductive result (A : Type) : Type :=
| Ok (a : A)
| Err (msg : string)
| OutOfFuel.
Arguments Ok {A} a.
Arguments Err {A} msg.
Arguments OutOfFuel {A}.

Definition bind {A B : Type} (r : result A) (k : A -> result B) : result B :=
  match r with
  | Ok a => k a
  | Err m => Err m
  | OutOfFuel => OutOfFuel
  end.

Notation "x <- r ;; k" := (bind r (fun x => k))
  (at level 61, r at next level, right associativity).

(** ** Insertion-ordered maps *)
Module Assoc.
Section Assoc.
Context {V : Type}.

Fixpoint get (k : string) (m : list (string * V)) : option V :=
  match m with
  | [] => None
  | (k', v) :: m' => if String.eqb k k' then Some v else get k m'
  end.

Definition has (k : string) (m : list (string * V)) : bool :=
  match get k m with Some _ => true | None => false end.

(** [m.set(k, v)] / [o[k] = v]: an existing key keeps its place, a new key
    goes last. *)
Fixpoint set (k : string) (v : V) (m : list (string * V)) : list (string * V) :=
  match m with
  | [] => [(k, v)]
  | (k', v') :: m' =>
      if String.eqb k k' then (k, v) :: m' else (k', v') :: set k v m'
  end.

Definition keys (m : list (string * V)) : list string := map fst m.
Definition values (m : list (string * V)) : list V := map snd m.

End Assoc.
End Assoc.

(** ** Plain objects with string keys

    [o[k] = v] on an object literal [{}] whose values are numbers, and the
    order in which [Object.keys], [Object.entries] and [for ... in] list
    its own keys: array indices first (the canonical decimal strings of
    0 .. 2^32 - 2), in ascending numeric order, then the other keys in
    creation order.  The key ["__proto__"] reaches the setter inherited
    from [Object.prototype], which ignores a number, so no own key is
    made. *)
Module PlainObject.

Fixpoint digits_value (s : string) (acc : N) : option N :=
  match s with
  | EmptyString => Some acc
  | String c s' =>
      if JS.is_digit c
      then digits_value s' (10 * acc + N.of_nat (nat_of_ascii c - 48))%N
      else None
  end.

(** The number a key stands for when it is an array index. *)
Definition array_index (k : string) : option N :=
  match k with
  | EmptyString => None
  | String c rest =>
      if Ascii.eqb c "0" && negb (JS.is_empty rest) then None
      else match digits_value k 0 with
           | Some n => if (n <=? 4294967294)%N then Some n else None
           | None => None
           end
  end.

Section PlainObject.
Context {V : Type}.

(** A new array index goes before the first key that is no smaller
    index. *)
Fixpoint insert_index (n : N) (k : string) (v : V) (o : list (string * V))
  : list (string * V) :=
  match o with
  | [] => [(k, v)]
  | (k', v') :: o' =>
      match array_index k' with
      | Some n' =>
          if (n' <? n)%N then (k', v') :: insert_index n k v o'
          else (k, v) :: (k', v') :: o'
      | None => (k, v) :: (k', v') :: o'
      end
  end.

Definition set (k : string) (v : V) (o : list (string * V))
  : list (string * V) :=
  if String.eqb k "__proto__" then o
  else if Assoc.has k o then Assoc.set k v o
  else match array_index k with
       | Some n => insert_index n k v o
       | None => o ++ [(k, v)]
       end.

End PlainObject.
End PlainObject.

(** ** models/StarSystemTypes.ts *)
Module StarSystemTypes.
Import Num.

Record Position : Type := { x : number; y : number; z : number }.

Record Rotation : Type := { rw : number; rx : number; ry : number; rz : number }.

(** The string enum [ObjectType]; at run time a type is its string, and
    [createCelestialObject] can let an unlisted string through its cast. *)
Definition ObjectType : Type := string.

Module ObjectType.
Definition Star : ObjectType := "Star".
Definition Planet : ObjectType := "Planet".
Definition Moon : ObjectType := "Moon".
Definition JumpPoint : ObjectType := "JumpPoint".
Definition LagrangePoint : ObjectType := "LagrangePoint".
Definition Station : ObjectType := "Station".
Definition SpaceStation : ObjectType := "SpaceStation".
Definition Outpost : ObjectType := "Outpost".
Definition LandingZone : ObjectType := "LandingZone".
Definition CommArray : ObjectType := "CommArray".
Definition RestStop : ObjectType := "RestStop".
Definition OrbitMarker : ObjectType := "OrbitMarker".
Definition Generic : ObjectType := "Generic".
End ObjectType.

Record CelestialObject : Type := {
  name : string;
  display_name : string;
  parent : string;
  type : ObjectType;
  position : Position;
  rotation : Rotation;
  size : number;
  arrivalRadius : number;
  obstructionRadius : number;
  atmoHeight : number;
  system_entity_name : string
}.

(** [StarSystem]; its [children] map is created empty and never filled. *)
Record StarSystem : Type := {
  systemName : string;
  star : CelestialObject;
  children : list (string * CelestialObject);
  objectsById : list (string * CelestialObject);
  objectsByType : list (ObjectType * list CelestialObject)
}.

End StarSystemTypes.

(** ** The raw input feed: one loosely typed record per id, every field
    optional *)
Module Raw.
Import Num StarSystemTypes.

Record payload : Type := {
  parent : option string;
  position : option Position;
  rotation : option Rotation;
  size : option number;
  arrivalRadius : option number;
  obstructionRadius : option number;
  atmoHeight : option number;
  display_name : option string;
  name : option string;
  system_entity_name : option string;
  type : option string
}.

(** The record [{}]. *)
Definition empty : payload :=
  {| parent := None; position := None; rotation := None; size := None;
     arrivalRadius := None; obstructionRadius := None; atmoHeight := None;
     display_name := None; name := None; system_entity_name := None;
     type := None |}.

(** [data.parent = p]. *)
Definition set_parent (p : string) (data : payload) : payload :=
  {| parent := Some p; position := position data; rotation := rotation data;
     size := size data; arrivalRadius := arrivalRadius data;
     obstructionRadius := obstructionRadius data;
     atmoHeight := atmoHeight data; display_name := display_name data;
     name := name data; system_entity_name := system_entity_name data;
     type := type data |}.

(** [data.type && data.type === t]. *)
Definition type_is (data : payload) (t : string) : bool :=
  match type data with
  | Some s => String.eqb s t
  | None => false
  end.

End Raw.

(** ** utils/SpaceUtils.ts *)
Module SpaceUtils.
Import Num StarSystemTypes.

Definition calculateAbsolutePosition
    (object : CelestialObject) (parentPosition : Position) : Position :=
  {| x := add (x parentPosition) (x (position object));
     y := add (y parentPosition) (y (position object));
     z := add (z parentPosition) (z (position object)) |}.

End SpaceUtils.

(** ** services/StarSystemService.ts *)
Module StarSystemService.
Import JS Num StarSystemTypes.

Definition origin : Position := {| x := zero; y := zero; z := zero |}.
Definition unitRotation : Rotation :=
  {| rw := of_Z 1; rx := zero; ry := zero; rz := zero |}.

(** The fields of the service object. *)
Record Service : Type := {
  systemData : option (list (string * Raw.payload));
  starSystem : option StarSystem;
  objectsById : list (string * CelestialObject);
  objectsByType : list (ObjectType * list CelestialObject);
  objectsByParent : list (string * list CelestialObject)
}.

Definition initial : Service :=
  {| systemData := None; starSystem := None; objectsById := [];
     objectsByType := []; objectsByParent := [] |}.

(** *** createCelestialObject *)

(** The if-chain that opens [createCelestialObject]. *)
Definition determineType (id : string) (data : Raw.payload) : ObjectType :=
  let lid := toLowerCase id in
  if includes lid "jumppoint" then ObjectType.JumpPoint
  else if includes lid "lagrange" then ObjectType.LagrangePoint
  else if includes lid "commarray" then ObjectType.CommArray
  else if includes lid "star" then ObjectType.Star
  else if includes lid "planet" || Raw.type_is data "Planet"
    then ObjectType.Planet
  else if includes lid "moon" || Raw.type_is data "Moon"
    then ObjectType.Moon
  else if includes lid "station" || Raw.type_is data "Station"
    then ObjectType.Station
  else if includes lid "outpost" || Raw.type_is data "Outpost"
    then ObjectType.Outpost
  else if includes lid "reststop" || Raw.type_is data "RestStop"
    then ObjectType.RestStop
  else if includes lid "landingzone" || Raw.type_is data "LandingZone"
    then ObjectType.LandingZone
  else if includes lid "orbitmarker" || Raw.type_is data "OrbitMarker"
    then ObjectType.OrbitMarker
  else or_str (Raw.type data) ObjectType.Generic.

Definition createCelestialObject (id : string) (data : Raw.payload)
  : CelestialObject :=
  {| name := id;
     display_name := or_str (Raw.display_name data) id;
     parent := or_str (Raw.parent data) "";
     type := determineType id data;
     position := match Raw.position data with Some p => p | None => origin end;
     rotation :=
       match Raw.rotation data with Some r => r | None => unitRotation end;
     size := or_num (Raw.size data) zero;
     arrivalRadius := or_num (Raw.arrivalRadius data) zero;
     obstructionRadius := or_num (Raw.obstructionRadius data) zero;
     atmoHeight := or_num (Raw.atmoHeight data) zero;
     system_entity_name := or_str (Raw.system_entity_name data) id |}.

(** *** createInferredObjects *)

(** [set.add(x)] on a [Set<string>] kept in insertion order. *)
Definition set_add (x : string) (s : list string) : list string :=
  if existsb (String.eqb x) s then s else s ++ [x].

(** The body of the first loop: [if (data.parent) add it]. *)
Definition noteParent (acc : list string) (data : Raw.payload) : list string :=
  if truthy_str (Raw.parent data)
  then set_add (or_str (Raw.parent data) "") acc
  else acc.

(** The first loop: every truthy [data.parent], once, in order of first
    appearance. *)
Definition referencedParents (sd : list (string * Raw.payload)) : list string :=
  fold_left noteParent (Assoc.values sd) [].

(** The object literal assigned to [inferredObjects[parentId]]. *)
Definition inferredLagrange (parentId planetNumber lagrangeNumber : string)
  : Raw.payload :=
  {| Raw.arrivalRadius := Some (of_Z 1000);
     Raw.atmoHeight := Some zero;
     Raw.display_name := Some ("L" ++ lagrangeNumber)%string;
     Raw.name := Some parentId;
     Raw.obstructionRadius := Some zero;
     Raw.parent := Some ("stanton" ++ planetNumber)%string;
     Raw.position := Some origin;
     Raw.rotation := Some unitRotation;
     Raw.size := Some (of_Z 1000);
     Raw.system_entity_name := Some ("Inferred_" ++ parentId)%string;
     Raw.type := Some "LagrangePoint" |}.

(** The body of the second loop for one referenced parent. *)
Definition inferOne (sd : list (string * Raw.payload))
    (inferred : list (string * Raw.payload)) (parentId : string)
  : list (string * Raw.payload) :=
  if Assoc.has parentId sd then inferred
  else match match_lagrange parentId with
       | Some (planetNumber, lagrangeNumber) =>
           Assoc.set parentId
             (inferredLagrange parentId planetNumber lagrangeNumber) inferred
       | None => inferred
       end.

Definition inferredObjects (sd : list (string * Raw.payload))
  : list (string * Raw.payload) :=
  fold_left (inferOne sd) (referencedParents sd) [].

(** The third loop: [this.systemData[id] = data] for every inferred object.
    The new keys all contain ["stanton"], so none is an array index and each
    one goes last. *)
Definition addAll (inferred sd : list (string * Raw.payload))
  : list (string * Raw.payload) :=
  fold_left (fun acc kv => Assoc.set (fst kv) (snd kv) acc) inferred sd.

Definition createInferredObjects (sd : list (string * Raw.payload))
  : list (string * Raw.payload) :=
  addAll (inferredObjects sd) sd.

(** *** The first pass of processSystemData *)

(** [const l = idx.get(k) || []; l.push(o); idx.set(k, l)]. *)
Definition index_push (k : string) (o : CelestialObject)
    (idx : list (string * list CelestialObject))
  : list (string * list CelestialObject) :=
  Assoc.set k
    (match Assoc.get k idx with Some l => l ++ [o] | None => [o] end) idx.

Definition indexOne (this : Service) (kv : string * Raw.payload) : Service :=
  let celestialObject := createCelestialObject (fst kv) (snd kv) in
  {| systemData := systemData this;
     starSystem := starSystem this;
     objectsById := Assoc.set (fst kv) celestialObject (objectsById this);
     objectsByType :=
       index_push (type celestialObject) celestialObject (objectsByType this);
     objectsByParent :=
       index_push (parent celestialObject) celestialObject
         (objectsByParent this) |}.

Definition indexAll (this : Service) (sd : list (string * Raw.payload))
  : Service :=
  fold_left indexOne sd this.

(** *** fixParentChildRelationships *)

(** [Object.keys(this.systemData).find(key => ...)]. *)
Definition findStarKey (sd : list (string * Raw.payload)) : option string :=
  find
    (fun key =>
       includes (toLowerCase key) "star" || includes (toLowerCase key) "sun")
    (Assoc.keys sd).

Definition parent_is_root (data : Raw.payload) : bool :=
  match Raw.parent data with
  | Some p => String.eqb p "root"
  | None => false
  end.

(** [this.systemData[starKey].parent = ''] when that parent is ['root']. *)
Definition clearRootSentinel (starKey : option string)
    (sd : list (string * Raw.payload)) : list (string * Raw.payload) :=
  match starKey with
  | Some k =>
      map (fun kv =>
             if String.eqb k (fst kv) && parent_is_root (snd kv)
             then (fst kv, Raw.set_parent "" (snd kv))
             else kv) sd
  | None => sd
  end.

(** The planet named by [match], or the star, as the new parent. *)
Definition retarget (known : list string) (starKey : option string)
    (m : option string) (data : Raw.payload) : Raw.payload :=
  match m with
  | Some planetNumber =>
      let planetId := ("stanton" ++ planetNumber)%string in
      if existsb (String.eqb planetId) known
      then Raw.set_parent planetId data
      else Raw.set_parent (or_str starKey "") data
  | None => data
  end.

(** The body of the repair loop for one entry. *)
Definition repairOne (known : list string) (starKey : option string)
    (kv : string * Raw.payload) : string * Raw.payload :=
  let id := fst kv in
  let data := snd kv in
  let p := or_str (Raw.parent data) "" in
  if truthy_str (Raw.parent data) && negb (existsb (String.eqb p) known) then
    if includes id "_l" && includes id "stanton" then
      (id, retarget known starKey (match_planet id) data)
    else if includes id "station_reststop" && includes id "stanton" then
      (id, retarget known starKey (match_planet p) data)
    else (id, Raw.set_parent (or_str starKey "") data)
  else kv.

Definition fixParentChildRelationships (sd : list (string * Raw.payload))
  : list (string * Raw.payload) :=
  let knownObjectIds := Assoc.keys sd in
  let starKey := findStarKey sd in
  map (repairOne knownObjectIds starKey) (clearRootSentinel starKey sd).

(** *** findStar *)
Definition findStar (this : Service) : option CelestialObject :=
  match Assoc.get ObjectType.Star (objectsByType this) with
  | Some (s :: _) => Some s
  | _ =>
      match find (fun kv => includes (toLowerCase (fst kv)) "star")
                 (objectsById this) with
      | Some kv => Some (snd kv)
      | None =>
          find (fun object => is_empty (parent object))
               (Assoc.values (objectsById this))
      end
  end.

(** *** buildHierarchy *)

(** A [for ... of] loop whose body may throw. *)
Fixpoint forEach {A : Type} (body : A -> result unit) (l : list A)
  : result unit :=
  match l with
  | [] => Ok tt
  | a :: l' => _ <- body a ;; forEach body l'
  end.

(** [getChildrenOfObject]: [this.objectsByParent.get(parentId) || []]. *)
Definition getChildrenOfObject (this : Service) (parentId : string)
  : list CelestialObject :=
  match Assoc.get parentId (objectsByParent this) with
  | Some l => l
  | None => []
  end.

(** The local closure [processChildren]; [fuel] bounds the recursion depth,
    which the source leaves to the call stack. *)
Fixpoint processChildren (fuel : nat) (this : Service)
    (parentId : string) (parentPosition : Position) : result unit :=
  match fuel with
  | O => OutOfFuel
  | S fuel' =>
      forEach
        (fun child =>
           let absolutePosition :=
             SpaceUtils.calculateAbsolutePosition child parentPosition in
           processChildren fuel' this (name child) absolutePosition)
        (getChildrenOfObject this parentId)
  end.

Definition buildHierarchy (fuel : nat) (this : Service) : result unit :=
  match starSystem this with
  | None => Ok tt
  | Some sys => processChildren fuel this (name (star sys)) origin
  end.

(** *** processSystemData and loadFromObject *)
Definition processSystemData (fuel : nat) (this : Service)
  : result (StarSystem * Service) :=
  match systemData this with
  | None => Err "System data not loaded"
  | Some sd0 =>
      let sd1 := createInferredObjects sd0 in
      let cleared :=
        {| systemData := Some sd1; starSystem := starSystem this;
           objectsById := []; objectsByType := []; objectsByParent := [] |} in
      let indexed := indexAll cleared sd1 in
      let sd2 := fixParentChildRelationships sd1 in
      match findStar indexed with
      | None => Err "Star not found in the system data"
      | Some star =>
          let sys :=
            {| systemName := "Stanton"; star := star; children := [];
               StarSystemTypes.objectsById := objectsById indexed;
               StarSystemTypes.objectsByType := objectsByType indexed |} in
          let built :=
            {| systemData := Some sd2; starSystem := Some sys;
               objectsById := objectsById indexed;
               objectsByType := objectsByType indexed;
               objectsByParent := objectsByParent indexed |} in
          _ <- buildHierarchy fuel built ;;
          Ok (sys, built)
      end
  end.

Definition loadFromObject (fuel : nat) (this : Service)
    (data : list (string * Raw.payload)) : result (StarSystem * Service) :=
  processSystemData fuel
    {| systemData := Some data; starSystem := starSystem this;
       objectsById := objectsById this; objectsByType := objectsByType this;
       objectsByParent := objectsByParent this |}.

(** *** Queries *)
Definition getObjectsByType (this : Service) (t : ObjectType)
  : list CelestialObject :=
  match Assoc.get t (objectsByType this) with
  | Some l => l
  | None => []
  end.

Definition getObjectById (this : Service) (id : string)
  : option CelestialObject :=
  Assoc.get id (objectsById this).

Section OrbitPath.
(** [generateOrbitPath] of SpaceUtils samples a circle with square roots,
    sines and cosines of doubles; the service only forwards to it, so it is
    a parameter here. *)
Variable generateOrbitPath : CelestialObject -> nat -> list Position.

Definition getOrbitPath (this : Service) (objectId : string) (steps : nat)
  : list Position :=
  match Assoc.get objectId (objectsById this) with
  | None => []
  | Some object => generateOrbitPath object steps
  end.
End OrbitPath.

Definition addPosition (p q : Position) : Position :=
  {| x := add (x p) (x q); y := add (y p) (y q); z := add (z p) (z q) |}.

(** The [while] loop of [getAbsolutePosition]; [fuel] bounds its
    iterations. *)
Fixpoint climb (fuel : nat) (this : Service)
    (position : Position) (parentId : string) : result Position :=
  if is_empty parentId then Ok position
  else match Assoc.get parentId (objectsById this) with
       | None => Ok position
       | Some parent' =>
           match fuel with
           | O => OutOfFuel
           | S fuel' =>
               climb fuel' this
                 (addPosition position (StarSystemTypes.position parent'))
                 (parent parent')
           end
       end.

(** [null] is [None]. *)
Definition getAbsolutePosition (fuel : nat) (this : Service)
    (objectId : string) : result (option Position) :=
  match Assoc.get objectId (objectsById this) with
  | None => Ok None
  | Some object =>
      p <- climb fuel this (position object) (parent object) ;;
      Ok (Some p)
  end.

(** *** getStatistics *)

(** [{ loaded: false }], or the three counts. *)
Inductive statistics : Type :=
| NotLoaded
| Loaded (objectCount : nat) (typeStats : list (string * nat))
         (parentCount : nat).

(** [typeStats[type] = objects.length] for every entry of the by-type
    map; [typeStats] is a plain object. *)
Definition countByType (idx : list (ObjectType * list CelestialObject))
  : list (string * nat) :=
  fold_left
    (fun stats kv => PlainObject.set (fst kv) (List.length (snd kv)) stats)
    idx [].

Definition getStatistics (this : Service) : statistics :=
  match starSystem this with
  | None => NotLoaded
  | Some _ =>
      Loaded (List.length (objectsById this))
             (countByType (objectsByType this))
             (List.length (objectsByParent this))
  end.

End StarSystemService.

(** ** SystemDebugger.validateData *)
Module SystemDebugger.
Import JS Num StarSystemTypes.

Record validation : Type := { valid : bool; issues : list string }.

(** [Object ${object.display_name} (${object.name})]. *)
Definition describe (object : CelestialObject) : string :=
  ("Object " ++ display_name object ++ " (" ++ name object ++ ")")%string.

Definition nonExistentParent (object : CelestialObject) : string :=
  (describe object ++ " has non-existent parent: " ++ parent object)%string.

Definition noParent (object : CelestialObject) : string :=
  (describe object ++ " has no parent")%string.

Definition invalidPosition (object : CelestialObject) : string :=
  (describe object ++ " has invalid position data")%string.

Definition mem (s : string) (l : list string) : bool :=
  existsb (String.eqb s) l.

(** The body of the loop over parents; the state is the issue list and the
    set [ignoredParentWarnings]. *)
Definition checkParent (knownObjectIds : list string)
    (st : list string * list string) (object : CelestialObject)
  : list string * list string :=
  let (issues, ignored) := st in
  if String.eqb (type object) ObjectType.Star then st
  else if negb (is_empty (parent object)) then
    let parentExists := mem (parent object) knownObjectIds in
    if negb parentExists && test_lagrange (parent object) then
      (issues, StarSystemService.set_add (name object) ignored)
    else if negb parentExists && negb (mem (name object) ignored) then
      (issues ++ [nonExistentParent object], ignored)
    else st
  else if negb (mem (name object) ignored) then
    (issues ++ [noParent object], ignored)
  else st.

(** The body of the loop over positions.  Its first test,
    [!object.position], is false for every [CelestialObject]: the position
    is an object, which is truthy, so ["has no position data"] is never
    pushed. *)
Definition checkPosition (object : CelestialObject) : list string :=
  if isNaN (x (position object)) || isNaN (y (position object))
     || isNaN (z (position object))
  then [invalidPosition object]
  else [].

Definition validateData (starSystem : option StarSystem) : validation :=
  match starSystem with
  | None => {| valid := false; issues := ["No star system loaded"] |}
  | Some sys =>
      let ignored0 :=
        if String.eqb (parent (star sys)) "root"
        then [name (star sys)] else [] in
      let knownObjectIds := Assoc.keys (objectsById sys) in
      let objects := Assoc.values (objectsById sys) in
      let afterParents :=
        fold_left (checkParent knownObjectIds) objects ([], ignored0) in
      let issues :=
        fold_left (fun acc object => acc ++ checkPosition object)
          objects (fst afterParents) in
      {| valid := Nat.eqb (List.length issues) 0; issues := issues |}
  end.

(** *** findDisconnectedObjects *)

(** The [while] loop that climbs from [current]; [true] is [pathToStar].
    [fuel] bounds its iterations. *)
Fixpoint pathToStar (fuel : nat) (byId : list (string * CelestialObject))
    (current : CelestialObject) : result bool :=
  if is_empty (parent current) then Ok false
  else match Assoc.get (parent current) byId with
       | None => Ok false
       | Some parent' =>
           if String.eqb (type parent') ObjectType.Star then Ok true
           else match fuel with
                | O => OutOfFuel
                | S fuel' => pathToStar fuel' byId parent'
                end
       end.

(** The body of the loop over the objects. *)
Definition checkConnected (fuel : nat) (byId : list (string * CelestialObject))
    (disconnected : list CelestialObject) (object : CelestialObject)
  : result (list CelestialObject) :=
  if String.eqb (type object) ObjectType.Star then Ok disconnected
  else
    found <- pathToStar fuel byId object ;;
    Ok (if found then disconnected else disconnected ++ [object]).

(** A [for ... of] loop that threads an accumulator and may not return. *)
Fixpoint foldResult {A B : Type} (body : B -> A -> result B)
    (l : list A) (acc : B) : result B :=
  match l with
  | [] => Ok acc
  | a :: l' => acc' <- body acc a ;; foldResult body l' acc'
  end.

Definition findDisconnectedObjects (fuel : nat)
    (starSystem : option StarSystem) : result (list CelestialObject) :=
  match starSystem with
  | None => Ok []
  | Some sys =>
      foldResult (checkConnected fuel (objectsById sys))
        (Assoc.values (objectsById sys)) []
  end.

End SystemDebugger.

(** ** utils/alertUtils.ts: calculateSafetyScore, on exact rationals *)
Module AlertScore.
Local Open Scope Q_scope.

Definition defaultConfirmationWeight : Q := 7 # 10.
Definition defaultDisputeWeight : Q := 3 # 10.

Definition calculateSafetyScore
    (confirmations disputes confirmationWeight disputeWeight : Q) : Q :=
  let totalVotes := confirmations + disputes in
  if Qeq_bool totalVotes 0 then 50
  else
    let confirmationRatio := confirmations / totalVotes in
    let rawScore :=
      100 - (confirmationRatio * 100 * confirmationWeight)
      + ((1 - confirmationRatio) * 100 * disputeWeight) in
    Qmax 0 (Qmin 100 rawScore).

(** The score of an alert with [c] confirmations and [d] disputes under the
    default weights. *)
Definition score (c d : nat) : Q :=
  calculateSafetyScore (inject_Z (Z.of_nat c)) (inject_Z (Z.of_nat d))
    defaultConfirmationWeight defaultDisputeWeight.

End AlertScore.

(** ** models/stanton.ts, on real numbers *)
Module Stanton.
Local Open Scope R_scope.

Record Position : Type := { x : R; y : R; z : R }.

Record Rotation : Type := { rw : R; rx : R; ry : R; rz : R }.

Record CelestialObject : Type := {
  arrivalRadius : R;
  atmoHeight : R;
  display_name : string;
  name : string;
  obstructionRadius : R;
  parent : string;
  position : Position;
  rotation : Rotation;
  size : R;
  system_entity_name : string;
  type : string
}.

Definition StantonSystem : Type := list (string * CelestialObject).

Inductive AlertType : Type := pirate | security | debris | anomaly | trade.

Record Location : Type := { loc_position : Position; regionId : string }.

Record RouteAlert : Type := {
  id : string;
  location : Location;
  alertType : AlertType;
  createdBy : string;
  createdAt : R;
  expiresAt : R;
  confirmations : R;
  disputes : R;
  shardId : string;
  safetyScore : R
}.

Record ShipSpecification : Type := {
  ship_id : string;
  ship_name : string;
  manufacturer : string;
  ship_size : R;
  fuelCapacity : R;
  fuelConsumption : R;
  quantumSpeed : R;
  scmSpeed : R;
  cargoCapacity : R
}.

End Stanton.

(** ** utils/stantonParser.ts, utils/alertUtils.ts (geometry) and
    utils/routePlanner.ts *)
Module RoutePlanner.
Import Stanton.
Local Open Scope R_scope.

Definition DEFAULT_QUANTUM_SPEED : R := 200000.

Record RouteWaypoint : Type := {
  objectId : string;
  wp_position : Position;
  distance : R;
  timeFromPrevious : R;
  nearbyAlerts : list RouteAlert;
  wp_safetyScore : R
}.

Record RoutePlan : Type := {
  startObjectId : string;
  endObjectId : string;
  waypoints : list RouteWaypoint;
  totalDistance : R;
  totalTime : R;
  fuelRequired : R;
  overallSafetyScore : R
}.

Definition calculateDistance (pos1 pos2 : Position) : R :=
  let dx := x pos2 - x pos1 in
  let dy := y pos2 - y pos1 in
  let dz := z pos2 - z pos1 in
  sqrt (dx * dx + dy * dy + dz * dz).

Definition leb (a b : R) : bool := if Rle_dec a b then true else false.

Definition findAlertsInRadius (position : Position)
    (alerts : list RouteAlert) (radius : R) : list RouteAlert :=
  filter
    (fun alert =>
       leb (calculateDistance position (loc_position (location alert))) radius)
    alerts.

Definition calculateWaypointSafety (nearbyAlerts : list RouteAlert) : R :=
  match nearbyAlerts with
  | [] => 100
  | _ =>
      let avgAlertSafety :=
        fold_left (fun sum alert => sum + safetyScore alert) nearbyAlerts 0
        / INR (List.length nearbyAlerts) in
      let alertCountFactor :=
        Rmax 0 (1 - INR (List.length nearbyAlerts) * (1 / 10)) in
      avgAlertSafety * alertCountFactor
  end.

(** [ship?.quantumSpeed || DEFAULT_QUANTUM_SPEED]: a missing ship and a
    speed of zero both give the default. *)
Definition effectiveSpeed (ship : option ShipSpecification) : R :=
  match ship with
  | Some s =>
      if Req_dec_T (quantumSpeed s) 0 then DEFAULT_QUANTUM_SPEED
      else quantumSpeed s
  | None => DEFAULT_QUANTUM_SPEED
  end.

Definition planRoute (stantonData : StantonSystem)
    (startId endId : string) (activeAlerts : list RouteAlert)
    (ship : option ShipSpecification) : result RoutePlan :=
  match Assoc.get startId stantonData, Assoc.get endId stantonData with
  | Some startObject, Some endObject =>
      let distance :=
        calculateDistance (position startObject) (position endObject) in
      let quantumSpeed := effectiveSpeed ship in
      let time := distance / quantumSpeed in
      let fuelRequired :=
        match ship with
        | Some s => distance * fuelConsumption s / 1000000
        | None => 0
        end in
      let midPoint :=
        {| x := (x (position startObject) + x (position endObject)) / 2;
           y := (y (position startObject) + y (position endObject)) / 2;
           z := (z (position startObject) + z (position endObject)) / 2 |} in
      let alertRadius := 1000000 in
      let startAlerts :=
        findAlertsInRadius (position startObject) activeAlerts alertRadius in
      let midAlerts := findAlertsInRadius midPoint activeAlerts alertRadius in
      let endAlerts :=
        findAlertsInRadius (position endObject) activeAlerts alertRadius in
      let waypoints :=
        [ {| objectId := startId; wp_position := position startObject;
             distance := 0; timeFromPrevious := 0;
             nearbyAlerts := startAlerts;
             wp_safetyScore := calculateWaypointSafety startAlerts |};
          {| objectId := "midpoint"; wp_position := midPoint;
             distance := distance / 2; timeFromPrevious := time / 2;
             nearbyAlerts := midAlerts;
             wp_safetyScore := calculateWaypointSafety midAlerts |};
          {| objectId := endId; wp_position := position endObject;
             distance := distance / 2; timeFromPrevious := time / 2;
             nearbyAlerts := endAlerts;
             wp_safetyScore := calculateWaypointSafety endAlerts |} ] in
      let overallSafetyScore :=
        fold_left (fun sum wp => sum + wp_safetyScore wp) waypoints 0
        / INR (List.length waypoints) in
      Ok {| startObjectId := startId; endObjectId := endId;
            waypoints := waypoints; totalDistance := distance;
            totalTime := time; fuelRequired := fuelRequired;
            overallSafetyScore := overallSafetyScore |}
  | _, _ => Err "Start or end object not found in Stanton data"
  end.

(** [routes.sort((a, b) => b.overallSafetyScore - a.overallSafetyScore)]:
    a stable sort, safest first. *)
Fixpoint insertBySafety (r : RoutePlan) (l : list RoutePlan) : list RoutePlan :=
  match l with
  | [] => [r]
  | h :: t =>
      if Rlt_dec (overallSafetyScore r) (overallSafetyScore h)
      then h :: insertBySafety r t
      else r :: h :: t
  end.

Fixpoint sortBySafety (l : list RoutePlan) : list RoutePlan :=
  match l with
  | [] => []
  | r :: t => insertBySafety r (sortBySafety t)
  end.

(** The two [filter] predicates that select the via-points. *)
Definition isViaPoint (obj : CelestialObject) : bool :=
  String.eqb (type obj) "LagrangePoint" || String.eqb (type obj) "Station"
  || String.eqb (parent obj) "stantonstar".

Definition notEndpoint (startId endId : string) (obj : CelestialObject) : bool :=
  negb (String.eqb (name obj) startId) && negb (String.eqb (name obj) endId).

Section Alternatives.
Variable stantonData : StantonSystem.
Variables startId endId : string.
Variable activeAlerts : list RouteAlert.
Variable maxAlternatives : nat.
Variable directRoute : RoutePlan.

Definition combine (routeToWaypoint routeFromWaypoint : RoutePlan) : RoutePlan :=
  {| startObjectId := startId; endObjectId := endId;
     waypoints :=
       removelast (waypoints routeToWaypoint) ++ waypoints routeFromWaypoint;
     totalDistance :=
       totalDistance routeToWaypoint + totalDistance routeFromWaypoint;
     totalTime := totalTime routeToWaypoint + totalTime routeFromWaypoint;
     fuelRequired :=
       fuelRequired routeToWaypoint + fuelRequired routeFromWaypoint;
     overallSafetyScore :=
       (overallSafetyScore routeToWaypoint
        + overallSafetyScore routeFromWaypoint) / 2 |}.

(** The [for ... of] loop over the candidates, with its [break]. *)
Fixpoint explore (candidates : list CelestialObject)
    (alternativeRoutes : list RoutePlan) : result (list RoutePlan) :=
  match candidates with
  | [] => Ok alternativeRoutes
  | waypoint :: rest =>
      if (maxAlternatives <=? List.length alternativeRoutes)%nat
      then Ok alternativeRoutes
      else
        routeToWaypoint <-
          planRoute stantonData startId (name waypoint) activeAlerts None ;;
        routeFromWaypoint <-
          planRoute stantonData (name waypoint) endId activeAlerts None ;;
        let combinedRoute := combine routeToWaypoint routeFromWaypoint in
        if Rgt_dec (overallSafetyScore combinedRoute)
                   (overallSafetyScore directRoute + 5)
        then explore rest (alternativeRoutes ++ [combinedRoute])
        else explore rest alternativeRoutes
  end.

End Alternatives.

Definition findAlternativeRoutes (stantonData : StantonSystem)
    (startId endId : string) (activeAlerts : list RouteAlert)
    (maxAlternatives : nat) : result (list RoutePlan) :=
  directRoute <- planRoute stantonData startId endId activeAlerts None ;;
  if Rge_dec (overallSafetyScore directRoute) 90 then Ok [directRoute]
  else
    let waypointCandidates :=
      filter (notEndpoint startId endId)
        (filter isViaPoint (Assoc.values stantonData)) in
    alternativeRoutes <-
      explore stantonData startId endId activeAlerts maxAlternatives
        directRoute waypointCandidates [] ;;
    Ok (sortBySafety (directRoute :: alternativeRoutes)).

End RoutePlanner.

(** ** utils/stantonParser.ts *)
Module StantonParser.
Import Stanton.

Definition getCelestialObjectsByType (data : StantonSystem) (t : string)
  : list CelestialObject :=
  filter (fun obj => String.eqb (type obj) t) (Assoc.values data).

Definition getCelestialObjectById (data : StantonSystem) (id : string)
  : option CelestialObject :=
  Assoc.get id data.

Definition getChildObjects (data : StantonSystem) (parentId : string)
  : list CelestialObject :=
  filter (fun obj => String.eqb (parent obj) parentId) (Assoc.values data).

#[warnings="-register-all"] Inductive StantonTreeNode : Type :=
| Node (object : CelestialObject) (children : list StantonTreeNode).

(** [l.map(f)] where [f] may throw: the first failure ends the map. *)
Fixpoint mapResult {A B : Type} (f : A -> result B) (l : list A)
  : result (list B) :=
  match l with
  | [] => Ok []
  | a :: l' => b <- f a ;; bs <- mapResult f l' ;; Ok (b :: bs)
  end.

(** [fuel] bounds the recursion depth, which the source leaves to the call
    stack. *)
Fixpoint buildTreeNode (fuel : nat) (data : StantonSystem) (nodeId : string)
  : result StantonTreeNode :=
  match Assoc.get nodeId data with
  | None => Err ("Object with ID " ++ nodeId ++ " not found")%string
  | Some object =>
      match fuel with
      | O => OutOfFuel
      | S fuel' =>
          children <-
            mapResult (fun child => buildTreeNode fuel' data (name child))
              (getChildObjects data nodeId) ;;
          Ok (Node object children)
      end
  end.

Definition buildStantonTree (fuel : nat) (data : StantonSystem)
  : result StantonTreeNode :=
  match find (fun obj => String.eqb (type obj) "Star") (Assoc.values data) with
  | None => Err "Star not found in Stanton system data"
  | Some star => buildTreeNode fuel data (name star)
  end.

End StantonParser.

(** ** utils/alertUtils.ts and createRoute of utils/routePlanner.ts, with
    the clock [Date.now()] as the argument [now] *)
Module AlertUtils.
Import Stanton.
Local Open Scope R_scope.

(** [`${n}`] for an integer [n]. *)
Definition decimal (n : Z) : string := NilZero.string_of_int (Z.to_int n).

(** models/firestore.ts *)
Record FirestoreAlert : Type := {
  fa_id : string;
  fa_location : Location;
  fa_alertType : AlertType;
  fa_createdBy : string;
  fa_createdAt : R;
  fa_expiresAt : R;
  fa_confirmations : list (string * R);
  fa_disputes : list (string * R);
  fa_shardId : string;
  fa_safetyScore : R;
  fa_description : option string;
  fa_isActive : bool;
  fa_lastUpdated : R
}.

Definition DEFAULT_ALERT_EXPIRATION : R := 2 * 60 * 60 * 1000.

Definition createRouteAlert (now : Z) (userId : string) (position : Position)
    (regionId : string) (alertType : AlertType) (shardId : string)
    (description : option string) : FirestoreAlert :=
  {| fa_id := ("alert_" ++ decimal now ++ "_" ++ substring 0 8 userId)%string;
     fa_location := {| loc_position := position; regionId := regionId |};
     fa_alertType := alertType;
     fa_createdBy := userId;
     fa_createdAt := IZR now;
     fa_expiresAt := IZR now + DEFAULT_ALERT_EXPIRATION;
     fa_confirmations := [(userId, IZR now)];
     fa_disputes := [];
     fa_shardId := shardId;
     fa_safetyScore := 20;
     fa_description := description;
     fa_isActive := true;
     fa_lastUpdated := IZR now |}.

Definition ltb (a b : R) : bool := if Rlt_dec a b then true else false.

Definition isAlertActive (now : R) (alert : FirestoreAlert) : bool :=
  ltb now (fa_expiresAt alert).

Definition getTotalVotes (alert : FirestoreAlert) : nat :=
  List.length (Assoc.keys (fa_confirmations alert))
  + List.length (Assoc.keys (fa_disputes alert)).

Definition calculateAlertDecay (now : R) (alert : FirestoreAlert)
    (decayRate : R) : R :=
  let alertAge := now - fa_createdAt alert in
  let alertLifetime := fa_expiresAt alert - fa_createdAt alert in
  let decay := Rmin 1 (Rmax 0 (alertAge / alertLifetime)) in
  decay * decayRate.

(** [alerts.sort((a, b) => b.createdAt - a.createdAt)]: a stable sort,
    newest first. *)
Fixpoint insertByCreated (a : FirestoreAlert) (l : list FirestoreAlert)
  : list FirestoreAlert :=
  match l with
  | [] => [a]
  | h :: t =>
      if Rlt_dec (fa_createdAt a) (fa_createdAt h)
      then h :: insertByCreated a t
      else a :: h :: t
  end.

Fixpoint sortByCreated (l : list FirestoreAlert) : list FirestoreAlert :=
  match l with
  | [] => []
  | a :: t => insertByCreated a (sortByCreated t)
  end.

(** The parameter [userId] is not read by the source. *)
Definition canReportAlert (now : R) (userId regionId' : string)
    (userAlerts : list FirestoreAlert) (throttleTime : R) : bool :=
  let mostRecentAlert :=
    hd_error
      (sortByCreated
         (filter
            (fun alert => String.eqb (regionId (fa_location alert)) regionId')
            userAlerts)) in
  match mostRecentAlert with
  | None => true
  | Some alert => ltb throttleTime (now - fa_createdAt alert)
  end.

Definition DEFAULT_THROTTLE : R := 5 * 60 * 1000.



End AlertUtils.

(** * Specification-side definitions

    What the claims speak about, written from their words, and the sample
    inputs they name. *)

Module Spec.
Import JS Num StarSystemTypes StarSystemService.

(** ** Classification *)

(** One step of the classification: the keyword looked for in the lowered
    id, the type it yields, and whether a payload type of that very name
    fires the step as well. *)
Record step : Type :=
  { keyword : string; yields : ObjectType; orPayload : bool }.

Definition steps : list step :=
  [ {| keyword := "jumppoint"; yields := ObjectType.JumpPoint;
       orPayload := false |};
    {| keyword := "lagrange"; yields := ObjectType.LagrangePoint;
       orPayload := false |};
    {| keyword := "commarray"; yields := ObjectType.CommArray;
       orPayload := false |};
    {| keyword := "star"; yields := ObjectType.Star; orPayload := false |};
    {| keyword := "planet"; yields := ObjectType.Planet; orPayload := true |};
    {| keyword := "moon"; yields := ObjectType.Moon; orPayload := true |};
    {| keyword := "station"; yields := ObjectType.Station;
       orPayload := true |};
    {| keyword := "outpost"; yields := ObjectType.Outpost;
       orPayload := true |};
    {| keyword := "reststop"; yields := ObjectType.RestStop;
       orPayload := true |};
    {| keyword := "landingzone"; yields := ObjectType.LandingZone;
       orPayload := true |};
    {| keyword := "orbitmarker"; yields := ObjectType.OrbitMarker;
       orPayload := true |} ].

Definition fires (id : string) (data : Raw.payload) (s : step) : bool :=
  includes (toLowerCase id) (keyword s)
  || (orPayload s && Raw.type_is data (yields s)).

(** The first step that fires wins; with none, the payload type, else
    Generic. *)
Definition classifyBySteps (id : string) (data : Raw.payload) : ObjectType :=
  match find (fires id data) steps with
  | Some s => yields s
  | None => or_str (Raw.type data) ObjectType.Generic
  end.

(** The classifier as the specification words it: keywords only, first
    match wins, the payload type only when no keyword matches. *)
Definition classifyByKeyword (id : string) (data : Raw.payload) : ObjectType :=
  match find (fun s => includes (toLowerCase id) (keyword s)) steps with
  | Some s => yields s
  | None => or_str (Raw.type data) ObjectType.Generic
  end.

(** ** Sample records *)

Definition withParent (p : string) : Raw.payload := Raw.set_parent p Raw.empty.

Definition withType (t : string) : Raw.payload :=
  {| Raw.parent := None; Raw.position := None; Raw.rotation := None;
     Raw.size := None; Raw.arrivalRadius := None;
     Raw.obstructionRadius := None; Raw.atmoHeight := None;
     Raw.display_name := None; Raw.name := None;
     Raw.system_entity_name := None; Raw.type := Some t |}.

(** A record [{parent: p, position: {x, y, z}}]; [p = ""] stands for a
    record without parent. *)
Definition placed (p : string) (px py pz : number) : Raw.payload :=
  {| Raw.parent := if is_empty p then None else Some p;
     Raw.position := Some {| x := px; y := py; z := pz |};
     Raw.rotation := None; Raw.size := None; Raw.arrivalRadius := None;
     Raw.obstructionRadius := None; Raw.atmoHeight := None;
     Raw.display_name := None; Raw.name := None;
     Raw.system_entity_name := None; Raw.type := None |}.

(** [{sun: {parent: "root"}, stanton1: {parent: "sun"}}]. *)
Definition sunRecords : list (string * Raw.payload) :=
  [("sun", withParent "root"); ("stanton1", withParent "sun")].

(** [{stanton3: {}, outpost_a: {parent: "stanton3_l1"}}]. *)
Definition outpostRecords : list (string * Raw.payload) :=
  [("stanton3", Raw.empty); ("outpost_a", withParent "stanton3_l1")].

(** A star and two records that name each other as parent. *)
Definition loopRecords : list (string * Raw.payload) :=
  [("stantonstar", Raw.empty); ("a", withParent "b"); ("b", withParent "a")].

(** root(0,0,0), planet(100,0,0), moon(0,10,0). *)
Definition chainRecords : list (string * Raw.payload) :=
  [("stantonstar", placed "" zero zero zero);
   ("planet1", placed "stantonstar" (of_Z 100) zero zero);
   ("moon1", placed "planet1" zero (of_Z 10) zero)].

(** A star and an object whose parent id names no record. *)
Definition strayRecords : list (string * Raw.payload) :=
  [("stantonstar", placed "" zero zero zero);
   ("relay", placed "ghost" (of_Z 1) (of_Z 2) (of_Z 3))].

(** A star whose position has an infinite component, and one whose
    position has a NaN component. *)
Definition farRecords : list (string * Raw.payload) :=
  [("stantonstar", placed "" PosInf zero zero)].

Definition nanRecords : list (string * Raw.payload) :=
  [("stantonstar", placed "" NaN zero zero)].

(** The service after [loadFromObject] on [sd], or the untouched service
    when the build does not return. *)
Definition loaded (fuel : nat) (sd : list (string * Raw.payload)) : Service :=
  match loadFromObject fuel initial sd with
  | Ok (_, built) => built
  | _ => initial
  end.

(** ** Parent chains *)

(** The by-id entry written for one record in the first pass. *)
Definition putObject (m : list (string * CelestialObject))
    (kv : string * Raw.payload) : list (string * CelestialObject) :=
  Assoc.set (fst kv) (createCelestialObject (fst kv) (snd kv)) m.

(** Following parent ids from [id] through the by-id map reaches the id
    [root] in at most [hops] steps. *)
Fixpoint reachesRoot (byId : list (string * CelestialObject))
    (root : string) (hops : nat) (id : string) : bool :=
  if String.eqb id root then true
  else match hops with
       | O => false
       | S hops' =>
           match Assoc.get id byId with
           | None => false
           | Some object =>
               if is_empty (parent object) then false
               else reachesRoot byId root hops' (parent object)
           end
       end.

(** The claim about built hierarchies, as it is stated. *)
Definition chainsReachRoot (sys : StarSystem) : Prop :=
  forall id object,
    Assoc.get id (StarSystemTypes.objectsById sys) = Some object ->
    id <> name (star sys) ->
    reachesRoot (StarSystemTypes.objectsById sys) (name (star sys))
      (List.length (StarSystemTypes.objectsById sys)) id = true.

(** Every record other than [root] names as parent an existing record,
    strictly shallower under some depth assignment: below the root no
    parent is missing, empty, dangling or on a cycle. *)
Definition wellParented (recs : list (string * Raw.payload)) (root : string)
  : Prop :=
  exists depth : string -> nat,
    forall id data,
      In (id, data) recs -> id <> root ->
      exists p, Raw.parent data = Some p /\ p <> ""
                /\ Assoc.get p recs <> None /\ depth p < depth id.

(** The objects met by the walk of [getAbsolutePosition] that starts at
    the parent id [parentId]: it ends at an empty parent id or at an id
    that does not resolve. *)
Inductive Chain (this : Service) : string -> list CelestialObject -> Prop :=
| Chain_top : Chain this "" []
| Chain_broken parentId :
    Assoc.get parentId (objectsById this) = None -> Chain this parentId []
| Chain_step parentId object rest :
    parentId <> "" ->
    Assoc.get parentId (objectsById this) = Some object ->
    Chain this (parent object) rest ->
    Chain this parentId (object :: rest).

(** The componentwise sum of [start] and the positions of [objects]. *)
Definition sumPositions (start : Position) (objects : list CelestialObject)
  : Position :=
  fold_left (fun acc object => addPosition acc (position object))
    objects start.

(** ** Inference *)

(** Every entry of the inferred set is the placeholder of its own key. *)
Definition placeholder (kv : string * Raw.payload) : Prop :=
  exists pn ln, match_lagrange (fst kv) = Some (pn, ln)
                /\ snd kv = inferredLagrange (fst kv) pn ln.

(** ** Validation *)

Definition anyNaN (p : Position) : bool :=
  isNaN (x p) || isNaN (y p) || isNaN (z p).

Definition allFinite (p : Position) : bool :=
  isFinite (x p) && isFinite (y p) && isFinite (z p).

End Spec.

Module PlannerSpec.
Import Stanton RoutePlanner.
Local Open Scope R_scope.

(** The point half-way between [p] and [q]. *)
Definition midpoint (p q : Position) : Position :=
  {| x := (x p + x q) / 2; y := (y p + y q) / 2; z := (z p + z q) / 2 |}.

(** The straight-line distance between [p] and [q]. *)
Definition euclidean (p q : Position) : R :=
  sqrt ((x q - x p) ^ 2 + (y q - y p) ^ 2 + (z q - z p) ^ 2).

(** The hazards within the fixed radius of [p]. *)
Definition hazardsNear (alerts : list RouteAlert) (p : Position)
  : list RouteAlert :=
  filter (fun a => leb (euclidean p (loc_position (location a))) 1000000)
    alerts.

Definition mean (l : list R) : R := fold_right Rplus 0 l / INR (List.length l).

(** 100 without hazards, else the hazard-average safety score times
    [max(0, 1 - 0.1 * hazardCount)]. *)
Definition waypointScore (hazards : list RouteAlert) : R :=
  match hazards with
  | [] => 100
  | _ => mean (map safetyScore hazards)
         * Rmax 0 (1 - (1 / 10) * INR (List.length hazards))
  end.

(** A waypoint annotated as the claim says. *)
Definition annotated (alerts : list RouteAlert) (w : RouteWaypoint) : Prop :=
  nearbyAlerts w = hazardsNear alerts (wp_position w)
  /\ wp_safetyScore w = waypointScore (nearbyAlerts w).

(** The speed the claim divides by, as it is stated: the ship's own speed
    whenever a ship is given. *)
Definition statedSpeed (ship : option ShipSpecification) : R :=
  match ship with
  | Some s => quantumSpeed s
  | None => 200000
  end.

(** The data-model invariant of a system: each object is stored under its
    own name. *)
Definition keyedByName (stantonData : StantonSystem) : Prop :=
  forall k obj, In (k, obj) stantonData -> name obj = k.

(** What the planner needs of it: the name of every stored object is an id
    of the system. *)
Definition namesResolve (stantonData : StantonSystem) : Prop :=
  forall obj,
    In obj (Assoc.values stantonData) ->
    Assoc.get (name obj) stantonData <> None.

(** Safest first. *)
Definition safestFirst (routes : list RoutePlan) : Prop :=
  StronglySorted
    (fun a b => overallSafetyScore b <= overallSafetyScore a) routes.

(** ** Sample data *)

Definition noRotation : Rotation := {| rw := 1; rx := 0; ry := 0; rz := 0 |}.

(** A planet called [nm] at [(px, 0, 0)]. *)
Definition body (nm : string) (px : R) : CelestialObject :=
  {| arrivalRadius := 0; atmoHeight := 0; display_name := nm; name := nm;
     obstructionRadius := 0; parent := "stantonstar";
     position := {| x := px; y := 0; z := 0 |}; rotation := noRotation;
     size := 0; system_entity_name := nm; type := "Planet" |}.

(** Two objects 1,000,000 units apart. *)
Definition apart : StantonSystem :=
  [("a", body "a" 0); ("b", body "b" 1000000)].

(** A ship whose quantum speed is zero. *)
Definition stalledShip : ShipSpecification :=
  {| ship_id := "s0"; ship_name := "Stalled"; manufacturer := "none";
     ship_size := 1; fuelCapacity := 100; fuelConsumption := 1;
     quantumSpeed := 0; scmSpeed := 100; cargoCapacity := 0 |}.

End PlannerSpec.


(** * Derived notions

    What the further properties of the code speak about, and their sample
    inputs. *)

Module Derived.
Import JS Num StarSystemTypes StarSystemService Spec.

(** The by-id entry of a record. *)
Definition objectOf (kv : string * Raw.payload) : string * CelestialObject :=
  (fst kv, createCelestialObject (fst kv) (snd kv)).

(** The list stored under [k] in an index, empty when there is none. *)
Definition bucket (k : string) (idx : list (string * list CelestialObject))
  : list CelestialObject :=
  match Assoc.get k idx with Some l => l | None => [] end.

(** What the second loop of the inference pass keeps true of every entry
    it has inferred: a placeholder, under an id that no record has and some
    record names as parent. *)
Definition inferredFor (sd : list (string * Raw.payload))
    (kv : string * Raw.payload) : Prop :=
  placeholder kv /\ Assoc.get (fst kv) sd = None
  /\ In (fst kv) (referencedParents sd).

(** The sum of the counts of a statistics table. *)
Definition totalCount (stats : list (string * nat)) : nat :=
  fold_right (fun kv n => snd kv + n) 0 stats.


(** What [findStar] accepts as root: an object typed Star, an id that
    contains "star", or an empty parent string. *)
Definition rootCandidate (kv : string * CelestialObject) : bool :=
  String.eqb (type (snd kv)) ObjectType.Star
  || includes (toLowerCase (fst kv)) "star"
  || is_empty (parent (snd kv)).

(** Every record is strictly deeper than its parent string, the empty one
    of a parentless record included: parent links have no cycle. *)
Definition ranked (recs : list (string * Raw.payload)) : Prop :=
  exists depth : string -> nat,
    forall id data,
      In (id, data) recs -> depth (or_str (Raw.parent data) "") < depth id.

(** [q] is the name of an object met below [p] when the children index
    is followed from [p]. *)
Inductive reaches (this : Service) : string -> string -> Prop :=
| reaches_child p c :
    In c (getChildrenOfObject this p) -> reaches this p (name c)
| reaches_step p c q :
    In c (getChildrenOfObject this p) -> reaches this (name c) q ->
    reaches this p q.

(** One more than the largest depth of a record id. *)
Definition depthBound (depth : string -> nat)
    (recs : list (string * Raw.payload)) : nat :=
  S (list_max (map (fun kv => depth (fst kv)) recs)).

(** The one entry the ignore set of [validateData] starts with: the root,
    when its parent string is ["root"]. *)
Definition rootIgnored (sys : StarSystem) (object : CelestialObject) : bool :=
  String.eqb (parent (star sys)) "root"
  && String.eqb (name object) (name (star sys)).

(** The parent issue of one object, decided without the ignore set. *)
Definition parentIssue (sys : StarSystem) (object : CelestialObject)
  : list string :=
  if String.eqb (type object) ObjectType.Star then []
  else if is_empty (parent object) then
    if rootIgnored sys object then [] else [SystemDebugger.noParent object]
  else if SystemDebugger.mem (parent object)
            (Assoc.keys (StarSystemTypes.objectsById sys))
          || test_lagrange (parent object) || rootIgnored sys object
  then []
  else [SystemDebugger.nonExistentParent object].

(** What [validateData] accepts of one object of a built system. *)
Definition acceptable (sys : StarSystem) (object : CelestialObject) : Prop :=
  anyNaN (position object) = false
  /\ (type object = ObjectType.Star
      \/ (parent object <> ""
          /\ (In (parent object) (Assoc.keys (StarSystemTypes.objectsById sys))
              \/ test_lagrange (parent object) = true
              \/ (object = star sys /\ parent object = "root")))).

(** The parent ids above [object] resolve, one after the other, until an
    object typed Star is met: the loop of [findDisconnectedObjects] sets
    [pathToStar]. *)
Inductive climbsToStar (byId : list (string * CelestialObject))
  : CelestialObject -> Prop :=
| climbs_direct object p :
    parent object <> "" ->
    Assoc.get (parent object) byId = Some p ->
    type p = ObjectType.Star ->
    climbsToStar byId object
| climbs_via object p :
    parent object <> "" ->
    Assoc.get (parent object) byId = Some p ->
    type p <> ObjectType.Star ->
    climbsToStar byId p ->
    climbsToStar byId object.

(** Every object not typed Star is stored strictly deeper than its own
    parent string: below the Star-typed objects parent links have no
    cycle. *)
Definition climbable (byId : list (string * CelestialObject)) : Prop :=
  exists depth : string -> nat,
    forall k p,
      Assoc.get k byId = Some p -> type p <> ObjectType.Star ->
      depth (parent p) < depth k.

(** What the [||] defaults of [createCelestialObject] guarantee of the
    object stored under [id]. *)
Definition defaultsApplied (id : string) (object : CelestialObject) : Prop :=
  name object = id
  /\ type object <> ""
  /\ isNaN (size object) = false
  /\ isNaN (arrivalRadius object) = false
  /\ isNaN (obstructionRadius object) = false
  /\ isNaN (atmoHeight object) = false
  /\ (id <> "" -> display_name object <> "" /\ system_entity_name object <> "").

(** [{stantonstar: {size: NaN}}]. *)
Definition nanSizeRecords : list (string * Raw.payload) :=
  [("stantonstar",
    {| Raw.parent := None; Raw.position := None; Raw.rotation := None;
       Raw.size := Some NaN; Raw.arrivalRadius := None;
       Raw.obstructionRadius := None; Raw.atmoHeight := None;
       Raw.display_name := None; Raw.name := None;
       Raw.system_entity_name := None; Raw.type := None |})].

End Derived.

(** ** Derived notions of the planner and the alert utilities *)
Module PlannerDerived.
Import Stanton RoutePlanner AlertUtils PlannerSpec.
Local Open Scope R_scope.

(** A pirate alert at [(px, 0, 0)] with safety score [score]. *)
Definition hazardAt (px score : R) : RouteAlert :=
  {| id := "h"; location := {| loc_position := {| x := px; y := 0; z := 0 |};
                              regionId := "stanton" |};
     alertType := pirate; createdBy := "u"; createdAt := 0; expiresAt := 1;
     confirmations := 1; disputes := 0; shardId := "s";
     safetyScore := score |}.

(** A route of [findAlternativeRoutes] that detours through a via-point:
    the two plans start to via-point and via-point to end, joined. *)
Definition viaRoute (stantonData : StantonSystem) (startId endId : string)
    (activeAlerts : list RouteAlert) (directRoute r : RoutePlan) : Prop :=
  exists via routeToWaypoint routeFromWaypoint,
    In via (Assoc.values stantonData)
    /\ isViaPoint via = true
    /\ notEndpoint startId endId via = true
    /\ planRoute stantonData startId (name via) activeAlerts None
       = Ok routeToWaypoint
    /\ planRoute stantonData (name via) endId activeAlerts None
       = Ok routeFromWaypoint
    /\ r = combine startId endId routeToWaypoint routeFromWaypoint
    /\ map objectId (waypoints r)
       = [startId; "midpoint"; name via; "midpoint"; endId]
    /\ fuelRequired r = 0
    /\ overallSafetyScore r > overallSafetyScore directRoute + 5.

(** An alert created at [created] in region [region] that expires two
    hours later. *)
Definition alertFrom (created : R) (region : string) : FirestoreAlert :=
  {| fa_id := "a";
     fa_location := {| loc_position := {| x := 0; y := 0; z := 0 |};
                       regionId := region |};
     fa_alertType := pirate; fa_createdBy := "u"; fa_createdAt := created;
     fa_expiresAt := created + DEFAULT_ALERT_EXPIRATION;
     fa_confirmations := [("u", created)]; fa_disputes := [];
     fa_shardId := "s"; fa_safetyScore := 20; fa_description := None;
     fa_isActive := true; fa_lastUpdated := created |}.

(** The star of the sample system, at the origin, without parent. *)
Definition centralStar : CelestialObject :=
  {| arrivalRadius := 0; atmoHeight := 0; display_name := "Stanton";
     name := "stantonstar"; obstructionRadius := 0; parent := "";
     position := {| x := 0; y := 0; z := 0 |}; rotation := noRotation;
     size := 0; system_entity_name := "stantonstar"; type := "Star" |}.

(** A star and one planet. *)
Definition starAndPlanet : StantonSystem :=
  [("stantonstar", centralStar); ("a", body "a" 1000000)].

(** Every object of the system is strictly deeper than its parent string:
    parent links have no cycle. *)
Definition rankedSystem (stantonData : StantonSystem) : Prop :=
  exists depth : string -> nat,
    forall obj,
      In obj (Assoc.values stantonData) -> (depth (parent obj) < depth (name obj))%nat.

(** [t] is the tree of [nodeId]: its object is the one stored under
    [nodeId], and its children are, in order, the trees of the names of
    the objects whose parent string is [nodeId]. *)
Fixpoint treeOf (stantonData : StantonSystem) (nodeId : string)
    (t : StantonParser.StantonTreeNode) {struct t} : Prop :=
  match t with
  | StantonParser.Node object children =>
      Assoc.get nodeId stantonData = Some object
      /\ (fix all (cs : list StantonParser.StantonTreeNode) (ids : list string)
              {struct cs} : Prop :=
            match cs, ids with
            | [], [] => True
            | c :: cs', i :: ids' => treeOf stantonData i c /\ all cs' ids'
            | _, _ => False
            end)
           children
           (map name (StantonParser.getChildObjects stantonData nodeId))
  end.

(** Two objects 1,000,000 units apart and a third one far out on the same
    axis. *)
Definition farBody : StantonSystem :=
  [("a", body "a" 0); ("b", body "b" 1000000); ("c", body "c" 10000000)].

(** The same system with the third object stored under a key that is not
    its name. *)
Definition misnamed : StantonSystem :=
  [("a", body "a" 0); ("b", body "b" 1000000); ("k", body "zzz" 10000000)].

(** One alert of score 0 half-way between the two objects. *)
Definition midHazard : list RouteAlert := [hazardAt 500000 0].

End PlannerDerived.

(** * Proofs *)

(** ** The string primitives on sample ids *)

Example toLowerCase_mixed : JS.toLowerCase "StanTON3_L1" = "stanton3_l1".
Proof. reflexivity. Qed.

Example includes_inner : JS.includes "port_station_7" "station" = true.
Proof. reflexivity. Qed.

Example includes_miss : JS.includes "stanton1" "star" = false.
Proof. reflexivity. Qed.

Example match_lagrange_plain : JS.match_lagrange "stanton3_l1" = Some ("3", "1").
Proof. reflexivity. Qed.

Example match_lagrange_inner :
  JS.match_lagrange "rest_stanton12_l34_b" = Some ("12", "34").
Proof. reflexivity. Qed.

Example match_lagrange_restart :
  JS.match_lagrange "stanton1stanton2_l3" = Some ("2", "3").
Proof. reflexivity. Qed.

Example match_lagrange_no_digits : JS.match_lagrange "stanton_l3" = None.
Proof. reflexivity. Qed.

(** ** Insertion-ordered maps *)
Section AssocFacts.
Context {V : Type}.
Implicit Types (m : list (string * V)) (k : string) (v : V).

Lemma get_set_same k v m : Assoc.get k (Assoc.set k v m) = Some v.
Proof.
  induction m as [|[k' v'] m IH]; cbn.
  - now rewrite String.eqb_refl.
  - destruct (String.eqb k k') eqn:E; cbn.
    + now rewrite String.eqb_refl.
    + now rewrite E.
Qed.

Lemma get_set_other k k' v m :
  k <> k' -> Assoc.get k (Assoc.set k' v m) = Assoc.get k m.
Proof.
  intros Hne. induction m as [|[k2 v2] m IH]; cbn.
  - apply String.eqb_neq in Hne. now rewrite Hne.
  - destruct (String.eqb k' k2) eqn:E; cbn.
    + apply String.eqb_eq in E. subst k2.
      apply String.eqb_neq in Hne. now rewrite Hne.
    + now rewrite IH.
Qed.

Lemma get_In k v m : Assoc.get k m = Some v -> In (k, v) m.
Proof.
  induction m as [|[k' v'] m IH]; cbn; [discriminate|].
  destruct (String.eqb k k') eqn:E.
  - apply String.eqb_eq in E. intros [= ->]. subst. now left.
  - intros H. right. now apply IH.
Qed.

Lemma In_get k v m : In (k, v) m -> exists v', Assoc.get k m = Some v'.
Proof.
  induction m as [|[k' v'] m IH]; cbn; [tauto|].
  intros [[= -> ->]|H].
  - rewrite String.eqb_refl. eauto.
  - destruct (String.eqb k k'); eauto.
Qed.

Lemma has_false_get k m : Assoc.has k m = false <-> Assoc.get k m = None.
Proof. unfold Assoc.has. destruct (Assoc.get k m); split; congruence. Qed.

Lemma In_set k v k' v' m :
  In (k, v) (Assoc.set k' v' m) -> In (k, v) m \/ (k = k' /\ v = v').
Proof.
  induction m as [|[k2 v2] m IH]; cbn.
  - intros [[= <- <-]|[]]. now right.
  - destruct (String.eqb k' k2) eqn:E; cbn.
    + intros [[= <- <-]|H]; [now right | left; now right].
    + intros [H|H]; [left; now left|].
      destruct (IH H) as [H'|H']; [left; now right | now right].
Qed.

End AssocFacts.

Import JS Num StarSystemTypes StarSystemService Spec.

(** ** The inference pass *)

Lemma mem_existsb (x : string) (s : list string) :
  existsb (String.eqb x) s = true <-> In x s.
Proof.
  rewrite existsb_exists. split.
  - intros [y [Hy E]]. apply String.eqb_eq in E. now subst.
  - intros H. exists x. split; [exact H | apply String.eqb_refl].
Qed.

Lemma In_set_add (x y : string) (s : list string) :
  In y (set_add x s) <-> y = x \/ In y s.
Proof.
  unfold set_add. destruct (existsb (String.eqb x) s) eqn:E.
  - apply mem_existsb in E. split; [tauto|]. intros [->|H]; assumption.
  - rewrite in_app_iff. cbn. split; intros H; intuition congruence.
Qed.

Lemma noteParent_keeps acc data y : In y acc -> In y (noteParent acc data).
Proof.
  unfold noteParent. destruct (truthy_str _); [|tauto].
  intros H. apply In_set_add. now right.
Qed.

Lemma fold_noteParent_keeps l acc y :
  In y acc -> In y (fold_left noteParent l acc).
Proof.
  revert acc. induction l as [|d l IH]; cbn; [tauto|].
  intros acc H. apply IH. now apply noteParent_keeps.
Qed.

Lemma referencedParents_complete sd id data p :
  In (id, data) sd -> Raw.parent data = Some p -> p <> "" ->
  In p (referencedParents sd).
Proof.
  intros Hin Hp Hne. unfold referencedParents.
  assert (Hv : In data (Assoc.values sd)).
  { unfold Assoc.values. change data with (snd (id, data)). now apply in_map. }
  generalize (@nil string). induction (Assoc.values sd) as [|d l IH];
    [destruct Hv|].
  intros acc. cbn. destruct Hv as [->|Hv]; [|now apply IH].
  apply fold_noteParent_keeps. unfold noteParent. rewrite Hp. cbn.
  destruct p; [congruence|]. cbn. apply In_set_add. now left.
Qed.

Lemma match_lagrange_nonempty p m : match_lagrange p = Some m -> p <> "".
Proof. intros H ->. discriminate H. Qed.

Lemma inferOne_placeholders sd inferred p :
  Forall placeholder inferred -> Forall placeholder (inferOne sd inferred p).
Proof.
  intros H. unfold inferOne. destruct (Assoc.has p sd); [exact H|].
  destruct (match_lagrange p) as [[pn ln]|] eqn:E; [|exact H].
  rewrite Forall_forall in *. intros [k v] Hin.
  apply In_set in Hin. destruct Hin as [Hin|[-> ->]]; [now apply H|].
  exists pn, ln. now split.
Qed.

Lemma inferredObjects_placeholders sd : Forall placeholder (inferredObjects sd).
Proof.
  unfold inferredObjects. generalize (referencedParents sd).
  assert (H : Forall placeholder (@nil (string * Raw.payload))) by constructor.
  revert H. generalize (@nil (string * Raw.payload)).
  intros acc H l. revert acc H. induction l as [|p l IH]; cbn; [tauto|].
  intros acc H. apply IH. now apply inferOne_placeholders.
Qed.

Lemma inferOne_keeps sd inferred p k v :
  Assoc.get k inferred = Some v -> placeholder (k, v) ->
  Assoc.get k (inferOne sd inferred p) = Some v.
Proof.
  intros Hget [pn [ln [Hm Hv]]]. cbn in Hm, Hv. unfold inferOne.
  destruct (Assoc.has p sd); [exact Hget|].
  destruct (match_lagrange p) as [[pn' ln']|] eqn:E; [|exact Hget].
  destruct (String.eqb_spec k p) as [->|Hne].
  - rewrite get_set_same. rewrite Hm in E. injection E as <- <-. now rewrite Hv.
  - now rewrite get_set_other.
Qed.

Lemma inferredObjects_get sd p pn ln :
  In p (referencedParents sd) -> Assoc.get p sd = None ->
  match_lagrange p = Some (pn, ln) ->
  Assoc.get p (inferredObjects sd) = Some (inferredLagrange p pn ln).
Proof.
  intros Hin Habs Hm. unfold inferredObjects.
  assert (Hk : forall l acc,
             Assoc.get p acc = Some (inferredLagrange p pn ln) ->
             Assoc.get p (fold_left (inferOne sd) l acc)
             = Some (inferredLagrange p pn ln)).
  { induction l as [|q l IH]; cbn; [tauto|]. intros acc H. apply IH.
    apply inferOne_keeps; [exact H|]. exists pn, ln. now split. }
  revert Hin. generalize (@nil (string * Raw.payload)).
  induction (referencedParents sd) as [|q l IH]; [intros ? []|].
  intros acc [->|Hin]; cbn; [|now apply IH].
  apply Hk. unfold inferOne.
  apply has_false_get in Habs. rewrite Habs, Hm. apply get_set_same.
Qed.

Lemma addAll_get inferred sd k v :
  Assoc.get k inferred = Some v ->
  (forall v', In (k, v') inferred -> v' = v) ->
  Assoc.get k (addAll inferred sd) = Some v.
Proof.
  unfold addAll. revert sd. induction inferred as [|[k' v'] l IH]; cbn;
    [discriminate|].
  intros sd Hget Huniq.
  destruct (String.eqb_spec k k') as [->|Hne].
  - injection Hget as ->.
    clear IH. assert (H0 : Assoc.get k' (Assoc.set k' v sd) = Some v)
      by apply get_set_same.
    assert (Hl : forall v2, In (k', v2) l -> v2 = v)
      by (intros v2 H2; apply Huniq; now right).
    revert H0 Hl. generalize (Assoc.set k' v sd). clear Huniq.
    induction l as [|[k2 v2] l IH]; cbn; [tauto|].
    intros m H0 Hl. apply IH.
    + destruct (String.eqb_spec k' k2) as [->|Hne].
      * rewrite get_set_same. f_equal. apply Hl. now left.
      * now rewrite get_set_other.
    + intros v3 H3. apply Hl. now right.
  - apply IH; [exact Hget|]. intros v2 H2. apply Huniq. now right.
Qed.

Lemma placeholder_unique l k v v' :
  Forall placeholder l -> In (k, v) l -> In (k, v') l -> v' = v.
Proof.
  rewrite Forall_forall. intros H H1 H2.
  destruct (H _ H1) as [pn [ln [Hm Hv]]].
  destruct (H _ H2) as [pn' [ln' [Hm' Hv']]]. cbn in *.
  rewrite Hm in Hm'. injection Hm' as <- <-. congruence.
Qed.

Lemma createInferredObjects_get sd id data p pn ln :
  In (id, data) sd -> Raw.parent data = Some p ->
  Assoc.get p sd = None -> match_lagrange p = Some (pn, ln) ->
  Assoc.get p (createInferredObjects sd) = Some (inferredLagrange p pn ln).
Proof.
  intros Hin Hp Habs Hm. unfold createInferredObjects.
  assert (Hget : Assoc.get p (inferredObjects sd)
                 = Some (inferredLagrange p pn ln)).
  { apply inferredObjects_get; [|exact Habs|exact Hm].
    eapply referencedParents_complete; eauto using match_lagrange_nonempty. }
  apply addAll_get; [exact Hget|].
  intros v' Hv'. eapply placeholder_unique;
    eauto using inferredObjects_placeholders, get_In.
Qed.

(** ** The first pass *)

Lemma indexAll_objectsById this sd :
  objectsById (indexAll this sd) = fold_left putObject sd (objectsById this).
Proof.
  unfold indexAll. revert this. induction sd as [|kv sd IH]; [reflexivity|].
  intros this. cbn [fold_left]. now rewrite IH.
Qed.

Lemma putAll_keeps sd m k o :
  Assoc.get k m = Some o -> (forall v, In (k, v) sd -> createCelestialObject k v = o) ->
  Assoc.get k (fold_left putObject sd m) = Some o.
Proof.
  revert m. induction sd as [|[k' v'] sd IH]; cbn [fold_left]; [tauto|].
  intros m Hget Hall. apply IH.
  - unfold putObject; cbn [fst snd].
    destruct (String.eqb_spec k k') as [->|Hne].
    + rewrite get_set_same. f_equal. apply Hall. now left.
    + now rewrite get_set_other.
  - intros v Hv. apply Hall. now right.
Qed.

Lemma putAll_get sd m k v :
  In (k, v) sd -> (forall v', In (k, v') sd -> v' = v) ->
  Assoc.get k (fold_left putObject sd m) = Some (createCelestialObject k v).
Proof.
  revert m. induction sd as [|[k' v'] sd IH]; cbn [fold_left]; [intros ? []|].
  intros m Hin Huniq.
  assert (Hrest : forall v2, In (k, v2) sd -> v2 = v)
    by (intros v2 H2; apply Huniq; now right).
  destruct (String.eqb_spec k k') as [->|Hne].
  - assert (v' = v) as -> by (apply Huniq; now left).
    apply putAll_keeps.
    + unfold putObject; cbn [fst snd]. apply get_set_same.
    + intros v2 H2. f_equal. now apply Hrest.
  - destruct Hin as [[= <- <-]|Hin]; [congruence|]. now apply IH.
Qed.

Lemma In_addAll inferred sd k v :
  In (k, v) (addAll inferred sd) -> In (k, v) sd \/ In (k, v) inferred.
Proof.
  unfold addAll. revert sd. induction inferred as [|[k' v'] l IH];
    cbn [fold_left]; [tauto|].
  intros sd H. destruct (IH _ H) as [H'|H']; [|right; now right].
  apply In_set in H'. cbn [fst snd] in H'.
  destruct H' as [H'|[-> ->]]; [now left | right; now left].
Qed.

(** What a successful build returns. *)
Lemma loadFromObject_Ok fuel this sd sys built :
  loadFromObject fuel this sd = Ok (sys, built) ->
  StarSystemTypes.objectsById sys
  = fold_left putObject (createInferredObjects sd) []
  /\ objectsById built = StarSystemTypes.objectsById sys
  /\ starSystem built = Some sys.
Proof.
  unfold loadFromObject, processSystemData. cbn [systemData].
  destruct (findStar _) as [s|]; [|discriminate].
  destruct (buildHierarchy _ _); cbn [bind]; try discriminate.
  intros [= <- <-]. cbn. rewrite indexAll_objectsById. cbn. auto.
Qed.

(** C3: whenever some record's parent field names an id that is absent
    from the record set and matches the lagrange pattern
    [stanton<planet>_l<lagrange>], the inference pass puts under that id a
    placeholder LagrangePoint record with zero position, unit rotation and
    the nominal radius 1000, parented to [stanton<planet>]; it is there
    before the objects are constructed, so a successful build holds the
    object made from it. *)
Theorem lagrange_parent_inferred
    (sd : list (string * Raw.payload)) (id : string) (data : Raw.payload)
    (parentId planetNumber lagrangeNumber : string) :
  In (id, data) sd ->
  Raw.parent data = Some parentId ->
  Assoc.get parentId sd = None ->
  match_lagrange parentId = Some (planetNumber, lagrangeNumber) ->
  let inferred := inferredLagrange parentId planetNumber lagrangeNumber in
  Assoc.get parentId (createInferredObjects sd) = Some inferred
  /\ Raw.type inferred = Some ObjectType.LagrangePoint
  /\ Raw.parent inferred = Some ("stanton" ++ planetNumber)%string
  /\ Raw.position inferred = Some origin
  /\ Raw.rotation inferred = Some unitRotation
  /\ Raw.arrivalRadius inferred = Some (Num.of_Z 1000%Z)
  /\ Raw.size inferred = Some (Num.of_Z 1000%Z)
  /\ (forall fuel this sys built,
         loadFromObject fuel this sd = Ok (sys, built) ->
         Assoc.get parentId (objectsById built)
         = Some (createCelestialObject parentId inferred)).
Proof.
  intros Hin Hp Habs Hm inferred.
  assert (Hget := createInferredObjects_get sd id data parentId
                    planetNumber lagrangeNumber Hin Hp Habs Hm).
  repeat split; try reflexivity; [exact Hget|].
  intros fuel this sys built Hok.
  destruct (loadFromObject_Ok _ _ _ _ _ Hok) as [Hsys [Hbuilt _]].
  rewrite Hbuilt, Hsys. apply putAll_get; [now apply get_In|].
  intros v' Hv'. apply In_addAll in Hv'. destruct Hv' as [Hv'|Hv'].
  - apply In_get in Hv'. destruct Hv' as [w Hw]. congruence.
  - eapply placeholder_unique; eauto using inferredObjects_placeholders.
    apply get_In. apply inferredObjects_get; try assumption.
    eapply referencedParents_complete; eauto using match_lagrange_nonempty.
Qed.


(** [{stanton3: {}, outpost_a: {parent: "stanton3_l1"}}] gains
    [stanton3_l1], parented to [stanton3]. *)
Lemma lagrange_parent_inferred_example :
  In ("outpost_a", withParent "stanton3_l1") outpostRecords
  /\ Raw.parent (withParent "stanton3_l1") = Some "stanton3_l1"
  /\ Assoc.get "stanton3_l1" outpostRecords = None
  /\ match_lagrange "stanton3_l1" = Some ("3", "1")
  /\ Assoc.get "stanton3_l1" (createInferredObjects outpostRecords)
     = Some (inferredLagrange "stanton3_l1" "3" "1")
  /\ Raw.parent (inferredLagrange "stanton3_l1" "3" "1") = Some "stanton3"
  /\ exists sys built,
       loadFromObject 3 initial outpostRecords = Ok (sys, built)
       /\ option_map parent (Assoc.get "stanton3_l1" (objectsById built))
          = Some "stanton3".
Proof.
  assert (H1 : In ("outpost_a", withParent "stanton3_l1") outpostRecords)
    by (right; left; reflexivity).
  destruct (lagrange_parent_inferred outpostRecords "outpost_a"
              (withParent "stanton3_l1") "stanton3_l1" "3" "1"
              H1 eq_refl eq_refl eq_refl) as [H5 [_ [H6 [_ [_ [_ [_ H7]]]]]]].
  split; [exact H1|]. split; [reflexivity|]. split; [reflexivity|].
  split; [reflexivity|]. split; [exact H5|]. split; [exact H6|].
  eexists. eexists. split; [reflexivity|].
  erewrite (H7 3 initial); reflexivity.
Defined.

(** The inference pass appends the placeholder after the given records. *)
Example outpost_records_inferred :
  Assoc.keys (createInferredObjects outpostRecords)
  = ["stanton3"; "outpost_a"; "stanton3_l1"].
Proof. reflexivity. Qed.

(** ** Classification *)

Lemma determineType_by_steps (id : string) (data : Raw.payload) :
  determineType id data = classifyBySteps id data.
Proof.
  unfold determineType, classifyBySteps, steps, fires.
  cbn [find keyword yields orPayload andb].
  rewrite !orb_false_r.
  cbv [ObjectType.JumpPoint ObjectType.LagrangePoint ObjectType.CommArray
       ObjectType.Star ObjectType.Planet ObjectType.Moon ObjectType.Station
       ObjectType.Outpost ObjectType.RestStop ObjectType.LandingZone
       ObjectType.OrbitMarker].
  repeat match goal with
         | |- context [if ?b then _ else _] => destruct b
         end; reflexivity.
Qed.

(** C4, as amended: classification is a total function of (id, payload).
    The keyword steps are tried on the lowered id in the fixed order; from
    "planet" on, a step also fires when the payload's type field is that
    step's type name; the first step that fires gives the type; when none
    fires, the payload's non-empty type field is returned, else Generic. *)
Theorem classification_first_firing_step (id : string) (data : Raw.payload) :
  type (createCelestialObject id data) = classifyBySteps id data.
Proof. apply determineType_by_steps. Qed.

(** C4, as stated, fails: the id contains "station" and no earlier
    keyword, yet the payload type Moon is consulted first and wins. *)
Lemma payload_type_preempts_keyword :
  type (createCelestialObject "port_station" (withType "Moon"))
  = ObjectType.Moon
  /\ classifyByKeyword "port_station" (withType "Moon") = ObjectType.Station.
Proof. split; reflexivity. Qed.

(** Without a payload type the specification's wording holds. *)
Lemma classification_without_payload_type (id : string) (data : Raw.payload) :
  Raw.type data = None ->
  type (createCelestialObject id data) = classifyByKeyword id data.
Proof.
  intros H. cbn [createCelestialObject type].
  rewrite determineType_by_steps.
  unfold classifyBySteps, classifyByKeyword.
  replace (find (fires id data) steps)
    with (find (fun s => includes (toLowerCase id) (keyword s)) steps);
    [reflexivity|].
  induction steps as [|s l IH]; [reflexivity|].
  cbn [find]. unfold fires at 1. unfold Raw.type_is.
  rewrite H, andb_false_r, orb_false_r.
  destruct (includes _ _); [reflexivity | exact IH].
Qed.

(** ** Safety score *)

Section AlertScoreFacts.
Import AlertScore.
Local Open Scope Q_scope.

Lemma clamp_range (r : Q) : 0 <= Qmax 0 (Qmin 100 r) /\ Qmax 0 (Qmin 100 r) <= 100.
Proof.
  split.
  - apply Q.le_max_l.
  - apply Q.max_lub; [Lqa.lra | apply Q.le_min_l].
Qed.

Lemma clamp_mono (r s : Q) : r <= s -> Qmax 0 (Qmin 100 r) <= Qmax 0 (Qmin 100 s).
Proof.
  intros H. apply Q.max_le_compat_l. apply Q.min_le_compat_l. exact H.
Qed.

Lemma ratio_mono (a a' b : Q) :
  0 <= a -> a <= a' -> 0 <= b -> 0 < a + b -> a / (a + b) <= a' / (a' + b).
Proof.
  intros Ha Haa Hb Ht.
  assert (Ht' : 0 < a' + b) by Lqa.lra.
  apply Qle_shift_div_l; [exact Ht'|].
  unfold Qdiv. rewrite <- Qmult_assoc, (Qmult_comm (/ (a + b))), Qmult_assoc.
  apply Qle_shift_div_r; [exact Ht|]. Lqa.nra.
Qed.

Lemma votes_nonneg (n : nat) : 0 <= inject_Z (Z.of_nat n).
Proof. rewrite <- (Zle_Qle 0). apply Nat2Z.is_nonneg. Qed.

Lemma votes_pos (c d : nat) :
  (0 < c + d)%nat -> 0 < inject_Z (Z.of_nat c) + inject_Z (Z.of_nat d).
Proof.
  intros H. rewrite <- inject_Z_plus, <- Nat2Z.inj_add.
  rewrite <- (Zlt_Qlt 0). lia.
Qed.

Lemma votes_nonzero (c d : nat) :
  (0 < c + d)%nat ->
  Qeq_bool (inject_Z (Z.of_nat c) + inject_Z (Z.of_nat d)) 0 = false.
Proof.
  intros H. destruct (Qeq_bool _ 0) eqn:E; [|reflexivity].
  apply Qeq_bool_iff in E. pose proof (votes_pos c d H). Lqa.lra.
Qed.

(** C10: under the default weights the score of no votes is 50, and for
    all counts the score never rises with one more confirmation and stays
    within [0, 100]. *)
Theorem safety_score_monotone_in_confirmations :
  score 0 0 == 50 /\
  forall c d : nat,
    score (S c) d <= score c d /\ 0 <= score c d /\ score c d <= 100.
Proof.
  split; [reflexivity|].
  intros c d. split.
  - destruct (Nat.eq_dec (c + d) 0) as [Hz|Hnz].
    + assert (c = 0%nat) by lia. assert (d = 0%nat) by lia. subst.
      vm_compute. discriminate.
    + unfold score, calculateSafetyScore.
      rewrite (votes_nonzero (S c) d) by lia.
      rewrite (votes_nonzero c d) by lia.
      cbv zeta. apply clamp_mono.
      assert (Hr := ratio_mono (inject_Z (Z.of_nat c)) (inject_Z (Z.of_nat (S c)))
                      (inject_Z (Z.of_nat d)) (votes_nonneg c)).
      assert (Hle : inject_Z (Z.of_nat c) <= inject_Z (Z.of_nat (S c))).
      { rewrite <- Zle_Qle. lia. }
      specialize (Hr Hle (votes_nonneg d) (votes_pos c d ltac:(lia))).
      unfold defaultConfirmationWeight, defaultDisputeWeight.
      set (r := inject_Z (Z.of_nat c) / _) in *.
      set (r' := inject_Z (Z.of_nat (S c)) / _) in *.
      Lqa.lra.
  - unfold score, calculateSafetyScore.
    destruct (Qeq_bool _ 0).
    + split; Lqa.lra.
    + cbv zeta. apply clamp_range.
Qed.

Example score_one_confirmation : score 1 0 == 30.
Proof. reflexivity. Qed.

Example score_ten_confirmations : score 10 0 < 50.
Proof. reflexivity. Qed.

Example score_disputes_only : score 0 5 == 100.
Proof. reflexivity. Qed.

End AlertScoreFacts.

(** ** The by-id map of a build *)

Section ByIdFacts.
Context {V : Type}.
Implicit Types (m : list (string * V)) (k : string) (v : V).

Lemma In_keys_set x k v m :
  In x (Assoc.keys (Assoc.set k v m)) <-> x = k \/ In x (Assoc.keys m).
Proof.
  unfold Assoc.keys. induction m as [|[k' v'] m IH]; cbn.
  - intuition congruence.
  - destruct (String.eqb_spec k k') as [->|Hne]; cbn.
    + intuition congruence.
    + rewrite IH. intuition congruence.
Qed.

Lemma NoDup_keys_set k v m :
  NoDup (Assoc.keys m) -> NoDup (Assoc.keys (Assoc.set k v m)).
Proof.
  unfold Assoc.keys. induction m as [|[k' v'] m IH]; cbn; intros H.
  - constructor; [tauto | constructor].
  - inversion H as [|? ? Hnotin Hnd]; subst.
    destruct (String.eqb_spec k k') as [->|Hne]; cbn.
    + now constructor.
    + constructor; [|now apply IH].
      intros Hin. apply (In_keys_set k' k v m) in Hin.
      destruct Hin as [->|Hin]; [now apply Hne | now apply Hnotin].
Qed.

Lemma get_Some_keys k m : Assoc.get k m <> None <-> In k (Assoc.keys m).
Proof.
  unfold Assoc.keys. induction m as [|[k' v'] m IH]; cbn; [tauto|].
  destruct (String.eqb_spec k k') as [->|Hne].
  - split; [now left | discriminate].
  - rewrite IH. intuition congruence.
Qed.

Lemma keys_get k m : In k (Assoc.keys m) -> exists v, Assoc.get k m = Some v.
Proof.
  intros H. apply get_Some_keys in H.
  destruct (Assoc.get k m) as [v|]; [eauto | congruence].
Qed.

End ByIdFacts.

Lemma putAll_NoDup sd m :
  NoDup (Assoc.keys m) -> NoDup (Assoc.keys (fold_left putObject sd m)).
Proof.
  revert m. induction sd as [|kv sd IH]; cbn [fold_left]; [tauto|].
  intros m H. apply IH. now apply NoDup_keys_set.
Qed.

Lemma putAll_keys sd m k :
  In k (Assoc.keys m) \/ In k (Assoc.keys sd) ->
  In k (Assoc.keys (fold_left putObject sd m)).
Proof.
  revert m. induction sd as [|[k' v'] sd IH]; cbn [fold_left];
    [intros m [H|[]]; exact H|].
  intros m H. apply IH.
  assert (Hk : In k (Assoc.keys (putObject m (k', v')))
               <-> k = k' \/ In k (Assoc.keys m)) by apply In_keys_set.
  cbn in H. rewrite Hk. intuition.
Qed.

Lemma putAll_origin sd m k o :
  In (k, o) (fold_left putObject sd m) ->
  In (k, o) m \/ exists data, In (k, data) sd /\ o = createCelestialObject k data.
Proof.
  revert m. induction sd as [|[k' v'] sd IH]; cbn [fold_left]; [tauto|].
  intros m H. destruct (IH _ H) as [H'|[data [Hd Ho]]].
  - apply In_set in H'. cbn [fst snd] in H'.
    destruct H' as [H'|[-> ->]]; [now left|].
    right. exists v'. split; [now left | reflexivity].
  - right. exists data. split; [now right | exact Ho].
Qed.

(** ** Parent chains of a build *)

Section Walk.
Variable recs : list (string * Raw.payload).
Variable root : string.
Variable depth : string -> nat.
Hypothesis parented :
  forall id data,
    In (id, data) recs -> id <> root ->
    exists p, Raw.parent data = Some p /\ p <> ""
              /\ Assoc.get p recs <> None /\ depth p < depth id.

(** The walk from [id] has [hops] steps left and has passed the distinct
    ids [visited], all deeper than [id]; once [visited] and [hops] together
    cover the map, the walk must have met the root. *)
Lemma walk_reaches_root hops :
  forall id visited,
    NoDup visited ->
    incl visited (Assoc.keys (fold_left putObject recs [])) ->
    (forall v, In v visited -> depth id < depth v) ->
    In id (Assoc.keys (fold_left putObject recs [])) ->
    List.length (fold_left putObject recs []) <= List.length visited + hops ->
    reachesRoot (fold_left putObject recs []) root hops id = true.
Proof.
  set (byId := fold_left putObject recs []).
  induction hops as [|hops IH]; intros id visited Hnd Hincl Hdeep Hin Hlen.
  - cbn [reachesRoot]. destruct (String.eqb_spec id root); [reflexivity|].
    exfalso.
    assert (Hnd' : NoDup (id :: visited)).
    { constructor; [|exact Hnd]. intros Hv. apply Hdeep in Hv. lia. }
    assert (Hincl' : incl (id :: visited) (Assoc.keys byId)).
    { intros v [<-|Hv]; [exact Hin | now apply Hincl]. }
    pose proof (NoDup_incl_length Hnd' Hincl') as Hle.
    unfold Assoc.keys in Hle. rewrite length_map in Hle. cbn in Hle. lia.
  - cbn [reachesRoot]. destruct (String.eqb_spec id root) as [|Hne];
      [reflexivity|].
    destruct (keys_get _ _ Hin) as [object Hget]. rewrite Hget.
    assert (Horigin := putAll_origin recs [] id object (get_In _ _ _ Hget)).
    destruct Horigin as [[]|[data [Hdata ->]]].
    destruct (parented id data Hdata Hne) as [p [Hp [Hpne [Hpget Hpd]]]].
    assert (Hparent : parent (createCelestialObject id data) = p).
    { cbn. rewrite Hp. cbn. destruct p; [congruence | reflexivity]. }
    rewrite Hparent. destruct p as [|c p']; [congruence|]. cbn [is_empty].
    apply (IH _ (id :: visited)).
    + constructor; [|exact Hnd]. intros Hv. apply Hdeep in Hv. lia.
    + intros v [<-|Hv]; [exact Hin | now apply Hincl].
    + intros v [<-|Hv]; [exact Hpd | apply Hdeep in Hv; lia].
    + apply putAll_keys. right. now apply get_Some_keys.
    + cbn. lia.
Qed.

End Walk.

(** C1, as amended: on every raw record map on which the build succeeds
    and whose record set after the inference pass is well parented below
    the detected root (each non-root record names an existing, strictly
    shallower record as parent, so no parent is empty, dangling or on a
    cycle), every non-root object of the by-id map reaches the root by
    following parent ids at most objectCount times. *)
Theorem well_parented_chains_reach_root
    (fuel : nat) (this : Service) (sd : list (string * Raw.payload))
    (sys : StarSystem) (built : Service) :
  loadFromObject fuel this sd = Ok (sys, built) ->
  wellParented (createInferredObjects sd) (name (star sys)) ->
  chainsReachRoot sys.
Proof.
  intros Hok [depth Hwp] id object Hget Hne.
  destruct (loadFromObject_Ok _ _ _ _ _ Hok) as [Hsys _].
  rewrite Hsys in *.
  apply (walk_reaches_root _ _ depth Hwp _ id []).
  - constructor.
  - intros v [].
  - intros v [].
  - apply get_Some_keys. congruence.
  - cbn. lia.
Qed.

(** C1, as stated, fails: the build succeeds on a star and two records
    that name each other as parent, and the chain of ["a"] never reaches
    the root. *)
Lemma loop_records_miss_root :
  exists sys built,
    loadFromObject 2 initial loopRecords = Ok (sys, built)
    /\ ~ chainsReachRoot sys.
Proof.
  eexists. eexists. split; [reflexivity|].
  intros H. specialize (H "a" _ eq_refl). cbn in H.
  assert (Hne : "a" <> "stantonstar") by discriminate.
  specialize (H Hne). discriminate H.
Qed.

(** The star, planet, moon records are well parented. *)
Lemma well_parented_chain_example :
  exists sys built,
    loadFromObject 3 initial chainRecords = Ok (sys, built)
    /\ wellParented (createInferredObjects chainRecords) (name (star sys))
    /\ chainsReachRoot sys.
Proof.
  eexists. eexists. split; [reflexivity|].
  match goal with |- ?W /\ _ => assert (Hwp : W) end.
  { exists (fun s => if String.eqb s "planet1" then 1
                     else if String.eqb s "moon1" then 2 else 0).
    intros id data Hin Hne. cbn in Hin, Hne.
    destruct Hin as [Hin|[Hin|[Hin|[]]]]; injection Hin as <- <-.
    - congruence.
    - exists "stantonstar". cbn. repeat split; solve [discriminate | lia].
    - exists "planet1". cbn. repeat split; solve [discriminate | lia]. }
  split; [exact Hwp|].
  exact (well_parented_chains_reach_root 3 initial chainRecords _ _ eq_refl Hwp).
Defined.

(** C2: on [{sun: {parent: "root"}, stanton1: {parent: "sun"}}] the build
    raises the missing-root error, whatever the fuel and the earlier state
    of the service.  The repair pass does clear the sentinel, but in the raw
    record: the object built from it in the first pass still carries
    ["root"], and root detection reads the objects. *)
Theorem sun_records_build_raises :
  (forall fuel this,
      loadFromObject fuel this sunRecords
      = Err "Star not found in the system data")
  /\ option_map Raw.parent
       (Assoc.get "sun"
          (fixParentChildRelationships (createInferredObjects sunRecords)))
     = Some (Some "")
  /\ option_map parent
       (Assoc.get "sun"
          (fold_left putObject (createInferredObjects sunRecords) []))
     = Some "root".
Proof. repeat split. Qed.

(** ** getAbsolutePosition *)

Lemma climb_sums_chain this parentId ancestors :
  Chain this parentId ancestors ->
  forall fuel position,
    List.length ancestors <= fuel ->
    climb fuel this position parentId
    = Ok (sumPositions position ancestors).
Proof.
  induction 1 as [|parentId Hnone|parentId object rest Hne Hget Hchain IH];
    intros fuel position Hfuel.
  - destruct fuel; reflexivity.
  - destruct fuel; cbn [climb]; rewrite Hnone;
      destruct (is_empty parentId); reflexivity.
  - destruct fuel as [|fuel]; [cbn in Hfuel; lia|].
    cbn [climb]. rewrite Hget.
    destruct parentId; [congruence|]. cbn [is_empty].
    rewrite IH by (cbn in Hfuel; lia). reflexivity.
Qed.

(** Conversely, a walk that returns has met a chain that ends: the chain
    is no more than the termination of the source loop. *)
Lemma climb_returns_chain this fuel :
  forall position parentId result,
    climb fuel this position parentId = Ok result ->
    exists ancestors,
      Chain this parentId ancestors
      /\ List.length ancestors <= fuel
      /\ result = sumPositions position ancestors.
Proof.
  induction fuel as [|fuel IH]; intros position parentId result Hclimb.
  - cbn [climb] in Hclimb. destruct parentId as [|c p].
    + injection Hclimb as <-. exists []. repeat split; constructor.
    + cbn [is_empty] in Hclimb.
      destruct (Assoc.get (String c p) (objectsById this)) eqn:Hget;
        [discriminate|].
      injection Hclimb as <-. exists []. repeat split;
        [now apply Chain_broken | constructor].
  - cbn [climb] in Hclimb. destruct parentId as [|c p].
    + injection Hclimb as <-. exists []. repeat split;
        [constructor | cbn; lia].
    + cbn [is_empty] in Hclimb.
      destruct (Assoc.get (String c p) (objectsById this)) as [object|]
        eqn:Hget.
      * destruct (IH _ _ _ Hclimb) as [rest [Hchain [Hlen ->]]].
        exists (object :: rest). repeat split.
        -- apply Chain_step; [discriminate | exact Hget | exact Hchain].
        -- cbn. lia.
      * injection Hclimb as <-. exists []. repeat split;
           [now apply Chain_broken | cbn; lia].
Qed.

(** C5, as amended: [getAbsolutePosition] answers not-found (null) for an
    absent id; for a present id whose walk up the parent ids ends -- at an
    object without parent, or early at a parent id that does not resolve
    -- it returns the componentwise sum of the object's position and the
    positions of the objects met, once the fuel covers the walk. *)
Theorem getAbsolutePosition_sums_parent_chain (this : Service) (id : string) :
  (Assoc.get id (objectsById this) = None ->
   forall fuel, getAbsolutePosition fuel this id = Ok None)
  /\ (forall object ancestors fuel,
         Assoc.get id (objectsById this) = Some object ->
         Chain this (parent object) ancestors ->
         List.length ancestors <= fuel ->
         getAbsolutePosition fuel this id
         = Ok (Some (sumPositions (position object) ancestors))).
Proof.
  split.
  - intros Hnone fuel. unfold getAbsolutePosition. now rewrite Hnone.
  - intros object ancestors fuel Hget Hchain Hfuel.
    unfold getAbsolutePosition. rewrite Hget.
    now rewrite (climb_sums_chain _ _ _ Hchain).
Qed.

(** root(0,0,0), planet(100,0,0), moon(0,10,0): the moon is at
    (100,10,0). *)
Lemma moon_absolute_position :
  exists object ancestors,
    Assoc.get "moon1" (objectsById (loaded 3 chainRecords)) = Some object
    /\ Chain (loaded 3 chainRecords) (parent object) ancestors
    /\ List.length ancestors <= 2
    /\ getAbsolutePosition 2 (loaded 3 chainRecords) "moon1"
       = Ok (Some {| x := of_Z 100; y := of_Z 10; z := zero |}).
Proof.
  eexists. eexists.
  assert (Hget : Assoc.get "moon1" (objectsById (loaded 3 chainRecords))
                 = Some (createCelestialObject "moon1"
                           (placed "planet1" zero (of_Z 10) zero)))
    by reflexivity.
  assert (Hchain : Chain (loaded 3 chainRecords) "planet1"
                     [createCelestialObject "planet1"
                        (placed "stantonstar" (of_Z 100) zero zero);
                      createCelestialObject "stantonstar"
                        (placed "" zero zero zero)]).
  { apply Chain_step; [discriminate | reflexivity|].
    apply Chain_step; [discriminate | reflexivity|].
    apply Chain_top. }
  split; [exact Hget|]. split; [exact Hchain|]. split; [apply le_n|].
  exact (proj2 (getAbsolutePosition_sums_parent_chain
                  (loaded 3 chainRecords) "moon1")
           _ _ 2 Hget Hchain (le_n 2)).
Defined.

Lemma Chain_functional this parentId l1 :
  Chain this parentId l1 -> forall l2, Chain this parentId l2 -> l1 = l2.
Proof.
  induction 1 as [|p Hnone|p object rest Hne Hget Hchain IH]; intros l2 H2.
  - inversion H2; subst; [reflexivity | reflexivity | congruence].
  - inversion H2; subst; [reflexivity | reflexivity | congruence].
  - inversion H2; subst; [congruence | congruence|].
    assert (object0 = object) by congruence. subst. f_equal. now apply IH.
Qed.

(** A parent id that names no record stops the walk at once: the object's
    own position is returned.  The repair pass has retargeted the raw
    record to the star, not the object. *)
Example stray_parent_partial_sum :
  getAbsolutePosition 1 (loaded 2 strayRecords) "relay"
  = Ok (Some {| x := of_Z 1; y := of_Z 2; z := of_Z 3 |})
  /\ option_map parent (Assoc.get "relay" (objectsById (loaded 2 strayRecords)))
     = Some "ghost"
  /\ option_map Raw.parent
       (Assoc.get "relay"
          (fixParentChildRelationships (createInferredObjects strayRecords)))
     = Some (Some "stantonstar").
Proof. repeat split. Qed.

(** On the two records that name each other the walk never ends. *)
Lemma climb_loop_diverges fuel :
  forall position,
    climb fuel (loaded 2 loopRecords) position "a" = OutOfFuel
    /\ climb fuel (loaded 2 loopRecords) position "b" = OutOfFuel.
Proof.
  induction fuel as [|fuel IH]; intros position; [split; reflexivity|].
  split.
  - change (climb fuel (loaded 2 loopRecords)
              (addPosition position origin) "b" = OutOfFuel).
    apply IH.
  - change (climb fuel (loaded 2 loopRecords)
              (addPosition position origin) "a" = OutOfFuel).
    apply IH.
Qed.

(** C5, as stated, fails: the star and the two records that name each
    other build, ["a"] is present in the built system, and
    [getAbsolutePosition] returns nothing for it, however long the walk is
    allowed to run. *)
Lemma cyclic_parents_never_answer :
  exists sys built,
    loadFromObject 2 initial loopRecords = Ok (sys, built)
    /\ Assoc.get "a" (objectsById built) <> None
    /\ forall fuel, getAbsolutePosition fuel built "a" = OutOfFuel.
Proof.
  eexists. eexists. split; [reflexivity|].
  split; [discriminate|].
  intros fuel. unfold getAbsolutePosition.
  match goal with
  | |- match Assoc.get "a" ?m with _ => _ end = _ =>
      replace (Assoc.get "a" m)
        with (Some (createCelestialObject "a" (withParent "b")))
        by reflexivity
  end.
  cbn [createCelestialObject parent position Raw.parent Raw.position
       withParent].
  match goal with
  | |- (_ <- climb fuel ?this ?p ?q ;; _) = _ =>
      change (climb fuel this p q)
        with (climb fuel (loaded 2 loopRecords) p "b")
  end.
  now rewrite (proj2 (climb_loop_diverges fuel _)).
Qed.

(** ** validateData *)
Section ValidatorFacts.
Import SystemDebugger.

Lemma push_all_flat_map (objects : list CelestialObject) (acc : list string) :
  fold_left (fun acc object => acc ++ checkPosition object) objects acc
  = acc ++ flat_map checkPosition objects.
Proof.
  revert acc. induction objects as [|o l IH]; intros acc; cbn.
  - now rewrite app_nil_r.
  - rewrite IH. now rewrite app_assoc.
Qed.

Lemma finite_not_NaN (p : Position) : allFinite p = true -> anyNaN p = false.
Proof.
  unfold allFinite, anyNaN.
  destruct (x p), (y p), (z p); cbn; congruence.
Qed.

(** C9, as amended: for every loaded system and every object in it,
    [validate] reports the invalid-position issue of that object whenever
    one of its three position components is NaN.  The issue list is the
    parent issues followed by one block per object, in order, and the
    block of an object without NaN component is empty: no position issue
    is reported when the three components are finite, nor when one is
    infinite. *)
Theorem validate_reports_NaN_positions
    (sys : StarSystem) (object : CelestialObject) :
  In object (Assoc.values (StarSystemTypes.objectsById sys)) ->
  (anyNaN (position object) = true ->
   In (invalidPosition object) (issues (validateData (Some sys))))
  /\ (exists parentIssues,
         issues (validateData (Some sys))
         = parentIssues
           ++ flat_map checkPosition
                (Assoc.values (StarSystemTypes.objectsById sys)))
  /\ (anyNaN (position object) = false -> checkPosition object = [])
  /\ (allFinite (position object) = true -> checkPosition object = []).
Proof.
  intros Hin.
  assert (Hsplit : exists parentIssues,
             issues (validateData (Some sys))
             = parentIssues
               ++ flat_map checkPosition
                    (Assoc.values (StarSystemTypes.objectsById sys))).
  { eexists. cbn [validateData issues]. apply push_all_flat_map. }
  assert (Hclean : anyNaN (position object) = false ->
                   checkPosition object = []).
  { unfold checkPosition, anyNaN. now intros ->. }
  repeat split.
  - intros Hnan. destruct Hsplit as [parentIssues ->].
    apply in_or_app. right. apply in_flat_map. exists object.
    split; [exact Hin|]. unfold checkPosition, anyNaN in *. rewrite Hnan.
    now left.
  - exact Hsplit.
  - exact Hclean.
  - intros Hfin. apply Hclean. now apply finite_not_NaN.
Qed.

(** A star with a NaN coordinate is reported. *)
Lemma validate_reports_NaN_example :
  exists sys built object,
    loadFromObject 1 initial nanRecords = Ok (sys, built)
    /\ In object (Assoc.values (StarSystemTypes.objectsById sys))
    /\ anyNaN (position object) = true
    /\ In (invalidPosition object) (issues (validateData (Some sys))).
Proof.
  eexists. eexists. eexists. split; [reflexivity|].
  match goal with |- ?A /\ _ => assert (Hin : A) by (left; reflexivity) end.
  split; [exact Hin|]. split; [reflexivity|].
  exact (proj1 (validate_reports_NaN_positions _ _ Hin) eq_refl).
Defined.

(** C9, as stated, fails: a position with an infinite component is not
    three finite numbers, yet the loaded system validates without any
    issue. *)
Lemma infinite_position_not_reported :
  exists sys built object,
    loadFromObject 1 initial farRecords = Ok (sys, built)
    /\ In object (Assoc.values (StarSystemTypes.objectsById sys))
    /\ allFinite (position object) = false
    /\ validateData (Some sys) = {| valid := true; issues := [] |}.
Proof.
  eexists. eexists. eexists. split; [reflexivity|].
  split; [left; reflexivity|]. split; reflexivity.
Qed.

End ValidatorFacts.

(** ** Route planner *)
Section PlannerFacts.
Import Stanton RoutePlanner PlannerSpec.
Local Open Scope R_scope.

Lemma calculateDistance_euclidean (p q : Position) :
  calculateDistance p q = euclidean p q.
Proof. unfold calculateDistance, euclidean. f_equal. ring. Qed.

Lemma findAlertsInRadius_hazardsNear (p : Position) (alerts : list RouteAlert) :
  findAlertsInRadius p alerts 1000000 = hazardsNear alerts p.
Proof.
  unfold findAlertsInRadius, hazardsNear. apply filter_ext.
  intros a. now rewrite calculateDistance_euclidean.
Qed.

Lemma running_sum {A : Type} (f : A -> R) (l : list A) (acc : R) :
  fold_left (fun sum a => sum + f a) l acc
  = acc + fold_right Rplus 0 (map f l).
Proof.
  revert acc. induction l as [|a l IH]; intros acc; cbn.
  - ring.
  - rewrite IH. ring.
Qed.

Lemma calculateWaypointSafety_waypointScore (hazards : list RouteAlert) :
  calculateWaypointSafety hazards = waypointScore hazards.
Proof.
  destruct hazards as [|a l]; [reflexivity|].
  unfold calculateWaypointSafety, waypointScore, mean.
  rewrite running_sum, length_map, Rplus_0_l.
  f_equal. f_equal. ring.
Qed.

Lemma planRoute_absent sd s e alerts ship :
  Assoc.get s sd = None \/ Assoc.get e sd = None ->
  planRoute sd s e alerts ship
  = Err "Start or end object not found in Stanton data".
Proof.
  unfold planRoute. intros [H|H]; rewrite H; [reflexivity|].
  destruct (Assoc.get s sd); reflexivity.
Qed.

Lemma planRoute_present sd s e alerts ship :
  Assoc.get s sd <> None -> Assoc.get e sd <> None ->
  exists plan, planRoute sd s e alerts ship = Ok plan.
Proof.
  unfold planRoute. intros Hs He.
  destruct (Assoc.get s sd); [|congruence].
  destruct (Assoc.get e sd); [|congruence]. eauto.
Qed.

Lemma planRoute_Ok_present sd s e alerts ship plan :
  planRoute sd s e alerts ship = Ok plan ->
  Assoc.get s sd <> None /\ Assoc.get e sd <> None.
Proof.
  unfold planRoute.
  destruct (Assoc.get s sd); [|discriminate].
  destruct (Assoc.get e sd); [|discriminate]. split; discriminate.
Qed.

(** C7, as amended: for every system that holds both endpoint ids,
    [planRoute] returns a plan of exactly three waypoints (start, geometric
    midpoint, end); the total distance is the Euclidean distance of the two
    stored positions; the total time is the distance divided by the ship's
    quantum speed when a ship with a non-zero speed is given, and by
    200,000 when no ship is given or the ship's speed is zero; the fuel is 0
    without ship; each waypoint carries the hazards within 1,000,000 units
    and the score 100 without hazard, else the hazard average times
    max(0, 1 - 0.1 * count); the overall score is the mean of the three. *)
Theorem planRoute_three_waypoints
    (sd : StantonSystem) (s e : string) (alerts : list RouteAlert)
    (ship : option ShipSpecification) (so eo : CelestialObject) :
  Assoc.get s sd = Some so ->
  Assoc.get e sd = Some eo ->
  exists plan w1 w2 w3,
    planRoute sd s e alerts ship = Ok plan
    /\ waypoints plan = [w1; w2; w3]
    /\ (objectId w1 = s /\ wp_position w1 = position so)
    /\ wp_position w2 = midpoint (position so) (position eo)
    /\ (objectId w3 = e /\ wp_position w3 = position eo)
    /\ totalDistance plan = euclidean (position so) (position eo)
    /\ (forall sh, ship = Some sh -> quantumSpeed sh <> 0 ->
        totalTime plan = totalDistance plan / quantumSpeed sh)
    /\ (forall sh, ship = Some sh -> quantumSpeed sh = 0 ->
        totalTime plan = totalDistance plan / 200000)
    /\ (ship = None ->
        totalTime plan = totalDistance plan / 200000
        /\ fuelRequired plan = 0)
    /\ Forall (annotated alerts) [w1; w2; w3]
    /\ overallSafetyScore plan
       = (wp_safetyScore w1 + wp_safetyScore w2 + wp_safetyScore w3) / 3.
Proof.
  intros Hs He. unfold planRoute. rewrite Hs, He.
  do 4 eexists. split; [reflexivity|]. cbn [waypoints totalDistance totalTime
    fuelRequired overallSafetyScore objectId wp_position wp_safetyScore].
  split; [reflexivity|]. split; [now split|]. split; [reflexivity|].
  split; [now split|]. split; [apply calculateDistance_euclidean|].
  split; [|split; [|split; [|split]]].
  - intros sh -> Hne. unfold effectiveSpeed.
    destruct (Req_dec_T (quantumSpeed sh) 0); [contradiction | reflexivity].
  - intros sh -> Hz. unfold effectiveSpeed.
    destruct (Req_dec_T (quantumSpeed sh) 0); [reflexivity | contradiction].
  - intros ->. split; reflexivity.
  - repeat constructor; cbn [nearbyAlerts wp_position wp_safetyScore];
      solve [apply findAlertsInRadius_hazardsNear
            | apply calculateWaypointSafety_waypointScore].
  - cbn [fold_left List.length]. replace (INR 3) with 3 by (simpl; lra).
    f_equal. ring.
Qed.

(** Two objects 1,000,000 units apart, no ship, no hazards: distance
    1,000,000, time 5, fuel 0, overall score 100, three waypoints. *)
Lemma planRoute_million_apart :
  Assoc.get "a" apart = Some (body "a" 0)
  /\ Assoc.get "b" apart = Some (body "b" 1000000)
  /\ exists plan,
       planRoute apart "a" "b" [] None = Ok plan
       /\ List.length (waypoints plan) = 3%nat
       /\ totalDistance plan = 1000000
       /\ totalTime plan = 5
       /\ fuelRequired plan = 0
       /\ overallSafetyScore plan = 100.
Proof.
  split; [reflexivity|]. split; [reflexivity|].
  destruct (planRoute_three_waypoints apart "a" "b" [] None
              (body "a" 0) (body "b" 1000000) eq_refl eq_refl)
    as [plan [w1 [w2 [w3 [Hplan [Hw [_ [_ [_ [Hd [_ [_ [Hnone [Ha Ho]]]]]]]]]]]]]].
  destruct (Hnone eq_refl) as [Ht Hf].
  assert (Hdist : totalDistance plan = 1000000).
  { rewrite Hd. unfold euclidean. cbn.
    replace ((1000000 - 0) * ((1000000 - 0) * 1) + (0 - 0) * ((0 - 0) * 1)
             + (0 - 0) * ((0 - 0) * 1)) with (1000000 ^ 2) by ring.
    apply sqrt_pow2. lra. }
  exists plan. split; [exact Hplan|]. split; [now rewrite Hw|].
  split; [exact Hdist|]. split; [rewrite Ht, Hdist; lra|].
  split; [exact Hf|].
  rewrite Ho.
  inversion Ha as [|? ? [Hn1 Hs1] Ha2]; subst.
  inversion Ha2 as [|? ? [Hn2 Hs2] Ha3]; subst.
  inversion Ha3 as [|? ? [Hn3 Hs3] _]; subst.
  rewrite Hs1, Hs2, Hs3, Hn1, Hn2, Hn3. cbn. lra.
Defined.

(** C7, as stated, fails: with a ship whose quantum speed is zero the time
    is the distance divided by 200,000, which is not the distance divided
    by the ship's speed. *)
Lemma stalled_ship_uses_default_speed :
  exists plan,
    planRoute apart "a" "b" [] (Some stalledShip) = Ok plan
    /\ totalDistance plan = 1000000
    /\ totalTime plan = 5
    /\ statedSpeed (Some stalledShip) = 0
    /\ totalTime plan <> totalDistance plan / statedSpeed (Some stalledShip).
Proof.
  destruct (planRoute_present apart "a" "b" [] (Some stalledShip))
    as [plan Hplan]; [discriminate | discriminate|].
  exists plan. split; [exact Hplan|].
  unfold planRoute in Hplan. cbn in Hplan. injection Hplan as <-.
  cbn [totalTime totalDistance statedSpeed quantumSpeed stalledShip].
  unfold effectiveSpeed. cbn [quantumSpeed stalledShip].
  destruct (Req_dec_T 0 0) as [_|Hne]; [|congruence].
  assert (Hdist : calculateDistance {| x := 0; y := 0; z := 0 |}
                    {| x := 1000000; y := 0; z := 0 |} = 1000000).
  { rewrite calculateDistance_euclidean. unfold euclidean. cbn.
    replace ((1000000 - 0) * ((1000000 - 0) * 1) + (0 - 0) * ((0 - 0) * 1)
             + (0 - 0) * ((0 - 0) * 1)) with (1000000 ^ 2) by ring.
    apply sqrt_pow2. lra. }
  rewrite Hdist. unfold DEFAULT_QUANTUM_SPEED.
  split; [reflexivity|]. split; [lra|]. split; [reflexivity|].
  replace (1000000 / 0) with 0 by (unfold Rdiv; rewrite Rinv_0; ring).
  lra.
Qed.

End PlannerFacts.

Section AlternativesFacts.
Import Stanton RoutePlanner PlannerSpec.
Local Open Scope R_scope.

Lemma insertBySafety_perm r l : Permutation (insertBySafety r l) (r :: l).
Proof.
  induction l as [|h t IH]; cbn; [reflexivity|].
  destruct (Rlt_dec _ _); [|reflexivity].
  rewrite IH. apply perm_swap.
Qed.

Lemma sortBySafety_perm l : Permutation (sortBySafety l) l.
Proof.
  induction l as [|r t IH]; cbn; [reflexivity|].
  rewrite insertBySafety_perm. now constructor.
Qed.

Lemma insertBySafety_sorted r l :
  safestFirst l -> safestFirst (insertBySafety r l).
Proof.
  unfold safestFirst. induction 1 as [|h t Hs IH Hall]; cbn.
  - constructor; constructor.
  - destruct (Rlt_dec (overallSafetyScore r) (overallSafetyScore h)) as [Hlt|Hge].
    + constructor; [exact IH|].
      apply (Permutation_Forall (Permutation_sym (insertBySafety_perm r t))).
      constructor; [lra | exact Hall].
    + constructor; [now constructor|].
      constructor; [lra|].
      eapply Forall_impl; [|exact Hall]. cbn. intros a Ha. lra.
Qed.

Lemma sortBySafety_sorted l : safestFirst (sortBySafety l).
Proof.
  induction l as [|r t IH]; cbn; [constructor|].
  now apply insertBySafety_sorted.
Qed.

Lemma explore_returns sd s e alerts maxAlternatives direct :
  Assoc.get s sd <> None -> Assoc.get e sd <> None ->
  forall candidates acc,
    (forall c, In c candidates -> Assoc.get (name c) sd <> None) ->
    (List.length acc <= maxAlternatives)%nat ->
    Forall (fun r => overallSafetyScore r > overallSafetyScore direct + 5) acc ->
    exists alternatives,
      explore sd s e alerts maxAlternatives direct candidates acc
      = Ok alternatives
      /\ (List.length alternatives <= maxAlternatives)%nat
      /\ Forall (fun r => overallSafetyScore r > overallSafetyScore direct + 5)
           alternatives.
Proof.
  intros Hs He. induction candidates as [|c rest IH]; intros acc Hc Hlen Hall.
  - exists acc. cbn. auto.
  - cbn [explore]. destruct (Nat.leb_spec maxAlternatives (List.length acc)).
    + exists acc. auto.
    + assert (Hcin : Assoc.get (name c) sd <> None) by (apply Hc; now left).
      destruct (planRoute_present sd s (name c) alerts None Hs Hcin)
        as [r1 ->].
      destruct (planRoute_present sd (name c) e alerts None Hcin He)
        as [r2 ->].
      cbn [bind].
      assert (Hrest : forall c', In c' rest -> Assoc.get (name c') sd <> None)
        by (intros c' Hc'; apply Hc; now right).
      destruct (Rgt_dec _ _) as [Hgt|_].
      * apply IH; [exact Hrest | rewrite length_app; cbn; lia|].
        apply Forall_app. split; [exact Hall|]. constructor; [exact Hgt|].
        constructor.
      * now apply IH.
Qed.

Lemma keyedByName_namesResolve sd : keyedByName sd -> namesResolve sd.
Proof.
  intros Hkeyed obj Hin.
  unfold Assoc.values in Hin. apply in_map_iff in Hin.
  destruct Hin as [[k o] [Ho Hin]]. cbn in Ho. subst o.
  rewrite (Hkeyed _ _ Hin).
  destruct (In_get _ _ _ Hin) as [v Hv]. congruence.
Qed.

Lemma candidates_are_keys sd s e c :
  namesResolve sd ->
  In c (filter (notEndpoint s e) (filter isViaPoint (Assoc.values sd))) ->
  Assoc.get (name c) sd <> None.
Proof.
  intros Hnames Hin.
  apply filter_In in Hin. destruct Hin as [Hin _].
  apply filter_In in Hin. destruct Hin as [Hin _].
  now apply Hnames.
Qed.

(** C8, as amended: on every system in which the name of each object is an
    id of the system (as it is when objects are stored under their own id)
    and on which [planRoute] succeeds, [findAlternatives] returns a non-empty sequence that
    contains the direct route, is sorted by descending overall safety
    score, is the direct route alone when its score is at least 90, and
    otherwise holds, beside the direct route, at most [maxAlternatives]
    routes, each safer than the direct route by more than 5 points. *)
Theorem findAlternativeRoutes_safest_first
    (sd : StantonSystem) (s e : string) (alerts : list RouteAlert)
    (maxAlternatives : nat) (direct : RoutePlan) :
  namesResolve sd ->
  planRoute sd s e alerts None = Ok direct ->
  exists routes,
    findAlternativeRoutes sd s e alerts maxAlternatives = Ok routes
    /\ routes <> []
    /\ In direct routes
    /\ safestFirst routes
    /\ (overallSafetyScore direct >= 90 -> routes = [direct])
    /\ exists alternatives,
         Permutation routes (direct :: alternatives)
         /\ (List.length alternatives <= maxAlternatives)%nat
         /\ Forall (fun r => overallSafetyScore r
                             > overallSafetyScore direct + 5) alternatives.
Proof.
  intros Hkeyed Hdirect.
  destruct (planRoute_Ok_present _ _ _ _ _ _ Hdirect) as [Hs He].
  unfold findAlternativeRoutes. rewrite Hdirect. cbn [bind].
  destruct (Rge_dec (overallSafetyScore direct) 90) as [Hsafe|Hunsafe].
  - exists [direct]. split; [reflexivity|]. split; [discriminate|].
    split; [now left|]. split; [repeat constructor|]. split; [reflexivity|].
    exists []. split; [reflexivity|]. split; [cbn; lia | constructor].
  - destruct (explore_returns sd s e alerts maxAlternatives direct Hs He
                (filter (notEndpoint s e) (filter isViaPoint (Assoc.values sd)))
                [])
      as [alternatives [-> [Hlen Hall]]].
    + intros c Hc. now apply (candidates_are_keys sd s e).
    + cbn. lia.
    + constructor.
    + cbn [bind].
      assert (Hperm := sortBySafety_perm (direct :: alternatives)).
      eexists. split; [reflexivity|].
      split.
      { intros Hnil. rewrite Hnil in Hperm.
        apply Permutation_nil in Hperm. discriminate. }
      split.
      { apply (Permutation_in _ (Permutation_sym Hperm)). now left. }
      split; [apply sortBySafety_sorted|].
      split; [intros Hsafe; contradiction|].
      exists alternatives. auto.
Qed.

End AlternativesFacts.

(** ** Alternatives past a hazard *)
Section HazardSample.
Import Stanton RoutePlanner PlannerSpec PlannerDerived.
Local Open Scope R_scope.

Lemma axis_distance (p q : Position) :
  y p = y q -> z p = z q -> calculateDistance p q = Rabs (x q - x p).
Proof.
  intros Hy Hz. unfold calculateDistance. cbv zeta. rewrite Hy, Hz.
  replace ((x q - x p) * (x q - x p) + (y q - y q) * (y q - y q)
           + (z q - z q) * (z q - z q)) with (Rsqr (x q - x p))
    by (unfold Rsqr; ring).
  apply sqrt_Rsqr_abs.
Qed.

Lemma midHazard_near (p : Position) :
  y p = 0 -> z p = 0 -> -500000 <= x p <= 1500000 ->
  findAlertsInRadius p midHazard 1000000 = midHazard.
Proof.
  intros Hy Hz Hx. unfold findAlertsInRadius, midHazard. cbn [filter].
  rewrite axis_distance by (cbn; lra).
  cbn [hazardAt location loc_position x]. unfold leb.
  destruct (Rle_dec (Rabs (500000 - x p)) 1000000) as [_|Hn]; [reflexivity|].
  exfalso. apply Hn. unfold Rabs. destruct (Rcase_abs _); lra.
Qed.

Lemma midHazard_far (p : Position) :
  y p = 0 -> z p = 0 -> 1500000 < x p ->
  findAlertsInRadius p midHazard 1000000 = [].
Proof.
  intros Hy Hz Hx. unfold findAlertsInRadius, midHazard. cbn [filter].
  rewrite axis_distance by (cbn; lra).
  cbn [hazardAt location loc_position x]. unfold leb.
  destruct (Rle_dec (Rabs (500000 - x p)) 1000000) as [Hle|_]; [|reflexivity].
  exfalso. unfold Rabs in Hle. destruct (Rcase_abs _); lra.
Qed.

Lemma midHazard_waypoint : calculateWaypointSafety midHazard = 0.
Proof.
  unfold calculateWaypointSafety, midHazard. cbn [fold_left List.length].
  cbn [hazardAt safetyScore]. simpl INR. unfold Rdiv. ring.
Qed.

(** The plan between two bodies on the axis, past the hazard. *)
Lemma planRoute_past_hazard sd s e xs xe (ws wm we : R) :
  Assoc.get s sd = Some (body s xs) ->
  Assoc.get e sd = Some (body e xe) ->
  calculateWaypointSafety
    (findAlertsInRadius {| x := xs; y := 0; z := 0 |} midHazard 1000000) = ws ->
  calculateWaypointSafety
    (findAlertsInRadius
       {| x := (xs + xe) / 2; y := (0 + 0) / 2; z := (0 + 0) / 2 |}
       midHazard 1000000) = wm ->
  calculateWaypointSafety
    (findAlertsInRadius {| x := xe; y := 0; z := 0 |} midHazard 1000000) = we ->
  exists plan,
    planRoute sd s e midHazard None = Ok plan
    /\ overallSafetyScore plan = (ws + wm + we) / 3.
Proof.
  intros Hs He Hws Hwm Hwe. unfold planRoute. rewrite Hs, He. cbv zeta.
  eexists. split; [reflexivity|].
  cbn [overallSafetyScore fold_left List.length wp_safetyScore body position
       x y z].
  rewrite Hws, Hwm, Hwe. simpl INR. lra.
Qed.

Lemma near_score (p : Position) :
  y p = 0 -> z p = 0 -> -500000 <= x p <= 1500000 ->
  calculateWaypointSafety (findAlertsInRadius p midHazard 1000000) = 0.
Proof.
  intros Hy Hz Hx. rewrite midHazard_near by assumption.
  apply midHazard_waypoint.
Qed.

Lemma far_score (p : Position) :
  y p = 0 -> z p = 0 -> 1500000 < x p ->
  calculateWaypointSafety (findAlertsInRadius p midHazard 1000000) = 100.
Proof.
  intros Hy Hz Hx. rewrite midHazard_far by assumption. reflexivity.
Qed.

(** Past the hazard every waypoint of the direct route scores 0. *)
Lemma direct_past_hazard sd :
  Assoc.get "a" sd = Some (body "a" 0) ->
  Assoc.get "b" sd = Some (body "b" 1000000) ->
  exists direct,
    planRoute sd "a" "b" midHazard None = Ok direct
    /\ overallSafetyScore direct = 0.
Proof.
  intros Ha Hb.
  destruct (planRoute_past_hazard sd "a" "b" 0 1000000 0 0 0 Ha Hb)
    as [direct [Hplan Hscore]];
    try (apply near_score; cbn; lra).
  exists direct. split; [exact Hplan | rewrite Hscore; lra].
Qed.

Lemma farBody_namesResolve : namesResolve farBody.
Proof.
  apply keyedByName_namesResolve.
  intros k obj [H|[H|[H|[]]]]; injection H as <- <-; reflexivity.
Qed.

(** Through the far body: one detour, safer than the direct route. *)
Lemma farBody_alternatives :
  exists direct detour,
    planRoute farBody "a" "b" midHazard None = Ok direct
    /\ overallSafetyScore direct = 0
    /\ findAlternativeRoutes farBody "a" "b" midHazard 3
       = Ok [detour; direct]
    /\ overallSafetyScore detour = 200 / 3
    /\ map objectId (waypoints detour)
       = ["a"; "midpoint"; "c"; "midpoint"; "b"].
Proof.
  destruct (direct_past_hazard farBody eq_refl eq_refl)
    as [direct [Hdirect Hscore]].
  destruct (planRoute_past_hazard farBody "a" "c" 0 10000000 0 100 100
              eq_refl eq_refl) as [toC [HtoC HscoreTo]];
    [apply near_score; cbn; lra | apply far_score; cbn; lra
     | apply far_score; cbn; lra|].
  destruct (planRoute_past_hazard farBody "c" "b" 10000000 1000000 100 100 0
              eq_refl eq_refl) as [fromC [HfromC HscoreFrom]];
    [apply far_score; cbn; lra | apply far_score; cbn; lra
     | apply near_score; cbn; lra|].
  exists direct, (combine "a" "b" toC fromC).
  split; [exact Hdirect|]. split; [exact Hscore|].
  assert (Hcomb : overallSafetyScore (combine "a" "b" toC fromC) = 200 / 3).
  { cbn [overallSafetyScore combine]. rewrite HscoreTo, HscoreFrom. lra. }
  split; [|split; [exact Hcomb|]].
  - unfold findAlternativeRoutes. rewrite Hdirect. cbn [bind].
    destruct (Rge_dec (overallSafetyScore direct) 90) as [Hge|_]; [lra|].
    replace (filter (notEndpoint "a" "b")
               (filter isViaPoint (Assoc.values farBody)))
      with [body "c" 10000000] by reflexivity.
    cbn [explore List.length Nat.leb name body].
    rewrite HtoC, HfromC. cbn [bind].
    destruct (Rgt_dec (overallSafetyScore (combine "a" "b" toC fromC))
                (overallSafetyScore direct + 5)) as [_|Hn]; [|lra].
    cbn [app explore bind sortBySafety insertBySafety].
    destruct (Rlt_dec (overallSafetyScore direct)
                (overallSafetyScore (combine "a" "b" toC fromC)))
      as [_|Hn]; [reflexivity | lra].
  - revert HtoC HfromC. unfold planRoute. cbn.
    intros [= <-] [= <-]. reflexivity.
Qed.

(** The hazard lowers the direct route to 0; the detour through the far
    body is returned first. *)
Lemma find_alternatives_past_hazard :
  namesResolve farBody
  /\ exists direct detour,
       planRoute farBody "a" "b" midHazard None = Ok direct
       /\ overallSafetyScore direct = 0
       /\ findAlternativeRoutes farBody "a" "b" midHazard 3
          = Ok [detour; direct]
       /\ overallSafetyScore detour = 200 / 3
       /\ safestFirst [detour; direct].
Proof.
  split; [exact farBody_namesResolve|].
  destruct farBody_alternatives
    as [direct [detour [Hdirect [Hscore [Hfind [Hdetour _]]]]]].
  exists direct, detour.
  split; [exact Hdirect|]. split; [exact Hscore|].
  split; [exact Hfind|]. split; [exact Hdetour|].
  destruct (findAlternativeRoutes_safest_first farBody "a" "b" midHazard 3
              direct farBody_namesResolve Hdirect)
    as [routes [Hroutes [_ [_ [Hsorted _]]]]].
  rewrite Hfind in Hroutes. injection Hroutes as <-. exact Hsorted.
Defined.

(** C8, as stated, fails: with a stored object whose name is not an id of
    the system [planRoute] succeeds on the two endpoints, yet
    [findAlternatives] raises, because it plans through the name of that
    object. *)
Lemma misnamed_object_breaks_alternatives :
  exists direct,
    planRoute misnamed "a" "b" midHazard None = Ok direct
    /\ findAlternativeRoutes misnamed "a" "b" midHazard 3
       = Err "Start or end object not found in Stanton data".
Proof.
  destruct (direct_past_hazard misnamed eq_refl eq_refl)
    as [direct [Hdirect Hscore]].
  exists direct. split; [exact Hdirect|].
  unfold findAlternativeRoutes. rewrite Hdirect. cbn [bind].
  destruct (Rge_dec (overallSafetyScore direct) 90) as [Hge|_]; [lra|].
  replace (filter (notEndpoint "a" "b")
             (filter isViaPoint (Assoc.values misnamed)))
    with [body "zzz" 10000000] by reflexivity.
  cbn [explore List.length Nat.leb name body].
  rewrite (planRoute_absent misnamed "a" "zzz" midHazard None)
    by (right; reflexivity).
  reflexivity.
Qed.

End HazardSample.

(** ** Absent ids *)
Section AbsentIds.
Import RoutePlanner.

(** C6, as amended: for an id that is in neither the built system nor the
    planner's system, [getById] answers the not-found value (undefined),
    [getAbsolutePosition] answers the not-found value (null), and
    [planRoute] and [findAlternatives] raise when the id is either
    endpoint; [getOrbitPath], however, answers the empty sequence. *)
Theorem absent_id_answers
    (this : Service) (stantonData : Stanton.StantonSystem) (id : string) :
  Assoc.get id (objectsById this) = None ->
  Assoc.get id stantonData = None ->
  getObjectById this id = None
  /\ (forall fuel, getAbsolutePosition fuel this id = Ok None)
  /\ (forall other alerts ship,
         planRoute stantonData id other alerts ship
         = Err "Start or end object not found in Stanton data"
         /\ planRoute stantonData other id alerts ship
            = Err "Start or end object not found in Stanton data")
  /\ (forall other alerts maxAlternatives,
         findAlternativeRoutes stantonData id other alerts maxAlternatives
         = Err "Start or end object not found in Stanton data"
         /\ findAlternativeRoutes stantonData other id alerts maxAlternatives
            = Err "Start or end object not found in Stanton data")
  /\ (forall generateOrbitPath steps,
         getOrbitPath generateOrbitPath this id steps = []).
Proof.
  intros Hobj Hraw. split; [exact Hobj|]. split.
  { intros fuel. unfold getAbsolutePosition. now rewrite Hobj. }
  split.
  { intros other alerts ship. split; apply planRoute_absent; auto. }
  split.
  { intros other alerts maxAlternatives. unfold findAlternativeRoutes.
    split; rewrite planRoute_absent by auto; reflexivity. }
  intros generateOrbitPath steps. unfold getOrbitPath. now rewrite Hobj.
Qed.

(** An id that no record carries. *)
Lemma absent_id_answers_example :
  Assoc.get "ghost" (objectsById (loaded 3 chainRecords)) = None
  /\ Assoc.get "ghost" PlannerSpec.apart = None
  /\ getObjectById (loaded 3 chainRecords) "ghost" = None
  /\ getAbsolutePosition 5 (loaded 3 chainRecords) "ghost" = Ok None
  /\ planRoute PlannerSpec.apart "ghost" "b" [] None
     = Err "Start or end object not found in Stanton data".
Proof.
  split; [reflexivity|]. split; [reflexivity|].
  destruct (absent_id_answers (loaded 3 chainRecords) PlannerSpec.apart
              "ghost" eq_refl eq_refl) as [H1 [H2 [H3 _]]].
  split; [exact H1|]. split; [apply H2|]. apply (H3 "b" [] None).
Defined.

(** C6, as stated, fails: [getOrbitPath] does not signal an absent id, it
    returns the empty sequence. *)
Lemma getOrbitPath_absent_is_empty :
  ~ (forall (generateOrbitPath : CelestialObject -> nat -> list Position)
            (this : Service) (id : string) (steps : nat),
        Assoc.get id (objectsById this) = None ->
        getOrbitPath generateOrbitPath this id steps <> []).
Proof.
  intros H.
  apply (H (fun _ _ => []) (loaded 3 chainRecords) "ghost" 100 eq_refl).
  reflexivity.
Qed.

End AbsentIds.

(** * Further properties of the code *)

Import Derived.

(** ** The inference pass only appends *)

Lemma set_absent {V : Type} (k : string) (v : V) (m : list (string * V)) :
  Assoc.get k m = None -> Assoc.set k v m = m ++ [(k, v)].
Proof.
  induction m as [|[k' v'] m IH]; cbn; [reflexivity|].
  destruct (String.eqb k k'); [discriminate|].
  intros H. now rewrite IH.
Qed.

Lemma get_app_none {V : Type} (k : string) (m1 m2 : list (string * V)) :
  Assoc.get k (m1 ++ m2) = None <->
  Assoc.get k m1 = None /\ Assoc.get k m2 = None.
Proof.
  induction m1 as [|[k' v'] m1 IH]; cbn; [tauto|].
  destruct (String.eqb k k'); [|exact IH].
  split; [discriminate | intros [H _]; discriminate H].
Qed.

Lemma get_none_keys {V : Type} (k : string) (m : list (string * V)) :
  Assoc.get k m = None <-> ~ In k (Assoc.keys m).
Proof.
  rewrite <- get_Some_keys. destruct (Assoc.get k m); split; try congruence.
  intros H. exfalso. apply H. discriminate.
Qed.

Lemma addAll_appends (inferred sd : list (string * Raw.payload)) :
  NoDup (Assoc.keys inferred) ->
  Forall (fun kv => Assoc.get (fst kv) sd = None) inferred ->
  addAll inferred sd = sd ++ inferred.
Proof.
  unfold addAll. revert sd.
  induction inferred as [|[k v] l IH]; intros sd Hnd Habs; cbn [fold_left].
  - now rewrite app_nil_r.
  - cbn in Hnd. inversion Hnd as [|? ? Hk Hnd']; subst.
    inversion Habs as [|? ? Hkabs Habs']; subst. cbn [fst snd] in *.
    rewrite set_absent by exact Hkabs.
    rewrite IH; [now rewrite <- app_assoc | exact Hnd'|].
    rewrite Forall_forall in *. intros [k2 v2] Hin. cbn [fst].
    apply get_app_none. split; [now apply (Habs' (k2, v2))|].
    cbn. destruct (String.eqb_spec k2 k) as [->|]; [|reflexivity].
    exfalso. apply Hk. change k with (fst (k, v2)).
    unfold Assoc.keys. now apply in_map.
Qed.

Lemma inferOne_inferredFor sd inferred p :
  In p (referencedParents sd) ->
  Forall (inferredFor sd) inferred ->
  Forall (inferredFor sd) (inferOne sd inferred p).
Proof.
  intros Hp H. unfold inferOne.
  destruct (Assoc.has p sd) eqn:Hhas; [exact H|].
  destruct (match_lagrange p) as [[pn ln]|] eqn:E; [|exact H].
  rewrite Forall_forall in *. intros [k v] Hin.
  apply In_set in Hin. destruct Hin as [Hin|[-> ->]]; [now apply H|].
  split; [exists pn, ln; now split|].
  split; [now apply has_false_get | exact Hp].
Qed.

Lemma inferredObjects_inferredFor sd : Forall (inferredFor sd) (inferredObjects sd).
Proof.
  unfold inferredObjects.
  assert (Hall : forall l acc,
             incl l (referencedParents sd) ->
             Forall (inferredFor sd) acc ->
             Forall (inferredFor sd) (fold_left (inferOne sd) l acc)).
  { induction l as [|p l IH]; intros acc Hincl Hacc; cbn; [exact Hacc|].
    apply IH; [intros q Hq; apply Hincl; now right|].
    apply inferOne_inferredFor; [apply Hincl; now left | exact Hacc]. }
  apply Hall; [apply incl_refl | constructor].
Qed.

Lemma inferredObjects_NoDup sd : NoDup (Assoc.keys (inferredObjects sd)).
Proof.
  unfold inferredObjects. generalize (referencedParents sd).
  assert (H : NoDup (Assoc.keys (@nil (string * Raw.payload)))) by constructor.
  revert H. generalize (@nil (string * Raw.payload)).
  intros acc H l. revert acc H. induction l as [|p l IH]; intros acc H; cbn;
    [exact H|].
  apply IH. unfold inferOne. destruct (Assoc.has p sd); [exact H|].
  destruct (match_lagrange p) as [[pn ln]|]; [|exact H].
  now apply NoDup_keys_set.
Qed.

(** X1: the inference pass never changes, drops or reorders a given
    record: its result is the given list followed by the inferred entries,
    which have distinct ids, each one a placeholder under an id that no
    given record has and that some given record names as parent. *)
Theorem inference_only_appends (sd : list (string * Raw.payload)) :
  createInferredObjects sd = sd ++ inferredObjects sd
  /\ NoDup (Assoc.keys (inferredObjects sd))
  /\ Forall (inferredFor sd) (inferredObjects sd).
Proof.
  split; [|split].
  - unfold createInferredObjects. apply addAll_appends.
    + apply inferredObjects_NoDup.
    + eapply Forall_impl; [|apply inferredObjects_inferredFor].
      intros kv [_ [H _]]. exact H.
  - apply inferredObjects_NoDup.
  - apply inferredObjects_inferredFor.
Qed.

(** ** The three indices of a build *)

Lemma putAll_fresh (sd : list (string * Raw.payload))
    (m : list (string * CelestialObject)) :
  NoDup (Assoc.keys sd) ->
  Forall (fun kv => Assoc.get (fst kv) m = None) sd ->
  fold_left putObject sd m = m ++ map objectOf sd.
Proof.
  revert m. induction sd as [|[k v] sd IH]; intros m Hnd Habs; cbn [fold_left].
  - cbn. now rewrite app_nil_r.
  - cbn in Hnd. inversion Hnd as [|? ? Hk Hnd']; subst.
    inversion Habs as [|? ? Hkabs Habs']; subst. cbn [fst] in Hkabs.
    unfold putObject at 2. cbn [fst snd].
    rewrite set_absent by exact Hkabs.
    rewrite IH; [cbn; now rewrite <- app_assoc | exact Hnd'|].
    rewrite Forall_forall in *. intros [k2 v2] Hin. cbn [fst].
    apply get_app_none. split; [now apply (Habs' (k2, v2))|].
    cbn. destruct (String.eqb_spec k2 k) as [->|]; [|reflexivity].
    exfalso. apply Hk. change k with (fst (k, v2)).
    unfold Assoc.keys. now apply in_map.
Qed.

Lemma inferred_keys_NoDup sd :
  NoDup (Assoc.keys sd) -> NoDup (Assoc.keys (createInferredObjects sd)).
Proof.
  intros Hnd. unfold createInferredObjects.
  rewrite addAll_appends.
  - unfold Assoc.keys. rewrite map_app. apply NoDup_app; [exact Hnd | |].
    + apply inferredObjects_NoDup.
    + intros k Hk1 Hk2. apply in_map_iff in Hk2.
      destruct Hk2 as [[k' v'] [Hfst Hin]]. cbn in Hfst. subst k'.
      pose proof (inferredObjects_inferredFor sd) as Hall.
      rewrite Forall_forall in Hall. destruct (Hall _ Hin) as [_ [Habs _]].
      cbn in Habs. apply get_none_keys in Habs. now apply Habs.
  - apply inferredObjects_NoDup.
  - eapply Forall_impl; [|apply inferredObjects_inferredFor].
    intros kv [_ [H _]]. exact H.
Qed.

Lemma bucket_push k k' o idx :
  bucket k (index_push k' o idx)
  = if String.eqb k k' then bucket k idx ++ [o] else bucket k idx.
Proof.
  unfold bucket, index_push.
  destruct (String.eqb_spec k k') as [->|Hne].
  - rewrite get_set_same. destruct (Assoc.get k' idx); reflexivity.
  - now rewrite get_set_other.
Qed.

Lemma indexAll_byType sd this t :
  bucket t (objectsByType (indexAll this sd))
  = bucket t (objectsByType this)
    ++ filter (fun o => String.eqb (type o) t) (map snd (map objectOf sd)).
Proof.
  unfold indexAll. revert this.
  induction sd as [|kv sd IH]; intros this; cbn [fold_left map filter].
  - now rewrite app_nil_r.
  - rewrite IH. cbn [objectsByType indexOne]. rewrite bucket_push.
    cbn [objectOf snd]. rewrite (String.eqb_sym t).
    destruct (String.eqb _ t); [now rewrite <- app_assoc | reflexivity].
Qed.

Lemma indexAll_byParent sd this p :
  bucket p (objectsByParent (indexAll this sd))
  = bucket p (objectsByParent this)
    ++ filter (fun o => String.eqb (parent o) p) (map snd (map objectOf sd)).
Proof.
  unfold indexAll. revert this.
  induction sd as [|kv sd IH]; intros this; cbn [fold_left map filter].
  - now rewrite app_nil_r.
  - rewrite IH. cbn [objectsByParent indexOne]. rewrite bucket_push.
    cbn [objectOf snd]. rewrite (String.eqb_sym p).
    destruct (String.eqb _ p); [now rewrite <- app_assoc | reflexivity].
Qed.

(** The parts of a successful build, read off [processSystemData]. *)
Lemma loadFromObject_parts fuel this sd sys built :
  loadFromObject fuel this sd = Ok (sys, built) ->
  exists indexed,
    indexed = indexAll
                {| systemData := Some (createInferredObjects sd);
                   starSystem := starSystem this;
                   objectsById := []; objectsByType := [];
                   objectsByParent := [] |}
                (createInferredObjects sd)
    /\ findStar indexed = Some (star sys)
    /\ StarSystemTypes.objectsById sys = objectsById indexed
    /\ StarSystemTypes.objectsByType sys = objectsByType indexed
    /\ objectsById built = objectsById indexed
    /\ objectsByType built = objectsByType indexed
    /\ objectsByParent built = objectsByParent indexed
    /\ starSystem built = Some sys
    /\ systemData built
       = Some (fixParentChildRelationships (createInferredObjects sd))
    /\ buildHierarchy fuel built = Ok tt.
Proof.
  unfold loadFromObject, processSystemData. cbn [systemData starSystem].
  intros H. eexists. split; [reflexivity|].
  destruct (findStar _) as [s|] eqn:Hstar; [|discriminate].
  destruct (buildHierarchy _ _) as [[]| |] eqn:Hb; cbn [bind] in H;
    try discriminate.
  injection H as <- <-. cbn. repeat split; auto.
Qed.

(** X2: on a record set with distinct ids, the by-id map of a successful
    build has exactly the ids of the record set after inference, in the
    same order, and under each id the object constructed from that record:
    stored under its own name, with the record's parent string. *)
Theorem byId_mirrors_records
    (fuel : nat) (this : Service) (sd : list (string * Raw.payload))
    (sys : StarSystem) (built : Service) :
  NoDup (Assoc.keys sd) ->
  loadFromObject fuel this sd = Ok (sys, built) ->
  objectsById built = map objectOf (createInferredObjects sd)
  /\ StarSystemTypes.objectsById sys = objectsById built
  /\ Forall (fun kv => name (snd kv) = fst kv) (objectsById built).
Proof.
  intros Hnd Hok.
  destruct (loadFromObject_Ok _ _ _ _ _ Hok) as [Hsys [Hbuilt _]].
  assert (Hmap : objectsById built = map objectOf (createInferredObjects sd)).
  { rewrite Hbuilt, Hsys.
    rewrite putAll_fresh; [reflexivity | now apply inferred_keys_NoDup|].
    apply Forall_forall. reflexivity. }
  split; [exact Hmap|]. split; [now rewrite Hbuilt|].
  rewrite Hmap. apply Forall_forall. intros kv Hin.
  apply in_map_iff in Hin. destruct Hin as [kv' [<- _]]. reflexivity.
Qed.

(** X3: on a record set with distinct ids, the two derived indices of a
    successful build are the by-id objects grouped without loss:
    [getObjectsByType t] is the objects of type [t] and
    [getChildrenOfObject p] the objects whose parent string is [p], both
    in by-id order. *)
Theorem indices_partition_objects
    (fuel : nat) (this : Service) (sd : list (string * Raw.payload))
    (sys : StarSystem) (built : Service) :
  NoDup (Assoc.keys sd) ->
  loadFromObject fuel this sd = Ok (sys, built) ->
  (forall t,
      getObjectsByType built t
      = filter (fun o => String.eqb (type o) t)
          (Assoc.values (objectsById built)))
  /\ (forall p,
         getChildrenOfObject built p
         = filter (fun o => String.eqb (parent o) p)
             (Assoc.values (objectsById built))).
Proof.
  intros Hnd Hok.
  destruct (loadFromObject_parts _ _ _ _ _ Hok)
    as [indexed [Hidx [_ [_ [_ [Hid [Hty [Hpa _]]]]]]]].
  assert (Hvals : Assoc.values (objectsById built)
                  = map snd (map objectOf (createInferredObjects sd))).
  { rewrite Hid, Hidx, indexAll_objectsById. cbn [objectsById].
    rewrite putAll_fresh; [reflexivity | now apply inferred_keys_NoDup|].
    apply Forall_forall. reflexivity. }
  split.
  - intros t. unfold getObjectsByType. rewrite Hty, Hvals, Hidx.
    exact (indexAll_byType _ _ t).
  - intros p. unfold getChildrenOfObject. rewrite Hpa, Hvals, Hidx.
    exact (indexAll_byParent _ _ p).
Qed.

Lemma chainRecords_distinct : NoDup (Assoc.keys chainRecords).
Proof.
  repeat constructor; cbn; intuition discriminate.
Qed.

(** The star, planet, moon records: three objects under their own ids. *)
Lemma byId_mirrors_records_example :
  NoDup (Assoc.keys chainRecords)
  /\ exists sys built,
       loadFromObject 3 initial chainRecords = Ok (sys, built)
       /\ objectsById built = map objectOf (createInferredObjects chainRecords)
       /\ StarSystemTypes.objectsById sys = objectsById built
       /\ Forall (fun kv => name (snd kv) = fst kv) (objectsById built).
Proof.
  split; [exact chainRecords_distinct|].
  eexists. eexists. split; [reflexivity|].
  exact (byId_mirrors_records 3 initial chainRecords _ _
           chainRecords_distinct eq_refl).
Defined.

(** The star, planet, moon records: the planet is the star's only child. *)
Lemma indices_partition_objects_example :
  NoDup (Assoc.keys chainRecords)
  /\ exists sys built,
       loadFromObject 3 initial chainRecords = Ok (sys, built)
       /\ getChildrenOfObject built "stantonstar"
          = filter (fun o => String.eqb (parent o) "stantonstar")
              (Assoc.values (objectsById built))
       /\ map name (getChildrenOfObject built "stantonstar") = ["planet1"].
Proof.
  split; [exact chainRecords_distinct|].
  eexists. eexists. split; [reflexivity|].
  split; [|reflexivity].
  exact (proj2 (indices_partition_objects 3 initial chainRecords _ _
                  chainRecords_distinct eq_refl) "stantonstar").
Defined.

(** ** getStatistics *)

Lemma index_push_NoDup k o idx :
  NoDup (Assoc.keys idx) -> NoDup (Assoc.keys (index_push k o idx)).
Proof. apply NoDup_keys_set. Qed.

Lemma indexAll_byType_NoDup sd this :
  NoDup (Assoc.keys (objectsByType this)) ->
  NoDup (Assoc.keys (objectsByType (indexAll this sd))).
Proof.
  unfold indexAll. revert this. induction sd as [|kv sd IH]; intros this H;
    cbn [fold_left]; [exact H|].
  apply IH. cbn [objectsByType indexOne]. now apply index_push_NoDup.
Qed.

(** The number of objects held by an index. *)
Lemma index_push_size k o (idx : list (string * list CelestialObject)) :
  totalCount (map (fun kv => (fst kv, List.length (snd kv)))
                (index_push k o idx))
  = S (totalCount (map (fun kv => (fst kv, List.length (snd kv))) idx)).
Proof.
  unfold index_push, totalCount.
  induction idx as [|[k' l'] idx IH]; cbn.
  - reflexivity.
  - destruct (String.eqb k k') eqn:E; cbn.
    + rewrite length_app. cbn. lia.
    + cbn in IH. rewrite IH. lia.
Qed.

Lemma indexAll_byType_size sd this :
  totalCount (map (fun kv => (fst kv, List.length (snd kv)))
                (objectsByType (indexAll this sd)))
  = totalCount (map (fun kv => (fst kv, List.length (snd kv)))
                  (objectsByType this))
    + List.length sd.
Proof.
  unfold indexAll. revert this. induction sd as [|kv sd IH]; intros this;
    cbn [fold_left List.length]; [lia|].
  rewrite IH. cbn [objectsByType indexOne]. rewrite index_push_size.
  cbn [List.length]. unfold ObjectType in *. lia.
Qed.

Lemma insert_index_perm {V : Type} n k (v : V) (o : list (string * V)) :
  Permutation (PlainObject.insert_index n k v o) ((k, v) :: o).
Proof.
  induction o as [|[k' v'] o IH]; cbn [PlainObject.insert_index];
    [reflexivity|].
  destruct (PlainObject.array_index k') as [n'|]; [|reflexivity].
  destruct (n' <? n)%N; [|reflexivity].
  rewrite IH. apply perm_swap.
Qed.

Lemma plain_set_fresh {V : Type} k (v : V) (o : list (string * V)) :
  k <> "__proto__" -> Assoc.get k o = None ->
  Permutation (PlainObject.set k v o) ((k, v) :: o).
Proof.
  intros Hk Hnone. unfold PlainObject.set, Assoc.has.
  apply String.eqb_neq in Hk. rewrite Hk, Hnone.
  destruct (PlainObject.array_index k) as [n|].
  - apply insert_index_perm.
  - symmetry. apply Permutation_cons_append.
Qed.

Lemma get_none_perm {V : Type} k (l l' : list (string * V)) :
  Permutation l l' -> Assoc.get k l = None -> Assoc.get k l' = None.
Proof.
  intros Hperm. rewrite !get_none_keys. intros Hn Hin. apply Hn.
  unfold Assoc.keys in *.
  apply (Permutation_in _ (Permutation_sym (Permutation_map fst Hperm))).
  exact Hin.
Qed.

Lemma NoDup_In_get {V : Type} k (v : V) (m : list (string * V)) :
  NoDup (Assoc.keys m) -> In (k, v) m -> Assoc.get k m = Some v.
Proof.
  unfold Assoc.keys. induction m as [|[k' v'] m IH]; cbn; [tauto|].
  intros Hnd [[= -> ->]|Hin].
  - now rewrite String.eqb_refl.
  - inversion Hnd as [|? ? Hfresh Hnd']; subst.
    destruct (String.eqb_spec k k') as [->|_]; [|now apply IH].
    exfalso. apply Hfresh. apply in_map_iff. now exists (k', v).
Qed.

Lemma totalCount_perm (l l' : list (string * nat)) :
  Permutation l l' -> totalCount l = totalCount l'.
Proof.
  unfold totalCount. induction 1; cbn; lia.
Qed.

(** The own entries of [typeStats]: one per key of the by-type map other
    than ["__proto__"], with the size of its bucket. *)
Lemma countByType_perm (idx : list (string * list CelestialObject)) :
  NoDup (Assoc.keys idx) ->
  Permutation (countByType idx)
    (filter (fun kv => negb (String.eqb (fst kv) "__proto__"))
       (map (fun kv => (fst kv, List.length (snd kv))) idx)).
Proof.
  unfold countByType.
  assert (Hgen : forall (l : list (string * list CelestialObject))
                        (o : list (string * nat)),
             NoDup (Assoc.keys l) ->
             (forall a, In a l -> Assoc.get (fst a) o = None) ->
             Permutation
               (fold_left
                  (fun stats kv =>
                     PlainObject.set (fst kv) (List.length (snd kv)) stats)
                  l o)
               (o ++ filter (fun kv => negb (String.eqb (fst kv) "__proto__"))
                       (map (fun kv => (fst kv, List.length (snd kv))) l))).
  { induction l as [|[k objs] l IH]; intros o Hnd Hfresh;
      cbn [fold_left map filter fst snd].
    - now rewrite app_nil_r.
    - unfold Assoc.keys in Hnd. cbn [map fst] in Hnd.
      inversion Hnd as [|? ? Hk Hnd']; subst.
      destruct (String.eqb_spec k "__proto__") as [->|Hne]; cbn [negb].
      + change (PlainObject.set "__proto__" (List.length objs) o) with o.
        apply IH; [exact Hnd'|]. intros a Ha. apply Hfresh. now right.
      + assert (Hset := plain_set_fresh k (List.length objs) o Hne
                          (Hfresh (k, objs) (or_introl eq_refl))).
        rewrite IH; [|exact Hnd'|].
        * rewrite Hset. cbn [app]. apply Permutation_middle.
        * intros a Ha.
          apply (get_none_perm _ _ _ (Permutation_sym Hset)).
          cbn [Assoc.get].
          destruct (String.eqb_spec (fst a) k) as [E|_];
            [|apply Hfresh; now right].
          exfalso. apply Hk. rewrite <- E. now apply in_map. }
  intros Hnd. apply (Hgen idx [] Hnd). reflexivity.
Qed.

Lemma unnamed_filter (idx : list (string * list CelestialObject)) :
  ~ In "__proto__" (Assoc.keys idx) ->
  filter (fun kv => negb (String.eqb (fst kv) "__proto__"))
    (map (fun kv => (fst kv, List.length (snd kv))) idx)
  = map (fun kv => (fst kv, List.length (snd kv))) idx
  /\ bucket "__proto__" idx = [].
Proof.
  intros Hn. split.
  - induction idx as [|[k l] idx IH]; cbn [map filter fst snd];
      [reflexivity|].
    destruct (String.eqb_spec k "__proto__") as [->|_]; cbn [negb].
    + exfalso. apply Hn. now left.
    + rewrite IH; [reflexivity|]. intros H. apply Hn. now right.
  - unfold bucket. apply get_none_keys in Hn. now rewrite Hn.
Qed.

Lemma totalCount_named (idx : list (string * list CelestialObject)) :
  NoDup (Assoc.keys idx) ->
  totalCount
    (filter (fun kv => negb (String.eqb (fst kv) "__proto__"))
       (map (fun kv => (fst kv, List.length (snd kv))) idx))
  + List.length (bucket "__proto__" idx)
  = totalCount (map (fun kv => (fst kv, List.length (snd kv))) idx).
Proof.
  induction idx as [|[k l] idx IH]; intros Hnd; [reflexivity|].
  unfold Assoc.keys in Hnd. cbn [map fst] in Hnd.
  inversion Hnd as [|? ? Hk Hnd']; subst.
  cbn [map filter fst snd].
  destruct (String.eqb_spec k "__proto__") as [->|Hne]; cbn [negb].
  - destruct (unnamed_filter idx Hk) as [-> _].
    unfold bucket. cbn [Assoc.get]. rewrite String.eqb_refl.
    unfold totalCount. cbn. lia.
  - specialize (IH Hnd'). unfold bucket in *. cbn [Assoc.get].
    apply not_eq_sym in Hne. apply String.eqb_neq in Hne. rewrite Hne.
    unfold totalCount in *. cbn. cbn in IH. lia.
Qed.

Lemma listed_count t n (idx : list (string * list CelestialObject)) :
  NoDup (Assoc.keys idx) ->
  Assoc.get t (countByType idx) = Some n ->
  t <> "__proto__" /\ n = List.length (bucket t idx).
Proof.
  intros Hnd Hget. apply get_In in Hget.
  apply (Permutation_in _ (countByType_perm idx Hnd)) in Hget.
  apply filter_In in Hget. destruct Hget as [Hin Hnamed].
  cbn [fst] in Hnamed. apply negb_true_iff, String.eqb_neq in Hnamed.
  split; [exact Hnamed|].
  apply in_map_iff in Hin. destruct Hin as [[k l] [[= -> <-] Hin]].
  unfold bucket. now rewrite (NoDup_In_get _ _ _ Hnd Hin).
Qed.

(** X4: after a successful build on a record set with distinct ids,
    [getStatistics] reports as object count the number of records after
    inference.  Its per-type counts are kept in a plain object, in which
    the type name "__proto__" leaves no entry: the listed counts add up to
    the object count less the number of objects of that type, so to the
    object count when no object has it.  Each listed count is the size of
    what [getObjectsByType] returns for that type. *)
Theorem statistics_add_up
    (fuel : nat) (this : Service) (sd : list (string * Raw.payload))
    (sys : StarSystem) (built : Service) :
  NoDup (Assoc.keys sd) ->
  loadFromObject fuel this sd = Ok (sys, built) ->
  exists typeStats parentCount,
    getStatistics built
    = Loaded (List.length (createInferredObjects sd)) typeStats parentCount
    /\ totalCount typeStats
       + List.length (getObjectsByType built "__proto__")
       = List.length (createInferredObjects sd)
    /\ (forall t n,
           Assoc.get t typeStats = Some n ->
           t <> "__proto__" /\ n = List.length (getObjectsByType built t)).
Proof.
  intros Hnd Hok.
  destruct (loadFromObject_parts _ _ _ _ _ Hok)
    as [indexed [Hidx [_ [_ [_ [Hid [Hty [_ [Hsys _]]]]]]]]].
  assert (Hkeys : NoDup (Assoc.keys (objectsByType built))).
  { rewrite Hty, Hidx. apply indexAll_byType_NoDup. constructor. }
  assert (Hlen : List.length (objectsById built)
                 = List.length (createInferredObjects sd)).
  { rewrite Hid, Hidx, indexAll_objectsById. cbn [objectsById].
    rewrite putAll_fresh; [cbn; apply length_map
                          | now apply inferred_keys_NoDup|].
    apply Forall_forall. reflexivity. }
  unfold getStatistics. rewrite Hsys, Hlen.
  eexists. eexists. split; [reflexivity|]. split.
  - rewrite (totalCount_perm _ _ (countByType_perm _ Hkeys)).
    change (getObjectsByType built "__proto__")
      with (bucket "__proto__" (objectsByType built)).
    rewrite (totalCount_named _ Hkeys).
    rewrite Hty, Hidx, indexAll_byType_size. reflexivity.
  - intros t n Hget. exact (listed_count t n _ Hkeys Hget).
Qed.

(** The star, planet, moon records: three objects, three counted. *)
Lemma statistics_add_up_example :
  NoDup (Assoc.keys chainRecords)
  /\ exists sys built,
       loadFromObject 3 initial chainRecords = Ok (sys, built)
       /\ exists typeStats parentCount,
            getStatistics built = Loaded 3 typeStats parentCount
            /\ totalCount typeStats = 3.
Proof.
  split; [exact chainRecords_distinct|].
  eexists. eexists. split; [reflexivity|].
  destruct (statistics_add_up 3 initial chainRecords _ _
              chainRecords_distinct eq_refl) as [ts [pc [H1 [H2 _]]]].
  exists ts, pc. split; [exact H1|].
  assert (E1 : List.length (createInferredObjects chainRecords) = 3)
    by reflexivity.
  match type of H2 with
  | _ + ?a = _ => assert (E2 : a = 0) by reflexivity
  end.
  rewrite E1, E2 in H2. lia.
Defined.

(** A record whose payload type is "__proto__" is counted as an object
    but under no type; a type that is an array index is listed first. *)
Example proto_type_not_counted :
  getStatistics
    (loaded 1 [("stantonstar", Raw.empty); ("x", withType "__proto__")])
  = Loaded 2 [("Star", 1)] 1
  /\ getStatistics
       (loaded 1 [("stantonstar", Raw.empty); ("x", withType "7")])
     = Loaded 2 [("7", 1); ("Star", 1)] 1.
Proof. split; reflexivity. Qed.

(** ** The repair pass *)

Lemma find_in {A : Type} (f : A -> bool) (l : list A) (a : A) :
  find f l = Some a -> In a l /\ f a = true.
Proof. apply find_some. Qed.








(** ** What a build can answer *)

Lemma forEach_never_raises {A : Type} (body : A -> result unit) (l : list A) :
  (forall a msg, body a <> Err msg) -> forall msg, forEach body l <> Err msg.
Proof.
  intros Hbody msg. induction l as [|a l IH]; cbn; [discriminate|].
  destruct (body a) as [[]|m|] eqn:E; cbn; [exact IH | | discriminate].
  exfalso. now apply (Hbody a m).
Qed.

Lemma processChildren_never_raises fuel this :
  forall parentId position msg,
    processChildren fuel this parentId position <> Err msg.
Proof.
  induction fuel as [|fuel IH]; intros parentId position msg; cbn;
    [discriminate|].
  apply forEach_never_raises. intros child m. apply IH.
Qed.

Lemma forEach_all {A : Type} (body : A -> result unit) (l : list A) :
  forEach body l = Ok tt <-> forall a, In a l -> body a = Ok tt.
Proof.
  induction l as [|a l IH]; cbn; [split; [intros _ ? [] | reflexivity]|].
  destruct (body a) as [[]|m|] eqn:E; cbn.
  - rewrite IH. split.
    + intros H b [<-|Hb]; [exact E | now apply H].
    + intros H b Hb. apply H. now right.
  - split; [discriminate|]. intros H. rewrite <- E. apply H. now left.
  - split; [discriminate|]. intros H. rewrite <- E. apply H. now left.
Qed.

Lemma find_none_iff {A : Type} (f : A -> bool) (l : list A) :
  find f l = None <-> existsb f l = false.
Proof.
  induction l as [|a l IH]; cbn; [tauto|].
  destruct (f a); cbn; [split; discriminate | exact IH].
Qed.

Lemma findStar_by_bucket this :
  findStar this
  = match hd_error (bucket ObjectType.Star (objectsByType this)) with
    | Some s => Some s
    | None =>
        match find (fun kv => includes (toLowerCase (fst kv)) "star")
                   (objectsById this) with
        | Some kv => Some (snd kv)
        | None =>
            find (fun object => is_empty (parent object))
                 (Assoc.values (objectsById this))
        end
    end.
Proof.
  unfold findStar, bucket.
  destruct (Assoc.get ObjectType.Star (objectsByType this)) as [[|s l]|];
    reflexivity.
Qed.

(** [findStar] on the indices the first pass builds from distinct ids:
    nothing is found exactly when no object is a root candidate. *)
Lemma findStar_none_iff sd this :
  NoDup (Assoc.keys sd) ->
  objectsById this = [] -> objectsByType this = [] ->
  (findStar (indexAll this sd) = None
   <-> existsb rootCandidate (map objectOf sd) = false).
Proof.
  intros Hnd Hid Hty.
  assert (HbyId : objectsById (indexAll this sd) = map objectOf sd).
  { rewrite indexAll_objectsById, Hid.
    rewrite putAll_fresh; [reflexivity | exact Hnd|].
    apply Forall_forall. reflexivity. }
  assert (Hstars : bucket ObjectType.Star (objectsByType (indexAll this sd))
                   = filter (fun o => String.eqb (type o) ObjectType.Star)
                       (map snd (map objectOf sd))).
  { rewrite indexAll_byType, Hty. reflexivity. }
  rewrite findStar_by_bucket, Hstars, HbyId. unfold Assoc.values.
  generalize (map objectOf sd). clear. intros l.
  induction l as [|[id o] l IH]; [cbn; tauto|].
  cbn [map filter snd fst find existsb].
  unfold rootCandidate at 1. cbn [fst snd].
  destruct (String.eqb (type o) ObjectType.Star) eqn:Et.
  { cbn. split; discriminate. }
  destruct (includes (toLowerCase id) "star") eqn:Ei.
  { cbn [orb]. destruct (hd_error _); split; discriminate. }
  destruct (is_empty (parent o)) eqn:Ep.
  { cbn [orb]. destruct (hd_error _); [split; discriminate|].
    destruct (find _ l); split; discriminate. }
  cbn [orb]. exact IH.
Qed.

(** X6: the only error a build raises is the missing-root error, and on a
    record set with distinct ids it raises it exactly when, after
    inference, no object is typed Star, no id contains "star" and no
    object has an empty parent string.  (A build that raises nothing may
    still fail to return: see the recursion of [buildHierarchy].) *)
Theorem build_raises_only_missing_root
    (fuel : nat) (this : Service) (sd : list (string * Raw.payload)) :
  (forall msg,
      loadFromObject fuel this sd = Err msg ->
      msg = "Star not found in the system data")
  /\ (NoDup (Assoc.keys sd) ->
      (loadFromObject fuel this sd = Err "Star not found in the system data"
       <-> existsb rootCandidate (map objectOf (createInferredObjects sd))
           = false)).
Proof.
  assert (Hshape :
            forall msg,
              loadFromObject fuel this sd = Err msg ->
              msg = "Star not found in the system data"
              /\ findStar
                   (indexAll
                      {| systemData := Some (createInferredObjects sd);
                         starSystem := starSystem this;
                         objectsById := []; objectsByType := [];
                         objectsByParent := [] |}
                      (createInferredObjects sd)) = None).
  { intros msg. unfold loadFromObject, processSystemData.
    cbn [systemData starSystem].
    destruct (findStar _) as [s|]; [|now intros [= <-]].
    unfold buildHierarchy. cbn [starSystem star].
    destruct (processChildren _ _ _ _) as [[]|m|] eqn:E; cbn [bind];
      try discriminate.
    exfalso. now apply (processChildren_never_raises _ _ _ _ _ E). }
  split; [intros msg H; exact (proj1 (Hshape _ H))|].
  intros Hnd.
  rewrite <- (findStar_none_iff (createInferredObjects sd)
                {| systemData := Some (createInferredObjects sd);
                   starSystem := starSystem this;
                   objectsById := []; objectsByType := [];
                   objectsByParent := [] |}
                (inferred_keys_NoDup _ Hnd) eq_refl eq_refl).
  split; [intros H; exact (proj2 (Hshape _ H))|].
  intros H. unfold loadFromObject, processSystemData.
  cbn [systemData starSystem]. now rewrite H.
Qed.

(** [{sun: {parent: "root"}, stanton1: {parent: "sun"}}] has no root
    candidate. *)
Lemma build_raises_only_missing_root_example :
  NoDup (Assoc.keys sunRecords)
  /\ existsb rootCandidate (map objectOf (createInferredObjects sunRecords))
     = false
  /\ loadFromObject 5 initial sunRecords
     = Err "Star not found in the system data".
Proof.
  assert (Hnd : NoDup (Assoc.keys sunRecords))
    by (repeat constructor; cbn; intuition discriminate).
  split; [exact Hnd|]. split; [reflexivity|].
  exact (proj2 (proj2 (build_raises_only_missing_root 5 initial sunRecords)
                  Hnd) eq_refl).
Defined.

(** ** When buildHierarchy returns *)

Lemma depth_below_bound depth recs id data :
  In (id, data) recs -> depth id < depthBound depth recs.
Proof.
  intros Hin. unfold depthBound.
  assert (H : depth id <= list_max (map (fun kv => depth (fst kv)) recs)).
  { assert (Hall := proj1 (list_max_le (map (fun kv => depth (fst kv)) recs) _)
                      (Nat.le_refl _)).
    rewrite Forall_forall in Hall. apply Hall.
    apply in_map_iff. exists (id, data). split; [reflexivity | exact Hin]. }
  lia.
Qed.

(** The children index of the first pass, on distinct ids: a child of [p]
    is the object of a record whose parent string is [p]. *)
Lemma indexed_child_record recs this p c :
  objectsByParent this = [] ->
  In c (getChildrenOfObject (indexAll this recs) p) ->
  exists data,
    In (name c, data) recs /\ or_str (Raw.parent data) "" = p.
Proof.
  intros Hempty Hin.
  change (getChildrenOfObject (indexAll this recs) p)
    with (bucket p (objectsByParent (indexAll this recs))) in Hin.
  rewrite indexAll_byParent, Hempty in Hin. cbn [bucket Assoc.get app] in Hin.
  apply filter_In in Hin. destruct Hin as [Hin Hp].
  apply in_map_iff in Hin. destruct Hin as [[id o] [<- Hin]].
  apply in_map_iff in Hin. destruct Hin as [[id' data] [[= <- <-] Hin]].
  exists data. cbn [snd fst objectOf] in *.
  apply String.eqb_eq in Hp. split; [exact Hin | exact Hp].
Qed.

Lemma processChildren_returns depth recs this :
  (forall id data,
      In (id, data) recs -> depth (or_str (Raw.parent data) "") < depth id) ->
  (forall p c,
      In c (getChildrenOfObject this p) ->
      exists data, In (name c, data) recs /\ or_str (Raw.parent data) "" = p) ->
  forall fuel p position,
    depth p < depthBound depth recs ->
    depthBound depth recs <= fuel + depth p ->
    processChildren fuel this p position = Ok tt.
Proof.
  intros Hrank Hchild.
  induction fuel as [|fuel IH]; intros p position Hlt Hle; [lia|].
  cbn [processChildren]. apply forEach_all. intros c Hc.
  destruct (Hchild _ _ Hc) as [data [Hin Hp]].
  specialize (Hrank _ _ Hin). rewrite Hp in Hrank.
  apply IH; [exact (depth_below_bound depth recs _ _ Hin) | lia].
Qed.

Lemma findStar_is_object sd this s :
  NoDup (Assoc.keys sd) ->
  objectsById this = [] -> objectsByType this = [] ->
  findStar (indexAll this sd) = Some s ->
  exists data, In (name s, data) sd.
Proof.
  intros Hnd Hid Hty.
  assert (HbyId : objectsById (indexAll this sd) = map objectOf sd).
  { rewrite indexAll_objectsById, Hid.
    rewrite putAll_fresh; [reflexivity | exact Hnd|].
    apply Forall_forall. reflexivity. }
  assert (Hstars : bucket ObjectType.Star (objectsByType (indexAll this sd))
                   = filter (fun o => String.eqb (type o) ObjectType.Star)
                       (map snd (map objectOf sd))).
  { rewrite indexAll_byType, Hty. reflexivity. }
  assert (Hobj : forall o, In o (map snd (map objectOf sd)) ->
                           exists data, In (name o, data) sd).
  { intros o Ho. apply in_map_iff in Ho. destruct Ho as [[id o'] [<- Ho]].
    apply in_map_iff in Ho. destruct Ho as [[id' data] [[= <- <-] Ho]].
    exists data. exact Ho. }
  rewrite findStar_by_bucket, Hstars, HbyId. unfold Assoc.values.
  destruct (filter _ _) as [|s0 l] eqn:Ef; cbn [hd_error].
  - destruct (find _ (map objectOf sd)) as [kv|] eqn:E1.
    + intros [= <-]. apply find_in in E1. destruct E1 as [E1 _].
      apply Hobj. apply in_map_iff. exists kv. split; [reflexivity|exact E1].
    + intros E2. apply find_in in E2. destruct E2 as [E2 _].
      apply Hobj. exact E2.
  - intros [= <-]. apply Hobj.
    assert (Hin : In s0 (s0 :: l)) by now left.
    rewrite <- Ef in Hin. apply filter_In in Hin. tauto.
Qed.

(** X7: the build returns on every record set with distinct ids whose
    records after inference have a root candidate and no parent cycle
    (every record is strictly deeper than its parent string): some amount
    of fuel, and every larger one, gives a system and the built service. *)
Theorem build_returns_on_ranked_records
    (this : Service) (sd : list (string * Raw.payload)) :
  NoDup (Assoc.keys sd) ->
  ranked (createInferredObjects sd) ->
  existsb rootCandidate (map objectOf (createInferredObjects sd)) = true ->
  exists n, forall fuel, n <= fuel ->
    exists sys built, loadFromObject fuel this sd = Ok (sys, built).
Proof.
  intros Hnd [depth Hrank] Hroot.
  set (recs := createInferredObjects sd) in *.
  set (cleared := {| systemData := Some recs; starSystem := starSystem this;
                     objectsById := []; objectsByType := [];
                     objectsByParent := [] |}).
  assert (Hnd' : NoDup (Assoc.keys recs)) by exact (inferred_keys_NoDup _ Hnd).
  destruct (findStar (indexAll cleared recs)) as [s|] eqn:Es.
  2:{ apply (findStar_none_iff recs cleared Hnd' eq_refl eq_refl) in Es.
      rewrite Es in Hroot. discriminate. }
  destruct (findStar_is_object recs cleared s Hnd' eq_refl eq_refl Es)
    as [sdata Hs].
  exists (depthBound depth recs). intros fuel Hfuel.
  unfold loadFromObject, processSystemData. cbn [systemData starSystem].
  fold recs. fold cleared. rewrite Es.
  unfold buildHierarchy. cbn [starSystem star].
  rewrite (processChildren_returns depth recs); cbn [bind].
  - eexists. eexists. reflexivity.
  - exact Hrank.
  - intros p c Hc. cbn [getChildrenOfObject objectsByParent] in Hc.
    apply (indexed_child_record recs cleared p c eq_refl). exact Hc.
  - exact (depth_below_bound depth recs _ _ Hs).
  - lia.
Qed.

(** The star, planet, moon records: depths 1, 2, 3 above the empty parent
    string. *)
Lemma build_returns_on_ranked_records_example :
  exists n, forall fuel, n <= fuel ->
    exists sys built, loadFromObject fuel initial chainRecords = Ok (sys, built).
Proof.
  apply (build_returns_on_ranked_records initial chainRecords).
  - exact chainRecords_distinct.
  - exists (fun id =>
              if String.eqb id "" then 0
              else if String.eqb id "stantonstar" then 1
              else if String.eqb id "planet1" then 2
              else 3).
    intros id data Hin. vm_compute in Hin.
    repeat (destruct Hin as [[= <- <-]|Hin]; [vm_compute; lia|]).
    destruct Hin.
  - reflexivity.
Defined.

(** ** What a returning build excludes *)

Lemma processChildren_fuel_child fuel this p position c :
  processChildren fuel this p position = Ok tt ->
  In c (getChildrenOfObject this p) ->
  exists fuel' position',
    fuel = S fuel' /\ processChildren fuel' this (name c) position' = Ok tt.
Proof.
  destruct fuel as [|fuel]; cbn [processChildren]; [discriminate|].
  intros H Hc. rewrite forEach_all in H.
  exists fuel. eexists. split; [reflexivity|]. exact (H c Hc).
Qed.

Lemma processChildren_fuel_reaches this p q :
  reaches this p q ->
  forall fuel position,
    processChildren fuel this p position = Ok tt ->
    exists fuel' position',
      fuel' < fuel /\ processChildren fuel' this q position' = Ok tt.
Proof.
  induction 1 as [p c Hc|p c q Hc _ IH]; intros fuel position H.
  - destruct (processChildren_fuel_child _ _ _ _ _ H Hc)
      as [fuel' [position' [-> H']]].
    exists fuel', position'. split; [lia | exact H'].
  - destruct (processChildren_fuel_child _ _ _ _ _ H Hc)
      as [fuel' [position' [-> H']]].
    destruct (IH _ _ H') as [fuel'' [position'' [Hlt H'']]].
    exists fuel'', position''. split; [lia | exact H''].
Qed.

Lemma processChildren_no_cycle this :
  forall fuel p position,
    processChildren fuel this p position = Ok tt -> ~ reaches this p p.
Proof.
  induction fuel as [fuel IH] using lt_wf_ind. intros p position H Hcycle.
  destruct (processChildren_fuel_reaches _ _ _ Hcycle _ _ H)
    as [fuel' [position' [Hlt H']]].
  exact (IH fuel' Hlt p position' H' Hcycle).
Qed.

(** X8: a build that returns has met no parent cycle: neither the root nor
    any object found below it through the children index is found below
    itself.  In particular the root of a built system never names itself
    as parent. *)
Theorem returning_build_has_no_cycle_below_root
    (fuel : nat) (this : Service) (sd : list (string * Raw.payload))
    (sys : StarSystem) (built : Service) :
  loadFromObject fuel this sd = Ok (sys, built) ->
  forall q,
    q = name (star sys) \/ reaches built (name (star sys)) q ->
    ~ reaches built q q.
Proof.
  intros Hload q Hq.
  destruct (loadFromObject_parts _ _ _ _ _ Hload)
    as [indexed [_ [_ [_ [_ [_ [_ [_ [Hsys [_ Hbuild]]]]]]]]]].
  unfold buildHierarchy in Hbuild. rewrite Hsys in Hbuild.
  destruct Hq as [->|Hq].
  - exact (processChildren_no_cycle _ _ _ _ Hbuild).
  - destruct (processChildren_fuel_reaches _ _ _ Hq _ _ Hbuild)
      as [fuel' [position' [_ H']]].
    exact (processChildren_no_cycle _ _ _ _ H').
Qed.

(** The star, planet, moon records: the star is not found below itself. *)
Lemma returning_build_has_no_cycle_below_root_example :
  exists sys built,
    loadFromObject 3 initial chainRecords = Ok (sys, built)
    /\ ~ reaches built (name (star sys)) (name (star sys)).
Proof.
  eexists. eexists. split; [reflexivity|].
  exact (returning_build_has_no_cycle_below_root 3 initial chainRecords
           _ _ eq_refl _ (or_introl eq_refl)).
Defined.

(** ** validateData without its ignore set *)

Section ValidatorLoop.
Import SystemDebugger.

Lemma mem_set_add_other x y (s : list string) :
  x <> y -> mem x (StarSystemService.set_add y s) = mem x s.
Proof.
  intros Hne. unfold StarSystemService.set_add, mem.
  destruct (existsb (String.eqb y) s); [reflexivity|].
  rewrite existsb_app. cbn.
  apply String.eqb_neq in Hne. rewrite Hne. now rewrite !orb_false_r.
Qed.

Lemma checkParent_stateless sys (l : list CelestialObject) :
  NoDup (map name l) ->
  forall acc ignored,
    (forall o, In o l -> mem (name o) ignored = rootIgnored sys o) ->
    fst (fold_left
           (checkParent (Assoc.keys (StarSystemTypes.objectsById sys)))
           l (acc, ignored))
    = acc ++ flat_map (parentIssue sys) l.
Proof.
  induction l as [|o l IH]; intros Hnd acc ignored Hinv.
  - cbn. now rewrite app_nil_r.
  - inversion Hnd as [|? ? Hfresh Hnd']; subst.
    assert (Ho : mem (name o) ignored = rootIgnored sys o)
      by (apply Hinv; now left).
    assert (Hrest : forall o', In o' l ->
                      mem (name o') ignored = rootIgnored sys o')
      by (intros o' Ho'; apply Hinv; now right).
    assert (Hadd : forall o', In o' l ->
              mem (name o') (StarSystemService.set_add (name o) ignored)
              = rootIgnored sys o').
    { intros o' Ho'. rewrite mem_set_add_other; [now apply Hrest|].
      intros Heq. apply Hfresh. rewrite <- Heq. now apply in_map. }
    cbn [fold_left flat_map]. unfold checkParent at 2, parentIssue at 1.
    destruct (String.eqb (type o) ObjectType.Star).
    { rewrite IH; [reflexivity | exact Hnd' | exact Hrest]. }
    destruct (is_empty (parent o)); cbn [negb].
    { rewrite Ho. destruct (rootIgnored sys o); cbn [negb].
      - rewrite IH; [reflexivity | exact Hnd' | exact Hrest].
      - rewrite IH; [now rewrite <- app_assoc | exact Hnd' | exact Hrest]. }
    destruct (mem (parent o) (Assoc.keys (StarSystemTypes.objectsById sys)));
      cbn [negb andb orb].
    { rewrite IH; [reflexivity | exact Hnd' | exact Hrest]. }
    destruct (test_lagrange (parent o)); cbn [orb].
    { rewrite IH; [reflexivity | exact Hnd' | exact Hadd]. }
    rewrite Ho. destruct (rootIgnored sys o); cbn [negb].
    + rewrite IH; [reflexivity | exact Hnd' | exact Hrest].
    + rewrite IH; [now rewrite <- app_assoc | exact Hnd' | exact Hrest].
Qed.

Lemma validate_issues sys :
  NoDup (map name (Assoc.values (StarSystemTypes.objectsById sys))) ->
  issues (validateData (Some sys))
  = flat_map (parentIssue sys) (Assoc.values (StarSystemTypes.objectsById sys))
    ++ flat_map checkPosition
         (Assoc.values (StarSystemTypes.objectsById sys)).
Proof.
  intros Hnd. cbn [validateData issues]. rewrite push_all_flat_map.
  rewrite (checkParent_stateless sys _ Hnd); [reflexivity|].
  intros o _. unfold rootIgnored, mem.
  destruct (String.eqb (parent (star sys)) "root"); cbn;
    [now rewrite orb_false_r | reflexivity].
Qed.

Lemma valid_iff_no_issue sys :
  valid (validateData (Some sys)) = true
  <-> issues (validateData (Some sys)) = [].
Proof.
  cbn [validateData valid issues].
  rewrite Nat.eqb_eq. apply length_zero_iff_nil.
Qed.

Lemma flat_map_nil {A B : Type} (f : A -> list B) (l : list A) :
  flat_map f l = [] <-> forall a, In a l -> f a = [].
Proof.
  induction l as [|a l IH]; cbn; [tauto|]. split.
  - intros H. apply app_eq_nil in H. destruct H as [Ha Hl].
    intros b [<-|Hb]; [exact Ha | now apply IH].
  - intros H. rewrite (H a (or_introl eq_refl)). cbn. apply IH.
    intros b Hb. apply H. now right.
Qed.

Lemma mem_In s l : mem s l = true <-> In s l.
Proof.
  unfold mem. rewrite existsb_exists. split.
  - intros [x [Hx Heq]]. apply String.eqb_eq in Heq. now subst.
  - intros H. exists s. split; [exact H | apply String.eqb_refl].
Qed.

End ValidatorLoop.

(** X9: when the objects of a system have distinct names, the issue list
    of [validateData] is one stateless pass per loop: the parent issue of
    each object in by-id order, decided from the object, the id set and
    the root alone, followed by the position issue of each object.  The
    ignore set the loop fills has no effect beyond the root entry it
    starts with. *)
Theorem validate_issues_stateless (sys : StarSystem) :
  NoDup (map name (Assoc.values (StarSystemTypes.objectsById sys))) ->
  SystemDebugger.issues (SystemDebugger.validateData (Some sys))
  = flat_map (parentIssue sys) (Assoc.values (StarSystemTypes.objectsById sys))
    ++ flat_map SystemDebugger.checkPosition
         (Assoc.values (StarSystemTypes.objectsById sys))
  /\ (SystemDebugger.valid (SystemDebugger.validateData (Some sys)) = true
      <-> SystemDebugger.issues (SystemDebugger.validateData (Some sys)) = []).
Proof.
  intros Hnd. split; [exact (validate_issues sys Hnd)|].
  apply valid_iff_no_issue.
Qed.

(** The stray relay: one issue, for its missing parent. *)
Lemma validate_issues_stateless_example :
  exists sys built,
    loadFromObject 2 initial strayRecords = Ok (sys, built)
    /\ SystemDebugger.issues (SystemDebugger.validateData (Some sys))
       = ["Object relay (relay) has non-existent parent: ghost"].
Proof.
  eexists. eexists. split; [reflexivity|].
  match goal with
  | |- SystemDebugger.issues (SystemDebugger.validateData (Some ?s)) = _ =>
      assert (Hnd : NoDup (map name
                             (Assoc.values (StarSystemTypes.objectsById s))))
        by (repeat constructor; cbn; intuition discriminate);
      rewrite (proj1 (validate_issues_stateless s Hnd))
  end.
  reflexivity.
Defined.

Lemma NoDup_map_injective {A B : Type} (f : A -> B) (l : list A) (a b : A) :
  NoDup (map f l) -> In a l -> In b l -> f a = f b -> a = b.
Proof.
  induction l as [|c l IH]; cbn; [tauto|].
  intros Hnd Ha Hb Heq. inversion Hnd as [|? ? Hfresh Hnd']; subst.
  destruct Ha as [->|Ha], Hb as [->|Hb]; [reflexivity| | |now apply IH].
  - exfalso. apply Hfresh. rewrite Heq. now apply in_map.
  - exfalso. apply Hfresh. rewrite <- Heq. now apply in_map.
Qed.

Lemma built_names_distinct fuel this sd sys built :
  NoDup (Assoc.keys sd) ->
  loadFromObject fuel this sd = Ok (sys, built) ->
  StarSystemTypes.objectsById sys = map objectOf (createInferredObjects sd)
  /\ NoDup (map name (Assoc.values (StarSystemTypes.objectsById sys)))
  /\ In (star sys) (Assoc.values (StarSystemTypes.objectsById sys)).
Proof.
  intros Hnd Hload.
  destruct (loadFromObject_parts _ _ _ _ _ Hload)
    as [indexed [Hidx [Hstar [HbyId _]]]].
  assert (Hnd' := inferred_keys_NoDup _ Hnd).
  assert (Hobjs : objectsById indexed
                  = map objectOf (createInferredObjects sd)).
  { rewrite Hidx, indexAll_objectsById. cbn [objectsById].
    rewrite putAll_fresh; [reflexivity | exact Hnd'|].
    apply Forall_forall. reflexivity. }
  rewrite HbyId, Hobjs. split; [reflexivity|]. split.
  - unfold Assoc.values. rewrite !map_map. cbn [objectOf snd].
    unfold Assoc.keys in Hnd'.
    erewrite map_ext; [exact Hnd'|]. intros [id data]. reflexivity.
  - rewrite Hidx in Hstar, Hobjs.
    rewrite <- Hobjs. clear Hobjs HbyId.
    revert Hstar. rewrite findStar_by_bucket.
    set (ix := indexAll _ _).
    assert (Hb : forall o, In o (bucket ObjectType.Star (objectsByType ix)) ->
                           In o (Assoc.values (objectsById ix))).
    { intros o Ho. unfold ix in *. rewrite indexAll_byType in Ho.
      cbn [objectsByType bucket Assoc.get app] in Ho.
      apply filter_In in Ho. destruct Ho as [Ho _].
      rewrite indexAll_objectsById. cbn [objectsById].
      rewrite putAll_fresh; [exact Ho | exact Hnd'|].
      apply Forall_forall. reflexivity. }
    destruct (bucket ObjectType.Star (objectsByType ix)) as [|s0 l];
      cbn [hd_error].
    + destruct (find _ (objectsById ix)) as [kv|] eqn:E1.
      * intros [= <-]. apply find_in in E1. destruct E1 as [E1 _].
        unfold Assoc.values. now apply in_map.
      * intros E2. apply find_in in E2. tauto.
    + intros [= <-]. apply Hb. now left.
Qed.

(** X10: a system built from records with distinct ids validates exactly
    when every object has no NaN position component and is either typed
    Star or has a non-empty parent string that is an id of the system,
    matches the lagrange pattern, or is the root's own "root" sentinel.
    So any object without parent that is not typed Star -- a root found
    by the empty-parent fallback included -- makes the system invalid. *)
Theorem built_system_valid_iff
    (fuel : nat) (this : Service) (sd : list (string * Raw.payload))
    (sys : StarSystem) (built : Service) :
  NoDup (Assoc.keys sd) ->
  loadFromObject fuel this sd = Ok (sys, built) ->
  (SystemDebugger.valid (SystemDebugger.validateData (Some sys)) = true
   <-> forall object,
         In object (Assoc.values (StarSystemTypes.objectsById sys)) ->
         acceptable sys object).
Proof.
  intros Hnd Hload.
  destruct (built_names_distinct _ _ _ _ _ Hnd Hload) as [_ [Hnames Hstar]].
  rewrite valid_iff_no_issue, (validate_issues sys Hnames).
  assert (Hroot : forall o,
            In o (Assoc.values (StarSystemTypes.objectsById sys)) ->
            (rootIgnored sys o = true
             <-> o = star sys /\ parent o = "root")).
  { intros o Ho. unfold rootIgnored.
    rewrite andb_true_iff, !String.eqb_eq. split.
    - intros [Hp Hn].
      assert (Heq : o = star sys)
        by (exact (NoDup_map_injective name _ _ _ Hnames Ho Hstar Hn)).
      subst o. tauto.
    - intros [-> Hp]. tauto. }
  split.
  - intros H o Ho. apply app_eq_nil in H. destruct H as [Hpar Hpos].
    rewrite flat_map_nil in Hpar, Hpos.
    specialize (Hpar o Ho). specialize (Hpos o Ho). split.
    + unfold SystemDebugger.checkPosition in Hpos. unfold anyNaN.
      destruct (_ || _ || _); [discriminate | reflexivity].
    + unfold parentIssue in Hpar.
      destruct (String.eqb (type o) ObjectType.Star) eqn:Et;
        [left; now apply String.eqb_eq|]. right.
      destruct (is_empty (parent o)) eqn:Ep.
      * destruct (rootIgnored sys o) eqn:Er; [|discriminate].
        apply Hroot in Er; [|exact Ho]. destruct Er as [_ Er].
        rewrite Er in Ep. discriminate.
      * split; [intros He; rewrite He in Ep; discriminate|].
        destruct (SystemDebugger.mem _ _) eqn:Em;
          [left; now apply mem_In|].
        destruct (test_lagrange (parent o)) eqn:El; [right; now left|].
        destruct (rootIgnored sys o) eqn:Er; [|discriminate].
        right. right. now apply Hroot.
  - intros H.
    assert (Hpar : flat_map (parentIssue sys)
                     (Assoc.values (StarSystemTypes.objectsById sys)) = []).
    { apply flat_map_nil. intros o Ho. destruct (H o Ho) as [_ Hacc].
      unfold parentIssue.
      destruct (String.eqb (type o) ObjectType.Star) eqn:Et; [reflexivity|].
      destruct Hacc as [Hacc|[Hne Hacc]];
        [apply String.eqb_eq in Hacc; congruence|].
      destruct (is_empty (parent o)) eqn:Ep.
      { destruct (parent o); [now contradiction Hne | discriminate]. }
      destruct Hacc as [Hin|[Hl|Hr]].
      - apply mem_In in Hin. now rewrite Hin.
      - rewrite Hl. now rewrite orb_true_r.
      - apply Hroot in Hr; [|exact Ho]. rewrite Hr. now rewrite orb_true_r. }
    assert (Hpos : flat_map SystemDebugger.checkPosition
                     (Assoc.values (StarSystemTypes.objectsById sys)) = []).
    { apply flat_map_nil. intros o Ho. destruct (H o Ho) as [Hnan _].
      unfold SystemDebugger.checkPosition. unfold anyNaN in Hnan.
      now rewrite Hnan. }
    now rewrite Hpar, Hpos.
Qed.

(** The star, planet, moon records validate; every object is acceptable. *)
Lemma built_system_valid_iff_example :
  NoDup (Assoc.keys chainRecords)
  /\ exists sys built,
       loadFromObject 3 initial chainRecords = Ok (sys, built)
       /\ SystemDebugger.valid (SystemDebugger.validateData (Some sys)) = true
       /\ forall object,
            In object (Assoc.values (StarSystemTypes.objectsById sys)) ->
            acceptable sys object.
Proof.
  split; [exact chainRecords_distinct|].
  eexists. eexists. split; [reflexivity|]. split; [reflexivity|].
  exact (proj1 (built_system_valid_iff 3 initial chainRecords _ _
                  chainRecords_distinct eq_refl) eq_refl).
Defined.

(** ** findDisconnectedObjects *)

Section Disconnected.
Import SystemDebugger.

Lemma is_empty_true s : is_empty s = true <-> s = "".
Proof. destruct s; cbn; split; congruence. Qed.

Lemma pathToStar_decides depth byId :
  (forall k p,
      Assoc.get k byId = Some p -> type p <> ObjectType.Star ->
      depth (parent p) < depth k) ->
  forall fuel object,
    depth (parent object) <= fuel ->
    exists b,
      pathToStar fuel byId object = Ok b
      /\ (b = true <-> climbsToStar byId object).
Proof.
  intros Hd. induction fuel as [|fuel IH]; intros object Hle.
  - cbn [pathToStar].
    destruct (is_empty (parent object)) eqn:Ee.
    { exists false. split; [reflexivity|]. split; [discriminate|].
      apply is_empty_true in Ee. intros H. inversion H; congruence. }
    destruct (Assoc.get (parent object) byId) as [p|] eqn:Eg.
    2:{ exists false. split; [reflexivity|]. split; [discriminate|].
        intros H. inversion H; congruence. }
    destruct (String.eqb (type p) ObjectType.Star) eqn:Et.
    { exists true. split; [reflexivity|]. split; [|reflexivity]. intros _.
      apply String.eqb_eq in Et. eapply climbs_direct; eauto.
      intros He. apply is_empty_true in He. congruence. }
    apply String.eqb_neq in Et. specialize (Hd _ _ Eg Et). lia.
  - cbn [pathToStar].
    destruct (is_empty (parent object)) eqn:Ee.
    { exists false. split; [reflexivity|]. split; [discriminate|].
      apply is_empty_true in Ee. intros H. inversion H; congruence. }
    destruct (Assoc.get (parent object) byId) as [p|] eqn:Eg.
    2:{ exists false. split; [reflexivity|]. split; [discriminate|].
        intros H. inversion H; congruence. }
    assert (Hne : parent object <> "").
    { intros He. apply is_empty_true in He. congruence. }
    destruct (String.eqb (type p) ObjectType.Star) eqn:Et.
    { exists true. split; [reflexivity|]. split; [|reflexivity]. intros _.
      apply String.eqb_eq in Et. eapply climbs_direct; eauto. }
    apply String.eqb_neq in Et. specialize (Hd _ _ Eg Et).
    destruct (IH p) as [b [Hb Hiff]]; [lia|].
    exists b. split; [exact Hb|]. rewrite Hiff. split.
    + intros H. eapply climbs_via; eauto.
    + intros H. inversion H as [? p' _ Eg' Et'|? p' _ Eg' _ Hp]; subst;
        rewrite Eg in Eg'; injection Eg' as <-; [contradiction | exact Hp].
Qed.

Lemma foldResult_filter fuel byId (keep : CelestialObject -> bool)
    (l : list CelestialObject) :
  (forall o, In o l -> checkConnected fuel byId [] o
                       = Ok (if keep o then [o] else [])) ->
  forall acc,
    foldResult (checkConnected fuel byId) l acc = Ok (acc ++ filter keep l).
Proof.
  induction l as [|o l IH]; intros Hall acc; cbn [foldResult filter].
  - now rewrite app_nil_r.
  - assert (Ho := Hall o (or_introl eq_refl)).
    assert (Hstep : checkConnected fuel byId acc o
                    = Ok (if keep o then acc ++ [o] else acc)).
    { revert Ho. unfold checkConnected.
      destruct (String.eqb (type o) ObjectType.Star).
      - destruct (keep o); [discriminate | reflexivity].
      - destruct (pathToStar fuel byId o) as [[]|m|]; cbn [bind];
          try discriminate; destruct (keep o); try discriminate; reflexivity. }
    rewrite Hstep. cbn [bind].
    rewrite IH by (intros o' Ho'; apply Hall; now right).
    destruct (keep o); [now rewrite <- app_assoc | reflexivity].
Qed.

End Disconnected.

(** X11: on a system whose objects other than Star-typed ones are stored
    strictly deeper than their parent string (no parent cycle below the
    Star-typed objects), [findDisconnectedObjects] returns, and what it
    returns is, in by-id order, exactly the objects that are not typed
    Star and whose parent ids do not resolve one after the other up to a
    Star-typed object. *)
Theorem findDisconnected_lists_unreachable (sys : StarSystem) :
  climbable (StarSystemTypes.objectsById sys) ->
  exists n, forall fuel, n <= fuel ->
    exists keep,
      SystemDebugger.findDisconnectedObjects fuel (Some sys)
      = Ok (filter keep (Assoc.values (StarSystemTypes.objectsById sys)))
      /\ forall object,
           keep object = true
           <-> type object <> ObjectType.Star
               /\ ~ climbsToStar (StarSystemTypes.objectsById sys) object.
Proof.
  intros [depth Hd].
  set (byId := StarSystemTypes.objectsById sys) in *.
  exists (list_max (map (fun o => depth (parent o)) (Assoc.values byId))).
  intros fuel Hfuel.
  assert (Hdec : forall o, In o (Assoc.values byId) ->
            exists b, SystemDebugger.pathToStar fuel byId o = Ok b
                      /\ (b = true <-> climbsToStar byId o)).
  { intros o Ho. apply (pathToStar_decides depth byId Hd).
    assert (Hall := proj1 (list_max_le
                             (map (fun o => depth (parent o))
                                (Assoc.values byId)) _) (Nat.le_refl _)).
    rewrite Forall_forall in Hall.
    assert (Hin : In (depth (parent o))
                    (map (fun o => depth (parent o)) (Assoc.values byId)))
      by (apply in_map_iff; exists o; tauto).
    specialize (Hall _ Hin). lia. }
  set (keep := fun o =>
         negb (String.eqb (type o) ObjectType.Star)
         && match SystemDebugger.pathToStar
                    (Nat.max fuel (depth (parent o))) byId o with
            | Ok true => false
            | _ => true
            end).
  assert (Hkeep : forall o,
            keep o = true
            <-> type o <> ObjectType.Star /\ ~ climbsToStar byId o).
  { intros o. unfold keep.
    destruct (pathToStar_decides depth byId Hd
                (Nat.max fuel (depth (parent o))) o) as [b [Hb Hiff]];
      [lia|].
    rewrite Hb, andb_true_iff, negb_true_iff, String.eqb_neq.
    destruct b.
    - split; [intros [_ H]; discriminate|].
      intros [_ H]. exfalso. apply H. now apply Hiff.
    - split; [|tauto]. intros [H _]. split; [exact H|].
      intros Hc. apply Hiff in Hc. discriminate. }
  exists keep. split; [|exact Hkeep].
  unfold SystemDebugger.findDisconnectedObjects. fold byId.
  rewrite (foldResult_filter fuel byId keep); [reflexivity|].
  intros o Ho. unfold SystemDebugger.checkConnected.
  destruct (String.eqb (type o) ObjectType.Star) eqn:Et.
  { unfold keep. rewrite Et. reflexivity. }
  destruct (Hdec o Ho) as [b [Hb Hiff]]. rewrite Hb. cbn [bind].
  destruct (keep o) eqn:Ek.
  - apply Hkeep in Ek. destruct b; [|reflexivity].
    exfalso. apply (proj2 Ek). now apply Hiff.
  - destruct b; [reflexivity|]. exfalso.
    assert (Hk : keep o = true); [|congruence].
    apply Hkeep. apply String.eqb_neq in Et. split; [exact Et|].
    intros Hc. apply Hiff in Hc. discriminate.
Qed.

(** The star, planet, moon records: nothing is disconnected below depth
    three. *)
Lemma findDisconnected_lists_unreachable_example :
  exists sys built,
    loadFromObject 3 initial chainRecords = Ok (sys, built)
    /\ climbable (StarSystemTypes.objectsById sys)
    /\ exists n, forall fuel, n <= fuel ->
         exists keep,
           SystemDebugger.findDisconnectedObjects fuel (Some sys)
           = Ok (filter keep (Assoc.values (StarSystemTypes.objectsById sys)))
           /\ forall object,
                keep object = true
                <-> type object <> ObjectType.Star
                    /\ ~ climbsToStar (StarSystemTypes.objectsById sys) object.
Proof.
  eexists. eexists. split; [reflexivity|].
  match goal with
  | |- climbable ?m /\ _ => assert (Hc : climbable m)
  end.
  { exists (fun id =>
              if String.eqb id "" then 0
              else if String.eqb id "stantonstar" then 1
              else if String.eqb id "planet1" then 2
              else 3).
    intros k p Hg Ht. apply get_In in Hg. vm_compute in Hg.
    repeat (destruct Hg as [Hg|Hg];
            [injection Hg as <- <-;
             first [exfalso; apply Ht; reflexivity | vm_compute; lia]|]).
    destruct Hg. }
  split; [exact Hc|].
  exact (findDisconnected_lists_unreachable _ Hc).
Defined.

(** ** The distance of the planner *)

Section DistanceFacts.
Import Stanton RoutePlanner.
Local Open Scope R_scope.

Lemma calculateDistance_nonneg p q : 0 <= calculateDistance p q.
Proof. apply sqrt_pos. Qed.

Lemma calculateDistance_sym p q : calculateDistance p q = calculateDistance q p.
Proof. unfold calculateDistance. f_equal. ring. Qed.

Lemma calculateDistance_self p : calculateDistance p p = 0.
Proof.
  unfold calculateDistance. cbv zeta.
  replace ((x p - x p) * (x p - x p) + (y p - y p) * (y p - y p)
           + (z p - z p) * (z p - z p)) with 0 by ring.
  apply sqrt_0.
Qed.

(** X12: [calculateDistance] is never negative, is the same in both
    directions, and is zero from a position to itself. *)
Theorem calculateDistance_symmetric_nonnegative (p q : Position) :
  0 <= calculateDistance p q
  /\ calculateDistance p q = calculateDistance q p
  /\ calculateDistance p p = 0.
Proof.
  split; [apply calculateDistance_nonneg|].
  split; [apply calculateDistance_sym | apply calculateDistance_self].
Qed.

End DistanceFacts.

(** ** Alerts around a waypoint *)

Section RadiusFacts.
Import Stanton RoutePlanner PlannerSpec PlannerDerived.
Local Open Scope R_scope.

Lemma leb_true a b : leb a b = true <-> a <= b.
Proof. unfold leb. destruct (Rle_dec a b); split; intros; congruence || lra. Qed.

Lemma filter_filter_implies {A : Type} (f g : A -> bool) (l : list A) :
  (forall a, f a = true -> g a = true) ->
  filter f (filter g l) = filter f l.
Proof.
  intros Himp. induction l as [|a l IH]; [reflexivity|]. cbn [filter].
  destruct (g a) eqn:Eg; cbn [filter].
  - now rewrite IH.
  - destruct (f a) eqn:Ef; [|exact IH].
    rewrite (Himp a Ef) in Eg. discriminate.
Qed.

(** X13: the alerts found within a radius are found within every larger
    one, and searching the result of the larger search with the smaller
    radius gives the smaller search; a negative radius finds nothing. *)
Theorem findAlertsInRadius_grows_with_radius
    (position : Position) (alerts : list RouteAlert) (r1 r2 : R) :
  r1 <= r2 ->
  findAlertsInRadius position (findAlertsInRadius position alerts r2) r1
  = findAlertsInRadius position alerts r1
  /\ incl (findAlertsInRadius position alerts r1)
          (findAlertsInRadius position alerts r2)
  /\ (r2 < 0 -> findAlertsInRadius position alerts r2 = []).
Proof.
  intros Hle.
  assert (Himp : forall a : RouteAlert,
            leb (calculateDistance position (loc_position (location a))) r1
            = true ->
            leb (calculateDistance position (loc_position (location a))) r2
            = true).
  { intros a H. apply leb_true. apply leb_true in H. lra. }
  split; [|split].
  - unfold findAlertsInRadius. now apply filter_filter_implies.
  - intros a Ha. unfold findAlertsInRadius in *.
    apply filter_In in Ha. apply filter_In. split; [tauto|].
    apply Himp. tauto.
  - intros Hneg. unfold findAlertsInRadius.
    induction alerts as [|a l IH]; [reflexivity|]. cbn [filter].
    destruct (leb _ r2) eqn:E; [|exact IH].
    apply leb_true in E.
    assert (H := sqrt_pos
                   ((x (loc_position (location a)) - x position)
                    * (x (loc_position (location a)) - x position)
                    + (y (loc_position (location a)) - y position)
                      * (y (loc_position (location a)) - y position)
                    + (z (loc_position (location a)) - z position)
                      * (z (loc_position (location a)) - z position))).
    unfold calculateDistance in E. cbv zeta in E. lra.
Qed.

(** Around the origin: the alert at distance 3 is within 5 and within 10,
    the one at distance 7 only within 10. *)
Lemma findAlertsInRadius_grows_with_radius_example :
  findAlertsInRadius {| x := 0; y := 0; z := 0 |}
    [hazardAt 3 20; hazardAt 7 40] 5
  = [hazardAt 3 20]
  /\ incl (findAlertsInRadius {| x := 0; y := 0; z := 0 |}
             [hazardAt 3 20; hazardAt 7 40] 5)
          (findAlertsInRadius {| x := 0; y := 0; z := 0 |}
             [hazardAt 3 20; hazardAt 7 40] 10).
Proof.
  assert (H5 : 5 <= 10) by lra.
  destruct (findAlertsInRadius_grows_with_radius
              {| x := 0; y := 0; z := 0 |} [hazardAt 3 20; hazardAt 7 40]
              5 10 H5) as [_ [Hincl _]].
  split; [|exact Hincl].
  unfold findAlertsInRadius, calculateDistance, hazardAt. cbn.
  replace ((3 - 0) * (3 - 0) + (0 - 0) * (0 - 0) + (0 - 0) * (0 - 0))
    with (3 * 3) by ring.
  replace ((7 - 0) * (7 - 0) + (0 - 0) * (0 - 0) + (0 - 0) * (0 - 0))
    with (7 * 7) by ring.
  rewrite !sqrt_square by lra.
  unfold leb. destruct (Rle_dec 3 5); [|lra]. destruct (Rle_dec 7 5); [lra|].
  reflexivity.
Defined.




End RadiusFacts.

(** ** A plan and its reverse *)

Section ReverseFacts.
Import Stanton RoutePlanner PlannerSpec PlannerDerived.
Local Open Scope R_scope.

Lemma midPoint_comm (p q : Position) :
  {| x := (x p + x q) / 2; y := (y p + y q) / 2; z := (z p + z q) / 2 |}
  = {| x := (x q + x p) / 2; y := (y q + y p) / 2; z := (z q + z p) / 2 |}.
Proof. f_equal; lra. Qed.

(** X15: when [planRoute] returns a plan, the request with the two ids
    exchanged returns one too, with the same total distance, time and
    fuel and with the waypoint positions, nearby alerts and waypoint
    scores in reverse order.  In every plan the first waypoint carries
    distance and time 0 and each of the other two half the total. *)
Theorem planRoute_reverse_and_legs
    (sd : StantonSystem) (s e : string) (alerts : list RouteAlert)
    (ship : option ShipSpecification) (plan : RoutePlan) :
  planRoute sd s e alerts ship = Ok plan ->
  map distance (waypoints plan)
  = [0; totalDistance plan / 2; totalDistance plan / 2]
  /\ map timeFromPrevious (waypoints plan)
     = [0; totalTime plan / 2; totalTime plan / 2]
  /\ exists back,
       planRoute sd e s alerts ship = Ok back
       /\ totalDistance back = totalDistance plan
       /\ totalTime back = totalTime plan
       /\ fuelRequired back = fuelRequired plan
       /\ map wp_position (waypoints back)
          = rev (map wp_position (waypoints plan))
       /\ map nearbyAlerts (waypoints back)
          = rev (map nearbyAlerts (waypoints plan))
       /\ map wp_safetyScore (waypoints back)
          = rev (map wp_safetyScore (waypoints plan)).
Proof.
  unfold planRoute.
  destruct (Assoc.get s sd) as [so|]; [|discriminate].
  destruct (Assoc.get e sd) as [eo|]; [|discriminate].
  intros [= <-]. cbv zeta.
  split; [reflexivity|]. split; [reflexivity|].
  eexists. split; [reflexivity|].
  cbn [totalDistance totalTime fuelRequired waypoints
       map rev app wp_position nearbyAlerts wp_safetyScore].
  rewrite (calculateDistance_sym (position eo) (position so)).
  rewrite (midPoint_comm (position eo) (position so)).
  repeat split; reflexivity.
Qed.

(** From [a] to [b] and back: 1,000,000 units each way. *)
Lemma planRoute_reverse_and_legs_example :
  exists plan back,
    planRoute apart "a" "b" [] None = Ok plan
    /\ planRoute apart "b" "a" [] None = Ok back
    /\ totalDistance back = totalDistance plan
    /\ map wp_position (waypoints back)
       = rev (map wp_position (waypoints plan)).
Proof.
  eexists.
  destruct (planRoute_reverse_and_legs apart "a" "b" [] None _ eq_refl)
    as [_ [_ [back [Hback [Hdist [_ [_ [Hpos _]]]]]]]].
  exists back. split; [reflexivity|].
  split; [exact Hback|]. split; [exact Hdist | exact Hpos].
Defined.

End ReverseFacts.

(** ** The shape of the alternatives *)

Section DetourFacts.
Import Stanton RoutePlanner PlannerSpec PlannerDerived.
Local Open Scope R_scope.

Lemma insertBySafety_last r l :
  Forall (fun h => overallSafetyScore r < overallSafetyScore h) l ->
  insertBySafety r l = l ++ [r].
Proof.
  induction 1 as [|h l Hh _ IH]; [reflexivity|]. cbn [insertBySafety app].
  destruct (Rlt_dec (overallSafetyScore r) (overallSafetyScore h));
    [now rewrite IH | contradiction].
Qed.

Lemma explore_via sd s e alerts maxAlternatives direct :
  Assoc.get s sd <> None -> Assoc.get e sd <> None ->
  forall candidates acc,
    (forall c, In c candidates ->
               In c (Assoc.values sd) /\ isViaPoint c = true
               /\ notEndpoint s e c = true
               /\ Assoc.get (name c) sd <> None) ->
    (List.length acc <= maxAlternatives)%nat ->
    Forall (viaRoute sd s e alerts direct) acc ->
    exists alternatives,
      explore sd s e alerts maxAlternatives direct candidates acc
      = Ok alternatives
      /\ (List.length alternatives <= maxAlternatives)%nat
      /\ Forall (viaRoute sd s e alerts direct) alternatives.
Proof.
  intros Hs He.
  induction candidates as [|w rest IH]; intros acc Hcand Hlen Hacc.
  - exists acc. cbn. tauto.
  - cbn [explore].
    destruct (maxAlternatives <=? List.length acc)%nat eqn:Efull.
    { exists acc. tauto. }
    apply Nat.leb_gt in Efull.
    destruct (Hcand w (or_introl eq_refl)) as [Hin [Hvia [Hnot Hw]]].
    destruct (planRoute_present sd s (name w) alerts None Hs Hw)
      as [toW HtoW].
    destruct (planRoute_present sd (name w) e alerts None Hw He)
      as [fromW HfromW].
    rewrite HtoW, HfromW. cbn [bind].
    destruct (Rgt_dec (overallSafetyScore (combine s e toW fromW))
                (overallSafetyScore direct + 5)) as [Hgt|Hle].
    + apply IH.
      * intros c Hc. apply Hcand. now right.
      * rewrite length_app. cbn. lia.
      * apply Forall_app. split; [exact Hacc|]. constructor; [|constructor].
        exists w, toW, fromW.
        split; [exact Hin|]. split; [exact Hvia|]. split; [exact Hnot|].
        split; [exact HtoW|]. split; [exact HfromW|].
        split; [reflexivity|].
        revert HtoW HfromW Hgt. unfold planRoute.
        destruct (Assoc.get s sd) as [so|]; [|contradiction].
        destruct (Assoc.get e sd) as [eo|]; [|contradiction].
        destruct (Assoc.get (name w) sd) as [wo|]; [|contradiction].
        cbv zeta. intros [= <-] [= <-] Hgt.
        split; [reflexivity|]. split; [cbn; lra | exact Hgt].
    + apply IH; [|exact Hlen | exact Hacc].
      intros c Hc. apply Hcand. now right.
Qed.

(** X16: on a system in which the name of each object is an id, and for
    endpoints that [planRoute] accepts, [findAlternativeRoutes] returns the
    direct route as the last entry, preceded by at most [maxAlternatives]
    detours.  Each detour is the plan from the start to a via-point of
    the system (neither endpoint) joined with the plan from that via-point
    to the end: its waypoints run start, midpoint, via-point, midpoint,
    end, it needs no fuel, and it is safer than the direct route by more
    than 5. *)
Theorem alternatives_detour_before_direct
    (sd : StantonSystem) (s e : string) (alerts : list RouteAlert)
    (maxAlternatives : nat) (direct : RoutePlan) :
  namesResolve sd ->
  planRoute sd s e alerts None = Ok direct ->
  exists detours,
    findAlternativeRoutes sd s e alerts maxAlternatives
    = Ok (detours ++ [direct])
    /\ (List.length detours <= maxAlternatives)%nat
    /\ Forall (viaRoute sd s e alerts direct) detours.
Proof.
  intros Hres Hplan. unfold findAlternativeRoutes. rewrite Hplan. cbn [bind].
  destruct (Rge_dec (overallSafetyScore direct) 90).
  { exists []. repeat split; [cbn; lia | constructor]. }
  destruct (planRoute_Ok_present _ _ _ _ _ _ Hplan) as [Hs He].
  destruct (explore_via sd s e alerts maxAlternatives direct Hs He
              (filter (notEndpoint s e) (filter isViaPoint (Assoc.values sd)))
              []) as [alternatives [Hexp [Hlen Hall]]].
  - intros c Hc. split; [|split; [|split]].
    + apply filter_In in Hc. destruct Hc as [Hc _].
      apply filter_In in Hc. tauto.
    + apply filter_In in Hc. destruct Hc as [Hc _].
      apply filter_In in Hc. tauto.
    + apply filter_In in Hc. tauto.
    + exact (candidates_are_keys sd s e c Hres Hc).
  - cbn. lia.
  - constructor.
  - rewrite Hexp. cbn [bind sortBySafety].
    assert (Hperm := sortBySafety_perm alternatives).
    exists (sortBySafety alternatives).
    assert (Hall' : Forall (viaRoute sd s e alerts direct)
                      (sortBySafety alternatives)).
    { rewrite Forall_forall in *. intros r Hr. apply Hall.
      now apply (Permutation_in _ Hperm). }
    split; [|split].
    + rewrite insertBySafety_last; [reflexivity|].
      rewrite Forall_forall in *. intros r Hr.
      destruct (Hall' r Hr)
        as [via [toW [fromW [_ [_ [_ [_ [_ [_ [_ [_ Hgt]]]]]]]]]]].
      lra.
    + rewrite (Permutation_length Hperm). exact Hlen.
    + exact Hall'.
Qed.

(** Past the hazard half-way between [a] and [b]: the detour through the
    far body comes first, the direct route last. *)
Lemma alternatives_detour_before_direct_example :
  namesResolve farBody
  /\ exists direct detour,
       planRoute farBody "a" "b" midHazard None = Ok direct
       /\ findAlternativeRoutes farBody "a" "b" midHazard 3
          = Ok ([detour] ++ [direct])
       /\ viaRoute farBody "a" "b" midHazard direct detour.
Proof.
  split; [exact farBody_namesResolve|].
  destruct farBody_alternatives
    as [direct [detour [Hdirect [_ [Hfind _]]]]].
  exists direct, detour. split; [exact Hdirect|]. split; [exact Hfind|].
  destruct (alternatives_detour_before_direct farBody "a" "b" midHazard 3
              direct farBody_namesResolve Hdirect)
    as [detours [Hroutes [_ Hall]]].
  rewrite Hfind in Hroutes. injection Hroutes as Hroutes.
  change [detour; direct] with ([detour] ++ [direct]) in Hroutes.
  apply app_inj_tail in Hroutes. destruct Hroutes as [<- _].
  inversion Hall; assumption.
Defined.

End DetourFacts.

(** ** Saving a plan *)

Section SavedRoute.
Import Stanton RoutePlanner AlertUtils PlannerSpec PlannerDerived.
Local Open Scope R_scope.




End SavedRoute.

(** ** The alert utilities *)

Section AlertFacts.
Import Stanton AlertUtils PlannerDerived.
Local Open Scope R_scope.

Lemma ltb_true a b : ltb a b = true <-> a < b.
Proof. unfold ltb. destruct (Rlt_dec a b); split; intros; congruence || lra. Qed.

(** X18: for an alert that expires after it was created and a decay rate
    that is not negative, [calculateAlertDecay] lies between 0 and the
    decay rate, is 0 up to the creation time, is the full decay rate from
    the expiry time on, and never decreases as the clock advances. *)
Theorem calculateAlertDecay_bounds
    (now later : R) (alert : FirestoreAlert) (decayRate : R) :
  fa_createdAt alert < fa_expiresAt alert ->
  0 <= decayRate ->
  now <= later ->
  0 <= calculateAlertDecay now alert decayRate <= decayRate
  /\ (now <= fa_createdAt alert -> calculateAlertDecay now alert decayRate = 0)
  /\ (fa_expiresAt alert <= now ->
      calculateAlertDecay now alert decayRate = decayRate)
  /\ calculateAlertDecay now alert decayRate
     <= calculateAlertDecay later alert decayRate.
Proof.
  intros Hlife Hrate Hlater. unfold calculateAlertDecay. cbv zeta.
  set (c := fa_createdAt alert) in *. set (e := fa_expiresAt alert) in *.
  assert (Hinv : 0 < / (e - c)) by (apply Rinv_0_lt_compat; lra).
  assert (Hclamp : forall t, 0 <= Rmin 1 (Rmax 0 t) <= 1).
  { intros t. unfold Rmin, Rmax.
    destruct (Rle_dec 0 t); destruct (Rle_dec 1 _); lra. }
  assert (Hmono : forall t u, t <= u ->
                    Rmin 1 (Rmax 0 t) <= Rmin 1 (Rmax 0 u)).
  { intros t u Htu. unfold Rmin, Rmax.
    destruct (Rle_dec 0 t); destruct (Rle_dec 0 u);
      repeat match goal with |- context [Rle_dec ?a ?b] =>
               destruct (Rle_dec a b) end; lra. }
  split; [|split; [|split]].
  - destruct (Hclamp ((now - c) / (e - c))). split.
    + apply Rmult_le_pos; lra.
    + rewrite <- (Rmult_1_l decayRate) at 2.
      apply Rmult_le_compat_r; lra.
  - intros Hearly.
    assert (Hq : (now - c) / (e - c) <= 0).
    { unfold Rdiv. rewrite <- (Rmult_0_l (/ (e - c))).
      apply Rmult_le_compat_r; lra. }
    rewrite Rmax_left by lra. rewrite Rmin_right by lra. ring.
  - intros Hlate.
    assert (Hq : 1 <= (now - c) / (e - c)).
    { unfold Rdiv. rewrite <- (Rinv_r (e - c)) by lra.
      apply Rmult_le_compat_r; lra. }
    rewrite Rmax_right by lra. rewrite Rmin_left by lra. ring.
  - apply Rmult_le_compat_r; [exact Hrate|]. apply Hmono.
    unfold Rdiv. apply Rmult_le_compat_r; lra.
Qed.

(** Half-way through its two hours an alert has decayed by half the
    rate. *)
Lemma calculateAlertDecay_bounds_example :
  calculateAlertDecay 3600000 (alertFrom 0 "stanton") (1 / 2) = 1 / 4
  /\ 0 <= calculateAlertDecay 3600000 (alertFrom 0 "stanton") (1 / 2) <= 1 / 2.
Proof.
  assert (Hlife : fa_createdAt (alertFrom 0 "stanton")
                  < fa_expiresAt (alertFrom 0 "stanton"))
    by (cbn; unfold DEFAULT_ALERT_EXPIRATION; lra).
  assert (Hrate : 0 <= 1 / 2) by lra.
  assert (Hlater : 3600000 <= 3600000) by lra.
  split.
  - unfold calculateAlertDecay, alertFrom, DEFAULT_ALERT_EXPIRATION. cbn.
    replace ((3600000 - 0) / (0 + 2 * 60 * 60 * 1000 - 0)) with (1 / 2)
      by (field; lra).
    rewrite Rmax_right by lra. rewrite Rmin_right by lra. lra.
  - exact (proj1 (calculateAlertDecay_bounds 3600000 3600000
                    (alertFrom 0 "stanton") (1 / 2) Hlife Hrate Hlater)).
Defined.

Lemma insertByCreated_In a l b :
  In b (insertByCreated a l) <-> b = a \/ In b l.
Proof.
  induction l as [|h t IH]; cbn [insertByCreated].
  - cbn. intuition congruence.
  - destruct (Rlt_dec (fa_createdAt a) (fa_createdAt h)); cbn [In].
    + rewrite IH. intuition congruence.
    + intuition congruence.
Qed.

Lemma sortByCreated_In l b : In b (sortByCreated l) <-> In b l.
Proof.
  induction l as [|a t IH]; cbn [sortByCreated]; [tauto|].
  rewrite insertByCreated_In, IH. cbn. intuition congruence.
Qed.

Lemma insertByCreated_sorted a l :
  StronglySorted (fun u v => fa_createdAt v <= fa_createdAt u) l ->
  StronglySorted (fun u v => fa_createdAt v <= fa_createdAt u)
    (insertByCreated a l).
Proof.
  induction 1 as [|h t Hs IH Hall]; cbn [insertByCreated].
  - repeat constructor.
  - destruct (Rlt_dec (fa_createdAt a) (fa_createdAt h)).
    + constructor; [exact IH|]. rewrite Forall_forall in *. intros b Hb.
      apply insertByCreated_In in Hb. destruct Hb as [->|Hb]; [lra|].
      now apply Hall.
    + constructor; [now constructor|]. constructor; [lra|].
      rewrite Forall_forall in *. intros b Hb. specialize (Hall b Hb). lra.
Qed.

Lemma sortByCreated_sorted l :
  StronglySorted (fun u v => fa_createdAt v <= fa_createdAt u)
    (sortByCreated l).
Proof.
  induction l as [|a t IH]; cbn [sortByCreated]; [constructor|].
  now apply insertByCreated_sorted.
Qed.

(** The head of the sorted list is a newest alert. *)
Lemma sortByCreated_head l :
  match hd_error (sortByCreated l) with
  | None => l = []
  | Some h => In h l /\ forall b, In b l -> fa_createdAt b <= fa_createdAt h
  end.
Proof.
  assert (Hs := sortByCreated_sorted l).
  destruct (sortByCreated l) as [|h t] eqn:E; cbn [hd_error].
  - destruct l as [|a l']; [reflexivity|]. exfalso.
    assert (Hin : In a (sortByCreated (a :: l')))
      by (apply sortByCreated_In; now left).
    rewrite E in Hin. destruct Hin.
  - assert (Hh : In h l) by (apply sortByCreated_In; rewrite E; now left).
    split; [exact Hh|]. intros b Hb.
    apply sortByCreated_In in Hb. rewrite E in Hb.
    inversion Hs as [|? ? _ Hall]; subst. destruct Hb as [<-|Hb]; [lra|].
    rewrite Forall_forall in Hall. now apply Hall.
Qed.

(** X19: [canReportAlert] allows a report exactly when every alert of the
    given list that lies in the region is older than the throttle time;
    alerts of other regions, the order of the list and the user id do not
    matter. *)
Theorem canReportAlert_iff_all_older
    (now : R) (userId regionId' : string) (userAlerts : list FirestoreAlert)
    (throttleTime : R) :
  canReportAlert now userId regionId' userAlerts throttleTime = true
  <-> forall alert,
        In alert userAlerts ->
        regionId (fa_location alert) = regionId' ->
        throttleTime < now - fa_createdAt alert.
Proof.
  unfold canReportAlert. cbv zeta.
  set (mine := filter (fun alert =>
                         String.eqb (regionId (fa_location alert)) regionId')
                 userAlerts).
  assert (Hmine : forall a, In a mine
                    <-> In a userAlerts
                        /\ regionId (fa_location a) = regionId').
  { intros a. unfold mine. rewrite filter_In, String.eqb_eq. tauto. }
  assert (Hhead := sortByCreated_head mine).
  destruct (hd_error (sortByCreated mine)) as [h|].
  - destruct Hhead as [Hh Hmax]. rewrite ltb_true. split.
    + intros Hold a Ha Hr.
      assert (Hb := Hmax a (proj2 (Hmine a) (conj Ha Hr))). lra.
    + intros Hall. apply Hmine in Hh. now apply Hall.
  - split; [|reflexivity]. intros _ a Ha Hr.
    assert (Hin : In a mine) by (apply Hmine; tauto).
    rewrite Hhead in Hin. destruct Hin.
Qed.

(** X20: an alert made by [createRouteAlert] at clock value [now] carries
    one vote, the creator's confirmation; it is active at a clock value
    [t] exactly when [t] is less than two hours (7,200,000 ms) past
    [now]; it has not decayed at [now] and has fully decayed two hours
    later; and it blocks a further report in its region until more than
    the throttle time has passed, but never one in another region. *)
Theorem createRouteAlert_lifecycle
    (now : Z) (userId : string) (position : Position) (region : string)
    (alertType : AlertType) (shardId : string) (description : option string)
    (t throttleTime decayRate : R) (other : string) :
  let alert :=
    createRouteAlert now userId position region alertType shardId
      description in
  getTotalVotes alert = 1%nat
  /\ fa_confirmations alert = [(userId, IZR now)]
  /\ (isAlertActive t alert = true <-> t < IZR now + 7200000)
  /\ calculateAlertDecay (IZR now) alert decayRate = 0
  /\ calculateAlertDecay (IZR now + 7200000) alert decayRate = decayRate
  /\ (canReportAlert t userId region [alert] throttleTime = true
      <-> throttleTime < t - IZR now)
  /\ (other <> region ->
      canReportAlert t userId other [alert] throttleTime = true).
Proof.
  cbv zeta. split; [reflexivity|]. split; [reflexivity|]. split.
  { unfold isAlertActive. rewrite ltb_true. cbn [fa_expiresAt createRouteAlert].
    unfold DEFAULT_ALERT_EXPIRATION. lra. }
  split.
  { unfold calculateAlertDecay. cbn [fa_expiresAt fa_createdAt createRouteAlert].
    unfold DEFAULT_ALERT_EXPIRATION.
    replace ((IZR now - IZR now)
             / (IZR now + 2 * 60 * 60 * 1000 - IZR now)) with 0
      by (field; lra).
    rewrite Rmax_left by lra. rewrite Rmin_right by lra. ring. }
  split.
  { unfold calculateAlertDecay. cbn [fa_expiresAt fa_createdAt createRouteAlert].
    unfold DEFAULT_ALERT_EXPIRATION.
    replace ((IZR now + 7200000 - IZR now)
             / (IZR now + 2 * 60 * 60 * 1000 - IZR now)) with 1
      by (field; lra).
    rewrite Rmax_right by lra. rewrite Rmin_left by lra. ring. }
  split.
  { unfold canReportAlert.
    cbn [filter fa_location regionId createRouteAlert].
    rewrite String.eqb_refl. cbn [sortByCreated insertByCreated hd_error].
    rewrite ltb_true. cbn [fa_createdAt]. tauto. }
  intros Hother. unfold canReportAlert.
  cbn [filter fa_location regionId createRouteAlert].
  apply String.eqb_neq in Hother. rewrite String.eqb_sym, Hother.
  reflexivity.
Qed.

(** A report at clock value 1,700,000,000,000: one vote, active for two
    hours, and a report in another region stays allowed. *)
Lemma createRouteAlert_lifecycle_example :
  getTotalVotes
    (createRouteAlert 1700000000000 "pilot-0001" {| x := 0; y := 0; z := 0 |}
       "stanton" pirate "shard-1" None) = 1%nat
  /\ canReportAlert 1700000000001 "pilot-0001" "pyro"
       [createRouteAlert 1700000000000 "pilot-0001"
          {| x := 0; y := 0; z := 0 |} "stanton" pirate "shard-1" None]
       DEFAULT_THROTTLE = true.
Proof.
  assert (Hother : "pyro" <> "stanton") by discriminate.
  destruct (createRouteAlert_lifecycle 1700000000000 "pilot-0001"
              {| x := 0; y := 0; z := 0 |} "stanton" pirate "shard-1" None
              1700000000001 DEFAULT_THROTTLE (1 / 2) "pyro")
    as [Hvotes [_ [_ [_ [_ [_ Hfree]]]]]].
  split; [exact Hvotes | exact (Hfree Hother)].
Defined.

End AlertFacts.

(** ** The safety score beyond its default use *)

Section ScoreFacts.
Import AlertScore.
Local Open Scope Q_scope.

Lemma clamp_eq (r s : Q) : r == s -> Qmax 0 (Qmin 100 r) == Qmax 0 (Qmin 100 s).
Proof.
  intros H. apply Qle_antisym; apply clamp_mono; rewrite H; apply Qle_refl.
Qed.

Lemma ratio_antimono (a b b' : Q) :
  0 <= a -> 0 <= b -> b <= b' -> 0 < a + b -> a / (a + b') <= a / (a + b).
Proof.
  intros Ha Hb Hbb Ht.
  assert (Ht' : 0 < a + b') by Lqa.lra.
  apply Qle_shift_div_l; [exact Ht|].
  unfold Qdiv. rewrite <- Qmult_assoc, (Qmult_comm (/ (a + b'))), Qmult_assoc.
  apply Qle_shift_div_r; [exact Ht'|]. Lqa.nra.
Qed.

Lemma ratio_le_one (a b : Q) : 0 <= b -> 0 < a + b -> a / (a + b) <= 1.
Proof.
  intros Hb Ht. apply Qle_shift_div_r; [exact Ht|]. Lqa.lra.
Qed.

(** X21: the safety score depends on the vote counts only through their
    ratio: multiplying both counts by the same positive factor leaves it
    unchanged, for any weights.  Under the default weights an alert with
    at least one vote never scores below 30, and one more dispute never
    lowers the score. *)
Theorem safety_score_ratio_floor_disputes (c d : nat) (k cw dw : Q) :
  0 < k ->
  (0 < c + d)%nat ->
  calculateSafetyScore (k * inject_Z (Z.of_nat c)) (k * inject_Z (Z.of_nat d))
    cw dw
  == calculateSafetyScore (inject_Z (Z.of_nat c)) (inject_Z (Z.of_nat d)) cw dw
  /\ 30 <= score c d
  /\ score c d <= score c (S d).
Proof.
  intros Hk Hvotes.
  assert (Hc := votes_nonneg c). assert (Hd := votes_nonneg d).
  assert (Hpos := votes_pos c d Hvotes).
  set (qc := inject_Z (Z.of_nat c)) in *.
  set (qd := inject_Z (Z.of_nat d)) in *.
  split; [|split].
  - unfold calculateSafetyScore. cbv zeta.
    assert (E1 : Qeq_bool (qc + qd) 0 = false).
    { destruct (Qeq_bool (qc + qd) 0) eqn:E; [|reflexivity].
      apply Qeq_bool_iff in E. Lqa.lra. }
    assert (E2 : Qeq_bool (k * qc + k * qd) 0 = false).
    { destruct (Qeq_bool (k * qc + k * qd) 0) eqn:E; [|reflexivity].
      apply Qeq_bool_iff in E. Lqa.nra. }
    rewrite E1, E2. apply clamp_eq.
    assert (Hr : k * qc / (k * qc + k * qd) == qc / (qc + qd)).
    { field. split; intros H; Lqa.nra. }
    rewrite Hr. reflexivity.
  - unfold score, calculateSafetyScore.
    rewrite (votes_nonzero c d Hvotes). cbv zeta. fold qc qd.
    assert (Hr := ratio_le_one qc qd Hd Hpos).
    unfold defaultConfirmationWeight, defaultDisputeWeight.
    set (r := qc / (qc + qd)) in *.
    apply Qle_trans with (Qmin 100 (100 - r * 100 * (7 # 10)
                                    + (1 - r) * 100 * (3 # 10)));
      [|apply Q.le_max_r].
    apply Q.min_glb; Lqa.lra.
  - unfold score, calculateSafetyScore.
    rewrite (votes_nonzero c d Hvotes).
    rewrite (votes_nonzero c (S d)) by lia. cbv zeta. fold qc qd.
    apply clamp_mono.
    assert (Hle : qd <= inject_Z (Z.of_nat (S d))).
    { unfold qd. rewrite <- Zle_Qle. lia. }
    assert (Hr := ratio_antimono qc qd _ Hc Hd Hle Hpos).
    unfold defaultConfirmationWeight, defaultDisputeWeight.
    set (r := qc / (qc + qd)) in *.
    set (r' := qc / (qc + inject_Z (Z.of_nat (S d)))) in *.
    Lqa.lra.
Qed.

(** One confirmation and a thousand of them: both score 30. *)
Lemma safety_score_ratio_floor_disputes_example :
  calculateSafetyScore (1000 * inject_Z (Z.of_nat 1))
    (1000 * inject_Z (Z.of_nat 0))
    defaultConfirmationWeight defaultDisputeWeight
  == score 1 0
  /\ 30 <= score 1 0.
Proof.
  assert (Hk : 0 < 1000) by reflexivity.
  assert (Hvotes : (0 < 1 + 0)%nat) by lia.
  destruct (safety_score_ratio_floor_disputes 1 0 1000
              defaultConfirmationWeight defaultDisputeWeight Hk Hvotes)
    as [Hscale [Hfloor _]].
  split; [exact Hscale | exact Hfloor].
Defined.

End ScoreFacts.

(** ** The tree of the Stanton system *)

Section TreeFacts.
Import Stanton StantonParser PlannerSpec PlannerDerived.

Lemma treeOf_node data nodeId object children :
  treeOf data nodeId (Node object children)
  <-> Assoc.get nodeId data = Some object
      /\ Forall2 (treeOf data) (map name (getChildObjects data nodeId))
           children.
Proof.
  cbn [treeOf]. split; intros [H1 H2]; (split; [exact H1|]); revert H2;
    generalize (map name (getChildObjects data nodeId)) as ids.
  - induction children as [|c cs IH]; intros [|i ids] H;
      try contradiction; constructor; [tauto | apply IH; tauto].
  - intros ids H. induction H as [|i c ids cs Hc _ IH]; [exact I|].
    split; [exact Hc | exact IH].
Qed.

Lemma mapResult_Ok {A B : Type} (f : A -> result B) (l : list A)
    (bs : list B) :
  mapResult f l = Ok bs <-> Forall2 (fun a b => f a = Ok b) l bs.
Proof.
  revert bs. induction l as [|a l IH]; intros bs; cbn [mapResult].
  - split; [intros [= <-]; constructor | intros H; inversion H; reflexivity].
  - destruct (f a) as [b|m|] eqn:Ea; cbn [bind].
    + destruct (mapResult f l) as [bs'|m|] eqn:El; cbn [bind].
      * split.
        -- intros [= <-]. constructor; [exact Ea | now apply IH].
        -- intros H. inversion H as [|? b' ? bs'' Hb Hbs]; subst.
           apply IH in Hbs. congruence.
      * split; [discriminate|]. intros H.
        inversion H as [|? b' ? bs'' Hb Hbs]; subst.
        apply IH in Hbs. discriminate.
      * split; [discriminate|]. intros H.
        inversion H as [|? b' ? bs'' Hb Hbs]; subst.
        apply IH in Hbs. discriminate.
    + split; [discriminate|]. intros H. inversion H; congruence.
    + split; [discriminate|]. intros H. inversion H; congruence.
Qed.

Lemma mapResult_returns {A B : Type} (f : A -> result B) (l : list A) :
  (forall a, In a l -> exists b, f a = Ok b) ->
  exists bs, mapResult f l = Ok bs.
Proof.
  induction l as [|a l IH]; intros H; cbn [mapResult]; [now exists []|].
  destruct (H a (or_introl eq_refl)) as [b ->]. cbn [bind].
  destruct IH as [bs ->]; [intros a' Ha'; apply H; now right|].
  cbn [bind]. now eexists.
Qed.

Lemma mapResult_Err {A B : Type} (f : A -> result B) (l : list A) msg :
  mapResult f l = Err msg -> exists a, In a l /\ f a = Err msg.
Proof.
  induction l as [|a l IH]; cbn [mapResult]; [discriminate|].
  destruct (f a) as [b|m|] eqn:Ea; cbn [bind].
  - destruct (mapResult f l) as [bs|m|]; cbn [bind]; try discriminate.
    intros [= <-]. destruct (IH eq_refl) as [a' [Ha' E]].
    exists a'. split; [now right | exact E].
  - intros [= <-]. exists a. split; [now left | exact Ea].
  - discriminate.
Qed.

Lemma buildTreeNode_treeOf data :
  forall fuel nodeId t,
    buildTreeNode fuel data nodeId = Ok t -> treeOf data nodeId t.
Proof.
  induction fuel as [|fuel IH]; intros nodeId t; cbn [buildTreeNode];
    destruct (Assoc.get nodeId data) as [object|] eqn:Eg; try discriminate.
  destruct (mapResult _ _) as [children|m|] eqn:Em; cbn [bind];
    try discriminate.
  intros [= <-]. apply treeOf_node. split; [exact Eg|].
  apply mapResult_Ok in Em. clear Eg.
  induction Em as [|child c kids cs Hc _ IHk]; cbn [map]; constructor.
  - now apply IH.
  - exact IHk.
Qed.

Lemma getChildObjects_In data nodeId child :
  In child (getChildObjects data nodeId)
  <-> In child (Assoc.values data) /\ parent child = nodeId.
Proof.
  unfold getChildObjects. rewrite filter_In, String.eqb_eq. tauto.
Qed.

Lemma buildTreeNode_returns data (depth : string -> nat) (bound : nat) :
  namesResolve data ->
  (forall obj, In obj (Assoc.values data) ->
               depth (parent obj) < depth (name obj) < bound) ->
  forall fuel nodeId,
    Assoc.get nodeId data <> None ->
    depth nodeId < bound ->
    bound <= fuel + depth nodeId ->
    exists t, buildTreeNode fuel data nodeId = Ok t.
Proof.
  intros Hres Hrank.
  induction fuel as [|fuel IH]; intros nodeId Hget Hlt Hle; [lia|].
  cbn [buildTreeNode].
  destruct (Assoc.get nodeId data) as [object|]; [|contradiction].
  destruct (mapResult_returns
              (fun child => buildTreeNode fuel data (name child))
              (getChildObjects data nodeId)) as [children Hc].
  - intros child Hchild. apply getChildObjects_In in Hchild.
    destruct Hchild as [Hin Hp]. destruct (Hrank child Hin) as [Hd Hb].
    rewrite Hp in Hd. apply IH; [now apply Hres | exact Hb | lia].
  - rewrite Hc. cbn [bind]. now eexists.
Qed.

Lemma buildTreeNode_Err data :
  forall fuel nodeId msg,
    buildTreeNode fuel data nodeId = Err msg ->
    (Assoc.get nodeId data = None
     /\ msg = ("Object with ID " ++ nodeId ++ " not found")%string)
    \/ exists obj,
         In obj (Assoc.values data)
         /\ Assoc.get (name obj) data = None
         /\ msg = ("Object with ID " ++ name obj ++ " not found")%string.
Proof.
  induction fuel as [|fuel IH]; intros nodeId msg; cbn [buildTreeNode];
    destruct (Assoc.get nodeId data) as [object|] eqn:Eg;
    try discriminate; try (intros [= <-]; left; now split).
  destruct (mapResult _ _) as [children|m|] eqn:Em; cbn [bind];
    try discriminate.
  intros [= <-]. apply mapResult_Err in Em.
  destruct Em as [child [Hchild Herr]].
  apply getChildObjects_In in Hchild. destruct Hchild as [Hin _].
  destruct (IH _ _ Herr) as [[Hnone ->]|Hdeep].
  - right. exists child. repeat split; assumption.
  - right. exact Hdeep.
Qed.

(** X22: on a system in which the name of each object is an id and parent
    links have no cycle, [buildStantonTree] returns whenever an object is
    typed Star: from some recursion depth on it yields a tree for the
    first such object, in which every node carries the object stored under
    its id and has as children, in by-id order, the trees of the objects
    whose parent string is that id. *)
Theorem buildStantonTree_returns_tree
    (data : StantonSystem) (star : CelestialObject) :
  namesResolve data ->
  rankedSystem data ->
  find (fun obj => String.eqb (type obj) "Star") (Assoc.values data)
  = Some star ->
  exists n, forall fuel, n <= fuel ->
    exists t,
      buildStantonTree fuel data = Ok t /\ treeOf data (name star) t.
Proof.
  intros Hres [depth Hrank] Hstar.
  set (bound := S (list_max (map (fun o => depth (name o))
                               (Assoc.values data)))).
  assert (Hbound : forall obj, In obj (Assoc.values data) ->
                     depth (parent obj) < depth (name obj) < bound).
  { intros obj Hin. split; [now apply Hrank|]. unfold bound.
    assert (Hall := proj1 (list_max_le
                             (map (fun o => depth (name o))
                                (Assoc.values data)) _) (Nat.le_refl _)).
    rewrite Forall_forall in Hall.
    assert (H : In (depth (name obj))
                  (map (fun o => depth (name o)) (Assoc.values data)))
      by (apply in_map_iff; exists obj; tauto).
    specialize (Hall _ H). lia. }
  assert (Hin : In star (Assoc.values data))
    by (apply find_some in Hstar; tauto).
  exists bound. intros fuel Hfuel.
  destruct (buildTreeNode_returns data depth bound Hres Hbound fuel
              (name star)) as [t Ht].
  - now apply Hres.
  - exact (proj2 (Hbound star Hin)).
  - lia.
  - exists t. unfold buildStantonTree. rewrite Hstar.
    split; [exact Ht | exact (buildTreeNode_treeOf data _ _ _ Ht)].
Qed.

(** A star and one planet: the tree has the star at the root and the
    planet as its only child. *)
Lemma buildStantonTree_returns_tree_example :
  buildStantonTree 2 starAndPlanet
  = Ok (Node centralStar [Node (body "a" 1000000) []])
  /\ exists n, forall fuel, n <= fuel ->
       exists t,
         buildStantonTree fuel starAndPlanet = Ok t
         /\ treeOf starAndPlanet (name centralStar) t.
Proof.
  split; [reflexivity|].
  apply (buildStantonTree_returns_tree starAndPlanet centralStar).
  - intros obj [<-|[<-|[]]]; cbn; discriminate.
  - exists (fun id => if String.eqb id "" then 0
                      else if String.eqb id "stantonstar" then 1 else 2).
    intros obj [<-|[<-|[]]]; cbn; lia.
  - reflexivity.
Defined.

(** X23: the only errors [buildStantonTree] raises are the missing-star
    error, raised exactly when no object is typed Star, and the
    object-not-found error for the name of a stored object that is not an
    id of the system; on a system in which every name is an id only the
    first can occur. *)
Theorem buildStantonTree_errors
    (fuel : nat) (data : StantonSystem) (msg : string) :
  buildStantonTree fuel data = Err msg ->
  (msg = "Star not found in Stanton system data"
   /\ forall obj, In obj (Assoc.values data) -> type obj <> "Star")
  \/ (exists obj,
        In obj (Assoc.values data)
        /\ Assoc.get (name obj) data = None
        /\ msg = ("Object with ID " ++ name obj ++ " not found")%string
        /\ exists star, In star (Assoc.values data) /\ type star = "Star").
Proof.
  unfold buildStantonTree.
  destruct (find _ (Assoc.values data)) as [star|] eqn:Ef.
  - intros Herr. right. apply find_some in Ef. destruct Ef as [Hin Hty].
    apply String.eqb_eq in Hty.
    destruct (buildTreeNode_Err data _ _ _ Herr) as [[Hnone ->]|Hdeep].
    + exists star. repeat split; try assumption. now exists star.
    + destruct Hdeep as [obj [Ho [Hn Hm]]]. exists obj.
      repeat split; try assumption. now exists star.
  - intros [= <-]. left. split; [reflexivity|].
    intros obj Hin Hty.
    assert (H := find_none _ _ Ef obj Hin). cbn in H.
    rewrite Hty in H. discriminate.
Qed.

(** Two planets and no star. *)
Lemma buildStantonTree_errors_example :
  buildStantonTree 5 apart = Err "Star not found in Stanton system data"
  /\ forall obj, In obj (Assoc.values apart) -> type obj <> "Star".
Proof.
  split; [reflexivity|].
  destruct (buildStantonTree_errors 5 apart _ eq_refl)
    as [[_ H]|[obj [_ [_ [_ [star [Hin Hty]]]]]]]; [exact H|].
  exfalso. destruct Hin as [<-|[<-|[]]]; discriminate Hty.
Defined.

End TreeFacts.

(** ** What construction guarantees of every object *)

Lemma or_num_not_NaN o d : isNaN d = false -> isNaN (or_num o d) = false.
Proof.
  intros Hd. unfold or_num. destruct o as [a|]; [|exact Hd].
  destruct a; cbn; try exact Hd; try reflexivity.
  destruct (Qeq_bool q 0); [exact Hd | reflexivity].
Qed.

Lemma or_str_nonempty o d : d <> "" -> or_str o d <> "".
Proof.
  intros Hd. unfold or_str. destruct o as [s|]; [|exact Hd].
  destruct s; cbn; [exact Hd | discriminate].
Qed.

Lemma determineType_nonempty id data : determineType id data <> "".
Proof.
  unfold determineType. cbv zeta.
  repeat match goal with
         | |- (if ?c then _ else _) <> _ => destruct c
         end; try discriminate.
  apply or_str_nonempty. discriminate.
Qed.

Lemma createCelestialObject_defaults id data :
  defaultsApplied id (createCelestialObject id data).
Proof.
  unfold defaultsApplied, createCelestialObject. cbn.
  split; [reflexivity|]. split; [apply determineType_nonempty|].
  repeat (split; [now apply or_num_not_NaN|]).
  intros Hid. split; now apply or_str_nonempty.
Qed.

(** X24: every object of a built system is stored under its own name and
    carries what the defaults of construction guarantee: a non-empty type,
    no NaN in size, arrival radius, obstruction radius and atmosphere
    height (a NaN or missing value becomes 0), and, unless its id is
    empty, a non-empty display name and entity name.  Positions are not
    covered: a record's position object is taken as it is. *)
Theorem built_objects_have_defaults
    (fuel : nat) (this : Service) (sd : list (string * Raw.payload))
    (sys : StarSystem) (built : Service) :
  loadFromObject fuel this sd = Ok (sys, built) ->
  forall id object,
    In (id, object) (objectsById built) -> defaultsApplied id object.
Proof.
  intros Hload id object Hin.
  destruct (loadFromObject_Ok _ _ _ _ _ Hload) as [HbyId [Hbuilt _]].
  rewrite Hbuilt, HbyId in Hin.
  destruct (putAll_origin _ _ _ _ Hin) as [[]|[data [_ ->]]].
  apply createCelestialObject_defaults.
Qed.

(** A record whose size is NaN: the built object has size 0. *)
Lemma built_objects_have_defaults_example :
  exists sys built,
    loadFromObject 1 initial nanSizeRecords = Ok (sys, built)
    /\ exists object,
         In ("stantonstar", object) (objectsById built)
         /\ size object = zero
         /\ defaultsApplied "stantonstar" object.
Proof.
  eexists. eexists. split; [reflexivity|].
  eexists.
  match goal with
  | |- ?A /\ _ => assert (Hin : A) by (left; reflexivity)
  end.
  split; [exact Hin|]. split; [reflexivity|].
  exact (built_objects_have_defaults 1 initial nanSizeRecords _ _ eq_refl
           _ _ Hin).
Defined.

